(** * cc-wrapper: output translation, aggregation, supervision, registry, routing

    A shallow embedding of the JavaScript sources
      - output-parser.js, the third file of src/unnamed/part_000
        (classes OutputParser and MessageAggregator),
      - src/src/process-spawner.js (class ClaudeProcessSpawner),
      - session-manager.js, src/unnamed/part_001 (class SessionManager),
      - src/src/websocket-handler.js (handleUserMessage and the listeners;
        handleAbort, the message switch and the heartbeat of handleWebSocket),
      - logger.js, the first file of src/unnamed/part_000 (the level test),
      - db.js and the schema, src/unnamed/part_002 (the status update),
    followed by the properties established about them.

    JavaScript strings are sequences of 16-bit code units; they are modelled
    as [list N].  String literals of the source that are plain ASCII are
    written with [js "..."]; the few non-ASCII literals are given by the code
    units the source file holds. *)

From stdpp Require Import gmap strings list fin_maps.
From Stdlib Require Import NArith ZArith Lia.

Local Open Scope N_scope.

(* ===================================================================== *)
(** ** JavaScript strings and primitive values                             *)
(* ===================================================================== *)

Module JS.

Abbreviation jsstring := (list N).

(** An ASCII literal of the source as a sequence of code units. *)
Definition js (s : string) : jsstring :=
  map (fun a => N.of_nat (Ascii.nat_of_ascii a)) (String.list_ascii_of_string s).

Fixpoint str_eqb (a b : jsstring) : bool :=
  match a, b with
  | [], [] => true
  | x :: a', y :: b' => (x =? y) && str_eqb a' b'
  | _, _ => false
  end.

(** [LineTerminator] of ECMAScript: LF, CR, LS, PS. *)
Definition is_line_terminator (c : N) : bool :=
  (c =? 0x0A) || (c =? 0x0D) || (c =? 0x2028) || (c =? 0x2029).

(** [WhiteSpace] of ECMAScript: TAB, VT, FF, SP, NBSP, ZWNBSP and the
    space separators (category Zs). *)
Definition is_white_space (c : N) : bool :=
  (c =? 0x09) || (c =? 0x0B) || (c =? 0x0C) || (c =? 0x20) || (c =? 0xA0)
  || (c =? 0x1680) || ((0x2000 <=? c) && (c <=? 0x200A))
  || (c =? 0x202F) || (c =? 0x205F) || (c =? 0x3000) || (c =? 0xFEFF).

(** What [String.prototype.trim] strips and what [\s] matches. *)
Definition is_space (c : N) : bool := is_white_space c || is_line_terminator c.

(** [\w] is [A-Za-z0-9_]; [\d] is [0-9]; [.] is anything but a line
    terminator (no [s] flag is used in the sources). *)
Definition is_digit (c : N) : bool := (0x30 <=? c) && (c <=? 0x39).
Definition is_word (c : N) : bool :=
  ((0x41 <=? c) && (c <=? 0x5A)) || ((0x61 <=? c) && (c <=? 0x7A))
  || is_digit c || (c =? 0x5F).
Definition is_dot (c : N) : bool := negb (is_line_terminator c).

(** [s.startsWith(p)]: the remainder after [p] when [s] starts with [p]. *)
Fixpoint strip_prefix (p s : jsstring) : option jsstring :=
  match p, s with
  | [], _ => Some s
  | x :: p', y :: s' => if x =? y then strip_prefix p' s' else None
  | _ :: _, [] => None
  end.

Definition startsWith (s p : jsstring) : bool :=
  match strip_prefix p s with Some _ => true | None => false end.

(** [s.substring(1)]. *)
Definition substring1 (s : jsstring) : jsstring := drop 1 s.

(** [s.trim()]. *)
Fixpoint trimStart (s : jsstring) : jsstring :=
  match s with
  | c :: s' => if is_space c then trimStart s' else s
  | [] => []
  end.
Definition trimEnd (s : jsstring) : jsstring := rev (trimStart (rev s)).
Definition trim (s : jsstring) : jsstring := trimEnd (trimStart s).

(** [s.endsWith('\n')]. *)
Definition endsWith_nl (s : jsstring) : bool :=
  match last s with Some c => c =? 0x0A | None => false end.

(** [s.split('\n')]: always at least one segment. *)
Fixpoint split_nl (s : jsstring) : list jsstring :=
  match s with
  | [] => [[]]
  | c :: s' =>
      if c =? 0x0A then [] :: split_nl s'
      else match split_nl s' with
           | seg :: segs => (c :: seg) :: segs
           | [] => [[c]]
           end
  end.

(** Primitive values that occur as fields of events. *)
Inductive prim :=
| PUndef
| PNull
| PBool (b : bool)
| PStr (s : jsstring).

(** [ToString] on primitives, as used by [+] with a string operand. *)
Definition ToString (p : prim) : jsstring :=
  match p with
  | PUndef => js "undefined"
  | PNull => js "null"
  | PBool true => js "true"
  | PBool false => js "false"
  | PStr s => s
  end.

(** [ToBoolean] on primitives. *)
Definition truthy (p : prim) : bool :=
  match p with
  | PUndef | PNull => false
  | PBool b => b
  | PStr s => negb (str_eqb s [])
  end.

(** Object literals with primitive fields. *)
Definition fields (l : list (string * prim)) : gmap string prim := list_to_map l.

(** Property read on an object given by its fields. *)
Definition prop (o : gmap string prim) (k : string) : prim :=
  match o !! k with Some v => v | None => PUndef end.

End JS.
Import JS.

(* ===================================================================== *)
(** ** Regular expressions of the source, with backtracking                *)
(* ===================================================================== *)

Module Regex.

(** The fragment of the pattern language used by output-parser.js.
    Quantifiers are only ever applied to a single character class. *)
Inductive regex :=
| Bol                           (* ^ *)
| Eol                           (* $ *)
| Lit (s : jsstring)            (* literal characters *)
| LitI (s : jsstring)           (* literal characters under the i flag *)
| Star (p : N -> bool)          (* c*   greedy *)
| Plus (p : N -> bool)          (* c+   greedy *)
| StarLazy (p : N -> bool)      (* c*?  reluctant *)
| Seq (r1 r2 : regex)
| Alt (r1 r2 : regex)           (* r1|r2, left alternative first *)
| Opt (r : regex)               (* (?:r)?  greedy *)
| Group (i : nat) (r : regex).  (* i-th capturing group *)

Fixpoint seqs (rs : list regex) : regex :=
  match rs with
  | [] => Lit []
  | [r] => r
  | r :: rs' => Seq r (seqs rs')
  end.

Fixpoint alts (rs : list regex) : regex :=
  match rs with
  | [] => Lit []
  | [r] => r
  | r :: rs' => Alt r (alts rs')
  end.

Abbreviation captures := (gmap nat jsstring).
Abbreviation cont := (jsstring -> captures -> option captures).

(** Canonicalisation of the i flag without the u flag maps a code unit to
    its upper case, except that a non-ASCII code unit is never mapped to
    an ASCII one; for the ASCII letters of the patterns this is ASCII case
    folding. *)
Definition canon (c : N) : N :=
  if (0x61 <=? c) && (c <=? 0x7A) then c - 0x20 else c.

Fixpoint strip_prefix_ci (p s : jsstring) : option jsstring :=
  match p, s with
  | [], _ => Some s
  | x :: p', y :: s' => if canon x =? canon y then strip_prefix_ci p' s' else None
  | _ :: _, [] => None
  end.

Fixpoint star (p : N -> bool) (s : jsstring) (k : jsstring -> option captures)
  : option captures :=
  match s with
  | c :: s' =>
      if p c then
        match star p s' k with
        | Some r => Some r
        | None => k s
        end
      else k s
  | [] => k []
  end.

Fixpoint star_lazy (p : N -> bool) (s : jsstring) (k : jsstring -> option captures)
  : option captures :=
  match k s with
  | Some r => Some r
  | None =>
      match s with
      | c :: s' => if p c then star_lazy p s' k else None
      | [] => None
      end
  end.

(** [m n r s caps k]: match [r] at the suffix [s] of an input of length
    [n], then continue with [k]; alternatives are tried in the order of
    the backtracking matcher of the language. *)
Fixpoint m (n : nat) (r : regex) (s : jsstring) (caps : captures) (k : cont)
  : option captures :=
  match r with
  | Bol => if Nat.eqb (length s) n then k s caps else None
  | Eol => match s with [] => k s caps | _ :: _ => None end
  | Lit l => match strip_prefix l s with Some s' => k s' caps | None => None end
  | LitI l => match strip_prefix_ci l s with Some s' => k s' caps | None => None end
  | Star p => star p s (fun s' => k s' caps)
  | Plus p =>
      match s with
      | c :: s' => if p c then star p s' (fun s'' => k s'' caps) else None
      | [] => None
      end
  | StarLazy p => star_lazy p s (fun s' => k s' caps)
  | Seq r1 r2 => m n r1 s caps (fun s' caps' => m n r2 s' caps' k)
  | Alt r1 r2 =>
      match m n r1 s caps k with
      | Some r => Some r
      | None => m n r2 s caps k
      end
  | Opt r1 =>
      match m n r1 s caps k with
      | Some r => Some r
      | None => k s caps
      end
  | Group i r1 =>
      m n r1 s caps
        (fun s' caps' => k s' (<[i := take (length s - length s') s]> caps'))
  end.

Definition accept : cont := fun _ caps => Some caps.

(** Leftmost match: try every start position from the left. *)
Fixpoint search (n : nat) (r : regex) (s : jsstring) : option captures :=
  match m n r s ∅ accept with
  | Some caps => Some caps
  | None =>
      match s with
      | _ :: s' => search n r s'
      | [] => None
      end
  end.

(** [line.match(r)] for a pattern without the g flag: the captures of the
    leftmost match, or [None] for [null]. *)
Definition exec (r : regex) (line : jsstring) : option captures :=
  search (length line) r line.

(** [match[i] || ''] *)
Definition group_or_empty (caps : captures) (i : nat) : jsstring :=
  match caps !! i with Some s => s | None => [] end.

(** [match[i]] of a group that takes part in every match. *)
Definition group (caps : captures) (i : nat) : prim :=
  match caps !! i with Some s => PStr s | None => PUndef end.

End Regex.
Import Regex.

(* ===================================================================== *)
(** ** output-parser.js: class OutputParser                                *)
(* ===================================================================== *)

(** A parsed event: [{ event_type, data }].  [data] is [None] when the field
    holds [undefined] or [null], on which a property read throws. *)
Record event := Event {
  event_type : jsstring;
  data : option (gmap string prim)
}.

Module OutputParser.

(** The marker alternatives and the rule characters, as the code units
    the source file holds between the pattern's delimiters.  Each marker is
    a sequence of two to four characters: U+00E2 is a with circumflex,
    U+00BA the masculine ordinal, U+2014 and U+2013 the em and en dash,
    U+00B6 the pilcrow, U+0153 and U+0152 the oe ligatures, U+201C and
    U+201D the double quotation marks, U+2026 the ellipsis, U+02DC the small
    tilde, U+20AC the euro sign, U+011F g with breve, U+0178 Y with
    diaeresis, U+00A4 the currency sign, U+2019 the right single quotation
    mark, U+00AD the soft hyphen, U+2022 the bullet, U+201E the low double
    quotation mark, U+02C6 the modifier circumflex. *)
Definition tool_call_markers : list jsstring :=
  [ [0xE2; 0xBA]; [0xE2; 0x2014]; [0xE2; 0x2013; 0xB6]; [0xE2; 0x2013; 0xBA] ].
Definition success_markers : list jsstring :=
  [ [0xE2; 0x153; 0x201C]; [0xE2; 0x153; 0x201D]; [0xE2; 0x153; 0x2026] ].
Definition failure_markers : list jsstring :=
  [ [0xE2; 0x153; 0x2014]; [0xE2; 0x153; 0x2DC]; [0xE2; 0x152] ].
Definition prompt_marker : jsstring := [0xE2; 0x20AC; 0xBA].
Definition thought_markers : list jsstring :=
  [ [0x11F; 0x178; 0xA4; 0x201D]; [0x11F; 0x178; 0x2019; 0xAD] ].
Definition rule_class : list N :=
  [0xE2; 0x201D; 0x20AC; 0xE2; 0x2022; 0xE2; 0x201D; 0xE2; 0x201D; 0x201E;
   0xE2; 0x201D; 0x2C6; 0xE2; 0x2022; 0x152].

Definition in_class (cls : list N) (c : N) : bool := existsb (N.eqb c) cls.

(** toolCallMatch:  ^ (?: M1 | M2 | M3 | M4 ) \s* ( \w+ ) (?: \s+ ( .* ) )? $ *)
Definition toolCall_re : regex :=
  seqs [Bol; alts (map Lit tool_call_markers); Star is_space;
        Group 1 (Plus is_word);
        Opt (seqs [Plus is_space; Group 2 (Star is_dot)]); Eol].

(** toolSuccessMatch:  ^ (?: M1 | M2 | M3 ) \s* ( .* ) $ *)
Definition toolSuccess_re : regex :=
  seqs [Bol; alts (map Lit success_markers); Star is_space;
        Group 1 (Star is_dot); Eol].

(** toolErrorMatch:  ^ (?: M1 | M2 | M3 | Error: ) \s* ( .* ) $ *)
Definition toolError_re : regex :=
  seqs [Bol; alts (map Lit failure_markers ++ [Lit (js "Error:")]);
        Star is_space; Group 1 (Star is_dot); Eol].

(** filePathMatch:  ^ (?: Editing | Writing | Reading ) \s+ ( .+ ) $ *)
Definition filePath_re : regex :=
  seqs [Bol; alts [Lit (js "Editing"); Lit (js "Writing"); Lit (js "Reading")];
        Plus is_space; Group 1 (Plus is_dot); Eol].

(** bashMatch:  ^ (?: \$ | M | > ) \s* ( .+ ) $ *)
Definition bash_re : regex :=
  seqs [Bol; alts [Lit (js "$"); Lit prompt_marker; Lit (js ">")];
        Star is_space; Group 1 (Plus is_dot); Eol].

(** thinkingMatch:  ^ (?: Thinking | M1 | M2 ) (?: : | \.\.\. ) \s* ( .* ) $ *)
Definition thinking_re : regex :=
  seqs [Bol; alts (Lit (js "Thinking") :: map Lit thought_markers);
        alts [Lit (js ":"); Lit (js "...")];
        Star is_space; Group 1 (Star is_dot); Eol].

(** costMatch, with the i flag:  (?: tokens? | cost ) .*? ( \d+ (?: , \d+ )? ) *)
Definition cost_re : regex :=
  seqs [alts [Seq (LitI (js "token")) (Opt (LitI (js "s"))); LitI (js "cost")];
        StarLazy is_dot;
        Group 1 (Seq (Plus is_digit) (Opt (Seq (Lit (js ",")) (Plus is_digit))))].

(** ^ [rule characters]+ $   and   ^ [-=]+ $ *)
Definition rule_re : regex := seqs [Bol; Plus (in_class rule_class); Eol].
Definition dashes_re : regex := seqs [Bol; Plus (in_class (js "-=")); Eol].

Definition ev (t : string) (d : list (string * prim)) : event :=
  Event (js t) (Some (fields d)).

(** [_parseLine(line)]: the event of a line, or [None] for [null]. *)
Definition _parseLine (line : jsstring) : option event :=
  match exec toolCall_re line with
  | Some c =>
      Some (ev "tool_call" [("tool_name", group c 1);
                            ("parameters", PStr (group_or_empty c 2));
                            ("status", PStr (js "started"))])
  | None =>
  match exec toolSuccess_re line with
  | Some c => Some (ev "tool_result" [("result", group c 1); ("success", PBool true)])
  | None =>
  match exec toolError_re line with
  | Some c => Some (ev "tool_result" [("result", group c 1); ("success", PBool false)])
  | None =>
  match exec filePath_re line with
  | Some c =>
      Some (ev "file_edit"
              [("file_path", group c 1);
               ("action", PStr (if startsWith line (js "Editing") then js "edit"
                                else if startsWith line (js "Writing") then js "write"
                                else js "read"))])
  | None =>
  if startsWith line (js "+") && negb (startsWith line (js "+++")) then
    Some (ev "diff_add" [("content", PStr (substring1 line))])
  else if startsWith line (js "-") && negb (startsWith line (js "---")) then
    Some (ev "diff_remove" [("content", PStr (substring1 line))])
  else
  match exec bash_re line with
  | Some c => Some (ev "bash_command" [("command", group c 1);
                                       ("status", PStr (js "started"))])
  | None =>
  match exec thinking_re line with
  | Some c => Some (ev "thinking" [("content", group c 1)])
  | None =>
  match exec cost_re line with
  | Some _ => Some (ev "usage" [("raw", PStr line)])
  | None =>
  if str_eqb (trim line) []
     || bool_decide (is_Some (exec rule_re line))
     || bool_decide (is_Some (exec dashes_re line))
  then None
  else Some (ev "text" [("content", PStr line)])
  end end end end end end end.

(** The fields of the parser object that [parse] and [reset] use.
    [currentBlock] and [blockStack] are only ever assigned [null] and [[]]. *)
Record t := Parser {
  sessionId : jsstring;
  remaining : jsstring
}.

Definition new (sid : jsstring) : t := Parser sid [].

(** [lines.pop()] on the non-empty result of [split]: the segments before
    the last, and the last. *)
Definition pop (segs : list jsstring) : list jsstring * jsstring :=
  (removelast segs, List.last segs []).

(** [parse(buffer)]: the events of the completed lines and the parser
    with the unfinished tail kept in [remaining]. *)
Definition parse (p : t) (buffer : jsstring) : list event * t :=
  let fullBuffer := remaining p ++ buffer in
  let '(lines, tail) := pop (split_nl fullBuffer) in
  (omap _parseLine lines, Parser (sessionId p) tail).

Definition getRemaining (p : t) : jsstring := remaining p.

Definition reset (p : t) : t := Parser (sessionId p) [].

(** Feeding chunks one after another, collecting all events. *)
Fixpoint parse_all (p : t) (chunks : list jsstring) : list event * t :=
  match chunks with
  | [] => ([], p)
  | c :: cs =>
      let '(es, p') := parse p c in
      let '(es', p'') := parse_all p' cs in
      (es ++ es', p'')
  end.

End OutputParser.

(* ===================================================================== *)
(** ** output-parser.js: class MessageAggregator                           *)
(* ===================================================================== *)

(** What a [throw] or a failing property access raises. *)
Inductive exn :=
| TypeError                       (* property access on undefined, call of a non-function *)
| ProcessAlreadyRunning           (* new Error('Process already running') *)
| ProcessNotRunning               (* new Error('Process not running') *)
| MaxSessionsReached (max : option Z)   (* new Error(`Max sessions (${MAX}) reached for user`) *)
| DbError.                        (* a rejected database query *)

Inductive result (A : Type) :=
| Ok (a : A)
| Throw (e : exn).
Arguments Ok {A} a.
Arguments Throw {A} e.

Module Heap.

(** Arrays and records of the aggregator are objects with identity: the
    message lists, the tool, file and bash records are reached both from
    the message and from the [current*] fields. *)
Abbreviation loc := nat.

Inductive value :=
| VPrim (p : prim)
| VRef (l : loc).

Inductive obj :=
| Obj (f : gmap string value)
| Arr (items : list value).

Abbreviation heap := (list obj).

(** A computation on the heap that may throw. *)
Definition M (A : Type) : Type := heap -> result (A * heap).

Definition ret {A} (a : A) : M A := fun h => Ok (a, h).
Definition throw {A} (e : exn) : M A := fun _ => Throw e.
Definition bind {A B} (c : M A) (f : A -> M B) : M B :=
  fun h => match c h with
           | Ok (a, h') => f a h'
           | Throw e => Throw e
           end.

(** [{...}] and [[]]: a fresh object. *)
Definition alloc (o : obj) : M loc := fun h => Ok (length h, h ++ [o]).

(** [arr.push(v)] *)
Definition push (l : loc) (v : value) : M unit :=
  fun h => match h !! l with
           | Some (Arr items) => Ok (tt, <[l := Arr (items ++ [v])]> h)
           | _ => Throw TypeError
           end.

(** [o.k = v] *)
Definition set_field (l : loc) (k : string) (v : value) : M unit :=
  fun h => match h !! l with
           | Some (Obj f) => Ok (tt, <[l := Obj (<[k := v]> f)]> h)
           | _ => Throw TypeError
           end.

(** [o.k] *)
Definition get_field (l : loc) (k : string) : M value :=
  fun h => match h !! l with
           | Some (Obj f) =>
               Ok (match f !! k with Some v => v | None => VPrim PUndef end, h)
           | _ => Throw TypeError
           end.

(** [data.k] where [data] may be undefined. *)
Definition field (d : option (gmap string prim)) (k : string) : M prim :=
  match d with
  | Some o => ret (prop o k)
  | None => throw TypeError
  end.

Definition record (l : list (string * value)) : obj := Obj (list_to_map l).

(** The value of a reference as a tree, followed to depth [fuel]. *)
#[local] Set Warnings "-register-all".
Inductive jsval :=
| JPrim (p : prim)
| JObj (f : list (string * jsval))
| JArr (items : list jsval)
| JCut.

Fixpoint reify (fuel : nat) (h : heap) (v : value) : jsval :=
  match v with
  | VPrim p => JPrim p
  | VRef l =>
      match fuel with
      | O => JCut
      | S n =>
          match h !! l with
          | Some (Obj f) => JObj (map (fun kv => (kv.1, reify n h kv.2)) (map_to_list f))
          | Some (Arr items) => JArr (map (reify n h) items)
          | None => JCut
          end
      end
  end.

(** No reference of the heap points outside it. *)
Definition val_below (n : nat) (v : value) : Prop :=
  match v with VPrim _ => True | VRef l => (l < n)%nat end.

Definition obj_below (n : nat) (o : obj) : Prop :=
  match o with
  | Obj f => map_Forall (fun _ v => val_below n v) f
  | Arr items => Forall (val_below n) items
  end.

Definition closed (h : heap) : Prop := Forall (obj_below (length h)) h.

(** Every reference of an object points at or beyond [b]. *)
Definition val_above (b : nat) (v : value) : Prop :=
  match v with VPrim _ => True | VRef l => (b <= l)%nat end.

Definition obj_above (b : nat) (o : obj) : Prop :=
  match o with
  | Obj f => map_Forall (fun _ v => val_above b v) f
  | Arr items => Forall (val_above b) items
  end.

(** A closed heap whose objects from [b] on refer to nothing below [b]. *)
Definition split_at (b : nat) (h : heap) : Prop :=
  (b <= length h)%nat
  /\ closed h
  /\ (forall l o, (b <= l)%nat -> h !! l = Some o -> obj_above b o).

End Heap.
Import Heap.

Notation "'let*' x := c 'in' k" := (bind c (fun x => k))
  (at level 10, x name, c at level 100, k at level 200).
Notation "'do' c 'in' k" := (bind c (fun _ => k))
  (at level 10, c at level 100, k at level 200).

Module MessageAggregator.

(** [currentMessage]: the text and the five lists.  The message object
    itself is reached only through [this.currentMessage]; [finalize]
    copies its fields, so it is kept as a record of fields, the lists
    being references. *)
Record message := Message {
  content : jsstring;
  tool_calls : loc;
  file_changes : loc;
  bash_commands : loc;
  errors : loc;
  thinking : loc
}.

Record t := Agg {
  currentMessage : message;
  currentTool : option loc;
  currentFile : option loc;
  currentBash : option loc
}.

Definition set_content (m : message) (c : jsstring) : message :=
  Message c (tool_calls m) (file_changes m) (bash_commands m) (errors m) (thinking m).

(** [reset()] *)
Definition reset : M t :=
  let* tc := alloc (Arr []) in
  let* fc := alloc (Arr []) in
  let* bc := alloc (Arr []) in
  let* er := alloc (Arr []) in
  let* th := alloc (Arr []) in
  ret (Agg (Message [] tc fc bc er th) None None None).

(** [new MessageAggregator()] *)
Definition new : M t := reset.

(** [addEvent(event)] *)
Definition addEvent (e : event) (a : t) : M t :=
  let msg := currentMessage a in
  let d := data e in
  let et := event_type e in
  if str_eqb et (js "text") then
    let* c := field d "content" in
    ret (Agg (set_content msg (content msg ++ ToString c ++ [0x0A]))
             (currentTool a) (currentFile a) (currentBash a))
  else if str_eqb et (js "tool_call") then
    let* n := field d "tool_name" in
    let* p := field d "parameters" in
    let* s := field d "status" in
    let* l := alloc (record [("name", VPrim n); ("parameters", VPrim p);
                       ("status", VPrim s); ("result", VPrim PNull)]) in
    do push (tool_calls msg) (VRef l) in
    ret (Agg msg (Some l) (currentFile a) (currentBash a))
  else if str_eqb et (js "tool_result") then
    match currentTool a with
    | Some l =>
        let* r := field d "result" in
        do set_field l "result" (VPrim r) in
        let* s := field d "success" in
        do set_field l "success" (VPrim s) in
        ret (Agg msg None (currentFile a) (currentBash a))
    | None => ret a
    end
  else if str_eqb et (js "file_edit") then
    let* p := field d "file_path" in
    let* ac := field d "action" in
    let* adds := alloc (Arr []) in
    let* rems := alloc (Arr []) in
    let* l := alloc (record [("file_path", VPrim p); ("action", VPrim ac);
                       ("additions", VRef adds); ("removals", VRef rems)]) in
    do push (file_changes msg) (VRef l) in
    ret (Agg msg (currentTool a) (Some l) (currentBash a))
  else if str_eqb et (js "diff_add") then
    match currentFile a with
    | Some l =>
        let* arr := get_field l "additions" in
        let* c := field d "content" in
        match arr with
        | VRef al => do push al (VPrim c) in ret a
        | VPrim _ => throw TypeError
        end
    | None => ret a
    end
  else if str_eqb et (js "diff_remove") then
    match currentFile a with
    | Some l =>
        let* arr := get_field l "removals" in
        let* c := field d "content" in
        match arr with
        | VRef al => do push al (VPrim c) in ret a
        | VPrim _ => throw TypeError
        end
    | None => ret a
    end
  else if str_eqb et (js "bash_command") then
    let* c := field d "command" in
    let* l := alloc (record [("command", VPrim c); ("output", VPrim (PStr []));
                       ("exit_code", VPrim PNull)]) in
    do push (bash_commands msg) (VRef l) in
    ret (Agg msg (currentTool a) (currentFile a) (Some l))
  else if str_eqb et (js "thinking") then
    let* c := field d "content" in
    do push (thinking msg) (VPrim c) in
    ret a
  else if str_eqb et (js "error") then
    let* mg := field d "message" in
    let* src := field d "source" in
    let* l := alloc (record [("message", VPrim mg); ("source", VPrim src)]) in
    do push (errors msg) (VRef l) in
    ret a
  else ret a.

(** [finalize()]: a copy of the message fields with the text trimmed,
    then [reset()]. *)
Definition finalize (a : t) : M (message * t) :=
  let message := set_content (currentMessage a) (trim (content (currentMessage a))) in
  let* a' := reset in
  ret (message, a').

(** Folding a sequence of events, stopping at the first throw. *)
Fixpoint addEvents (es : list event) (a : t) : M t :=
  match es with
  | [] => ret a
  | e :: es' => let* a' := addEvent e a in addEvents es' a'
  end.

(** What a reader of a message record sees: the text and the five lists
    followed through the heap (lists of records of lists: depth 3). *)
Record view := View {
  v_content : jsstring;
  v_tool_calls : jsval;
  v_file_changes : jsval;
  v_bash_commands : jsval;
  v_errors : jsval;
  v_thinking : jsval
}.

Definition read (h : heap) (m : message) : view :=
  View (content m)
       (reify 3 h (VRef (tool_calls m)))
       (reify 3 h (VRef (file_changes m)))
       (reify 3 h (VRef (bash_commands m)))
       (reify 3 h (VRef (errors m)))
       (reify 3 h (VRef (thinking m))).

(** The operations a holder of the aggregator can perform. *)
Inductive op :=
| OpAddEvent (e : event)
| OpFinalize
| OpReset.

Definition run_op (o : op) (a : t) : M t :=
  match o with
  | OpAddEvent e => addEvent e a
  | OpFinalize => let* r := finalize a in ret r.2
  | OpReset => reset
  end.

Fixpoint run_ops (os : list op) (a : t) : M t :=
  match os with
  | [] => ret a
  | o :: os' => let* a' := run_op o a in run_ops os' a'
  end.

(** The event types [addEvent] has a case for. *)
Definition handled_types : list jsstring :=
  [js "text"; js "tool_call"; js "tool_result"; js "file_edit"; js "diff_add";
   js "diff_remove"; js "bash_command"; js "thinking"; js "error"].

(** Whether a tool slot is open after a sequence of events, read off the
    sequence: the last tool_call or tool_result in it is a tool_call. *)
Fixpoint tool_open_after (es : list event) (open : bool) : bool :=
  match es with
  | [] => open
  | e :: es' =>
      if str_eqb (event_type e) (js "tool_call") then tool_open_after es' true
      else if str_eqb (event_type e) (js "tool_result") then tool_open_after es' false
      else tool_open_after es' open
  end.

(** The states an aggregator goes through: created on an empty heap,
    then driven by its operations. *)
Inductive reachable : heap -> t -> Prop :=
| reach_new a h : new [] = Ok (a, h) -> reachable h a
| reach_op o a h a' h' :
    reachable h a -> run_op o a h = Ok (a', h') -> reachable h' a'.

(** The aggregator holds lists inside the heap, and from [b] on when it
    was reset at a heap of size [b]. *)
Definition lists (m : message) : list loc :=
  [tool_calls m; file_changes m; bash_commands m; errors m; thinking m].

Definition agg_split (b : nat) (h : heap) (a : t) : Prop :=
  split_at b h
  /\ Forall (fun l => (b <= l < length h)%nat) (lists (currentMessage a))
  /\ (forall l, currentTool a = Some l -> (b <= l)%nat)
  /\ (forall l, currentFile a = Some l -> (b <= l)%nat).

(** Whether [currentTool] holds a record. *)
Definition has_open_tool (a : t) : bool :=
  match currentTool a with Some _ => true | None => false end.

(** A new aggregator fed a sequence of events: the heap and the
    aggregator, when no event throws. *)
Definition after (es : list event) : option (heap * t) :=
  match (let* a := new in addEvents es a) [] with
  | Ok (a, h) => Some (h, a)
  | Throw _ => None
  end.

(** A record with its text trimmed. *)
Definition trimmed (v : view) : view :=
  View (trim (v_content v)) (v_tool_calls v) (v_file_changes v)
       (v_bash_commands v) (v_errors v) (v_thinking v).

(** The record of an aggregator that has accumulated nothing. *)
Definition empty_view : view :=
  View [] (JArr []) (JArr []) (JArr []) (JArr []) (JArr []).

(** [addEvents] followed by [finalize]: the record handed out. *)
Definition finalize_after (es : list event) (a : t) (h : heap) : result view :=
  match (let* a' := addEvents es a in finalize a') h with
  | Ok ((msg, _), h') => Ok (read h' msg)
  | Throw e => Throw e
  end.

End MessageAggregator.

(* ===================================================================== *)
(** ** process-spawner.js: class ClaudeProcessSpawner                      *)
(* ===================================================================== *)

Module ProcessSpawner.

Inductive signal := SIGINT | SIGTERM | SIGKILL.

(** The spawned child as the supervisor drives it: the arguments and
    directory it was spawned with, what was written to its input, the
    signals sent to it. *)
Record child := Child {
  args : list jsstring;
  cwd : jsstring;
  stdin : list jsstring;
  signals : list signal
}.

(** The payloads of the five [emit] sites (process_error has two).
    [timestamp] is the reading of the clock at the emission. *)
Inductive notification :=
| ConfigError (session_id timestamp : jsstring)
    (* { type: 'error', message: '... is not set', source: 'config', session_id, timestamp } *)
| Output (e : event) (session_id timestamp : jsstring)
    (* { type: 'event', ...event, session_id, timestamp } *)
| ErrorOutput (text : jsstring) (session_id timestamp : jsstring)
    (* { type: 'event', event_type: 'error', data: { message: text, source: 'stderr' }, ... } *)
| SessionEnd (exit_code : option Z) (sig : option jsstring) (reason : jsstring)
             (session_id timestamp : jsstring)
    (* { type: 'event', event_type: 'session_end', data: { exit_code, signal, reason }, ... } *)
| SpawnError (message : jsstring) (session_id timestamp : jsstring).
    (* { type: 'event', event_type: 'error', data: { message, stack, source: 'process' }, ... } *)

(** [this.emit(name, payload)] *)
Abbreviation emitted := (string * notification)%type.

Record t := Spawner {
  sessionId : jsstring;
  model : option jsstring;
  workingDirectory : jsstring;
  process : option child;
  parser : OutputParser.t;
  isRunning : bool;
  outputBuffer : jsstring
}.

(** [new ClaudeProcessSpawner(sessionId, model, workingDirectory)] *)
Definition new (sid : jsstring) (mdl : option jsstring) (dir : jsstring) : t :=
  Spawner sid mdl dir None (OutputParser.new sid) false [].

Definition set_process (sp : t) (c : option child) : t :=
  Spawner (sessionId sp) (model sp) (workingDirectory sp) c (parser sp)
          (isRunning sp) (outputBuffer sp).
Definition set_running (sp : t) (b : bool) : t :=
  Spawner (sessionId sp) (model sp) (workingDirectory sp) (process sp) (parser sp)
          b (outputBuffer sp).
Definition set_buffers (sp : t) (p : OutputParser.t) (buf : jsstring) : t :=
  Spawner (sessionId sp) (model sp) (workingDirectory sp) (process sp) p
          (isRunning sp) buf.

(** [!ANTHROPIC_API_KEY]: the variable is unset or empty. *)
Definition credential_absent (key : option jsstring) : bool :=
  match key with
  | None => true
  | Some k => str_eqb k []
  end.

Definition string_truthy (o : option jsstring) : bool :=
  match o with
  | None => false
  | Some k => negb (str_eqb k [])
  end.

(** [start()], with the credential [key] of the environment and the clock
    [now]: the returned handle ([None] for [null]), the supervisor and
    the notifications emitted, or the error thrown. *)
Definition start (key : option jsstring) (now : nat -> jsstring) (sp : t)
  : result (option child * t * list emitted) :=
  if isRunning sp then Throw ProcessAlreadyRunning
  else if credential_absent key then
    Ok (None, sp, [("process_error", ConfigError (sessionId sp) (now 0%nat))])
  else
    let args := js "--dangerously-skip-permissions"
                :: (if string_truthy (model sp)
                    then [js "--model"; default [] (model sp)] else []) in
    let c := Child args (workingDirectory sp) [] [] in
    Ok (Some c, set_running (set_process sp (Some c)) true, []).

(** [_processBuffer()] *)
Definition _processBuffer (now : nat -> jsstring) (sp : t) : t * list emitted :=
  let '(events, p') := OutputParser.parse (parser sp) (outputBuffer sp) in
  (set_buffers sp p' (OutputParser.getRemaining p'),
   imap (fun i e => ("output", Output e (sessionId sp) (now i))) events).

(** The handler of ['data'] on the child's stdout, [text] being
    [data.toString()]. *)
Definition on_stdout (now : nat -> jsstring) (text : jsstring) (sp : t)
  : t * list emitted :=
  _processBuffer now (set_buffers sp (parser sp) (outputBuffer sp ++ text)).

(** The handler of ['data'] on the child's stderr. *)
Definition on_stderr (now : nat -> jsstring) (text : jsstring) (sp : t)
  : t * list emitted :=
  (sp, [("error_output", ErrorOutput text (sessionId sp) (now 0%nat))]).

(** The handler of ['exit']. *)
Definition on_exit (now : nat -> jsstring) (code : option Z) (sig : option jsstring)
  (sp : t) : t * list emitted :=
  let reason := if string_truthy sig then js "signal"
                else if bool_decide (code = Some 0%Z) then js "normal"
                else js "error" in
  (set_running sp false,
   [("exit", SessionEnd code sig reason (sessionId sp) (now 0%nat))]).

(** The handler of ['error'] on the child. *)
Definition on_error (now : nat -> jsstring) (message : jsstring) (sp : t)
  : t * list emitted :=
  (set_running sp false,
   [("process_error", SpawnError message (sessionId sp) (now 0%nat))]).

Definition child_write (c : child) (text : jsstring) : child :=
  Child (args c) (cwd c) (stdin c ++ [text]) (signals c).
Definition child_kill (c : child) (s : signal) : child :=
  Child (args c) (cwd c) (stdin c) (signals c ++ [s]).

(** [write(input)] *)
Definition write (input : jsstring) (sp : t) : result t :=
  match process sp with
  | Some c =>
      if isRunning sp then
        let text := if endsWith_nl input then input else input ++ [0x0A] in
        Ok (set_process sp (Some (child_write c text)))
      else Throw ProcessNotRunning
  | None => Throw ProcessNotRunning
  end.

(** [abort()] *)
Definition abort (sp : t) : t :=
  match process sp with
  | Some c => if isRunning sp then set_process sp (Some (child_kill c SIGINT)) else sp
  | None => sp
  end.

(** [kill()]; the forced termination five seconds later is the timer
    callback [kill_escalate]. *)
Definition kill (sp : t) : t :=
  match process sp with
  | Some c => set_process sp (Some (child_kill c SIGTERM))
  | None => sp
  end.

Definition kill_escalate (sp : t) : t :=
  match process sp with
  | Some c => if isRunning sp then set_process sp (Some (child_kill c SIGKILL)) else sp
  | None => sp
  end.

(** [isActive()] *)
Definition isActive (sp : t) : bool := isRunning sp.

(** A running supervisor receiving stdout chunks one after another: the
    notifications emitted, in order. *)
Fixpoint feed (now : nat -> jsstring) (chunks : list jsstring) (sp : t)
  : t * list emitted :=
  match chunks with
  | [] => (sp, [])
  | c :: cs =>
      let '(sp', out) := on_stdout now c sp in
      let '(sp'', out') := feed now cs sp' in
      (sp'', out ++ out')
  end.

(** The events carried by the ['output'] notifications, with the session
    id each is stamped with. *)
Definition output_events (out : list emitted) : list (event * jsstring) :=
  omap (fun en => match en.2 with
                  | Output e sid _ => if String.eqb en.1 "output" then Some (e, sid) else None
                  | _ => None
                  end) out.

End ProcessSpawner.

(* ===================================================================== *)
(** ** session-manager.js: class SessionManager                            *)
(* ===================================================================== *)

Module SessionManager.

(** The row [createSession] returns. *)
Record session_row := Row {
  id : jsstring;
  row_model : option jsstring;
  row_working_directory : jsstring
}.

(** An entry of [activeSessions]. *)
Record info := Info {
  process : ProcessSpawner.t;
  socket : nat;
  userId : jsstring;
  timer : nat;
  projectRef : option jsstring;
  model : option jsstring
}.

Record t := Manager {
  activeSessions : gmap (list N) info;
  userSessions : gmap (list N) (gset (list N))
}.

Definition new : t := Manager ∅ ∅.

(** What the registry does to the world outside its two maps. *)
Inductive effect :=
| SetTimeout (timer : nat) (sessionId : jsstring)
| ClearTimeout (timer : nat)
| KillProcess (sessionId : jsstring)
| SocketSendSessionEnd (socket : nat) (sessionId reason : jsstring)
| UpdateSessionStatus (sessionId status reason : jsstring).

(** [getActiveSessionCount(userId)] *)
Definition getActiveSessionCount (m : t) (u : jsstring) : nat :=
  match userSessions m !! u with
  | Some sessions => size sessions
  | None => 0%nat
  end.

(** The session ids registered for an owner. *)
Definition sessions_of (m : t) (u : jsstring) : gset (list N) :=
  default ∅ (userSessions m !! u).

(** [canCreateSession(userId)].  [max] is [MAX_SESSIONS_PER_USER], the
    result of [parseInt]: an integer, or [None] for NaN, with which every
    comparison is false. *)
Definition canCreateSession (max : option Z) (m : t) (u : jsstring) : bool :=
  match max with
  | Some mx => (Z.of_nat (getActiveSessionCount m u) <? mx)%Z
  | None => false
  end.

(** The arguments of a [startSession] call. *)
Record start_args := StartArgs {
  a_userId : jsstring;
  a_projectRef : option jsstring;
  a_model : option jsstring;
  a_workingDirectory : jsstring;
  a_socket : nat
}.

(** [startSession], up to its [await createSession(...)]. *)
Definition startSession_check (max : option Z) (m : t) (a : start_args) : result unit :=
  if canCreateSession max m (a_userId a) then Ok tt
  else Throw (MaxSessionsReached max).

(** [startSession], from the moment the awaited row is there: the
    supervisor is constructed, the timer armed, both maps updated. *)
Definition startSession_register (a : start_args) (session : session_row) (tm : nat)
  (m : t) : t * (session_row * ProcessSpawner.t) * list effect :=
  let sessionId := id session in
  let spawner := ProcessSpawner.new sessionId (a_model a) (a_workingDirectory a) in
  let active := <[sessionId := Info spawner (a_socket a) (a_userId a) tm
                                    (a_projectRef a) (a_model a)]> (activeSessions m) in
  let users := match userSessions m !! a_userId a with
               | Some _ => userSessions m
               | None => <[a_userId a := ∅]> (userSessions m)
               end in
  let users' := match users !! a_userId a with
                | Some sessions => <[a_userId a := sessions ∪ {[sessionId]}]> users
                | None => users
                end in
  (Manager active users', (session, spawner), [SetTimeout tm sessionId]).

(** [startSession] run without interruption: [db] is the outcome of the
    awaited query, [tm] the timer the runtime hands out. *)
Definition startSession (max : option Z) (a : start_args) (db : option session_row)
  (tm : nat) (m : t) : result (t * (session_row * ProcessSpawner.t) * list effect) :=
  match startSession_check max m a with
  | Throw e => Throw e
  | Ok _ =>
      match db with
      | None => Throw DbError
      | Some session => Ok (startSession_register a session tm m)
      end
  end.

(** [getSession], [hasSession] *)
Definition getSession (m : t) (s : jsstring) : option info := activeSessions m !! s.
Definition hasSession (m : t) (s : jsstring) : bool :=
  bool_decide (is_Some (activeSessions m !! s)).

Definition set_timer (i : info) (tm : nat) : info :=
  Info (process i) (socket i) (userId i) tm (projectRef i) (model i).
Definition set_process (i : info) (p : ProcessSpawner.t) : info :=
  Info p (socket i) (userId i) (timer i) (projectRef i) (model i).

(** [resetTimeout(sessionId)] *)
Definition resetTimeout (s : jsstring) (tm : nat) (m : t) : t * list effect :=
  match activeSessions m !! s with
  | Some session =>
      (Manager (<[s := set_timer session tm]> (activeSessions m)) (userSessions m),
       [ClearTimeout (timer session); SetTimeout tm s])
  | None => (m, [])
  end.

(** An [endSession] call suspended at [await updateSessionStatus(...)]. *)
Record pending_end := PendingEnd {
  e_sessionId : jsstring;
  e_session : info;
  e_reason : jsstring;
  e_status : jsstring
}.

(** [endSession], up to its [await]: nothing for an unknown id. *)
Definition endSession_begin (socket_open : nat -> bool) (s reason : jsstring) (m : t)
  : t * option pending_end * list effect :=
  match activeSessions m !! s with
  | None => (m, None, [])
  | Some session =>
      let killed := set_process session (ProcessSpawner.kill (process session)) in
      let status := if str_eqb reason (js "error") then js "error"
                    else if str_eqb reason (js "abort") then js "aborted"
                    else js "completed" in
      (Manager (<[s := killed]> (activeSessions m)) (userSessions m),
       Some (PendingEnd s session reason status),
       [ClearTimeout (timer session); KillProcess s]
       ++ (if socket_open (socket session)
           then [SocketSendSessionEnd (socket session) s reason] else [])
       ++ [UpdateSessionStatus s status reason])
  end.

(** [endSession], after the awaited update: removal from both maps. *)
Definition endSession_finish (p : pending_end) (m : t) : t :=
  let active := delete (e_sessionId p) (activeSessions m) in
  let u := userId (e_session p) in
  match userSessions m !! u with
  | Some sessions =>
      let sessions' := sessions ∖ {[e_sessionId p]} in
      if Nat.eqb (size sessions') 0
      then Manager active (delete u (userSessions m))
      else Manager active (<[u := sessions']> (userSessions m))
  | None => Manager active (userSessions m)
  end.

(** [endSession] run without interruption; [db_ok] tells whether the
    awaited update succeeds.  The result is the value returned:
    [None] for [undefined], else [{ sessionId, reason, status }]. *)
Definition endSession (socket_open : nat -> bool) (s reason : jsstring) (db_ok : bool)
  (m : t) : result (t * option (jsstring * jsstring * jsstring) * list effect) :=
  match endSession_begin socket_open s reason m with
  | (m', None, eff) => Ok (m', None, eff)
  | (m', Some p, eff) =>
      if db_ok then Ok (endSession_finish p m', Some (s, reason, e_status p), eff)
      else Throw DbError
  end.

(** *** Overlapping calls

    An [async] function runs without interruption up to an [await] and is
    resumed later; other calls run in between.  [step] is one such
    uninterrupted piece. *)
Inductive suspended :=
| AwaitCreate (a : start_args)
| AwaitUpdate (p : pending_end).

Inductive outcome :=
| Started (session : session_row)
| Ended (ret : option (jsstring * jsstring * jsstring))
| Failed (e : exn).

(** What the database answers to an awaited query. *)
Inductive db_reply :=
| Rejected                                   (* the query fails *)
| Created (session : session_row) (tm : nat) (* createSession; [tm]: the timer armed next *)
| Updated.                                   (* updateSessionStatus *)

Inductive piece :=
| CallStart (a : start_args)
| CallEnd (s reason : jsstring)
| Resume (call : nat) (reply : db_reply).

Record loop := Loop {
  mgr : t;
  calls : list (option suspended);    (* per call: what it awaits, if anything *)
  outcomes : list (nat * outcome)
}.

Definition step (max : option Z) (socket_open : nat -> bool) (p : piece) (l : loop) : loop :=
  match p with
  | CallStart a =>
      match startSession_check max (mgr l) a with
      | Ok _ => Loop (mgr l) (calls l ++ [Some (AwaitCreate a)]) (outcomes l)
      | Throw e => Loop (mgr l) (calls l ++ [None])
                        (outcomes l ++ [(length (calls l), Failed e)])
      end
  | CallEnd s reason =>
      match endSession_begin socket_open s reason (mgr l) with
      | (m', Some pe, _) => Loop m' (calls l ++ [Some (AwaitUpdate pe)]) (outcomes l)
      | (m', None, _) => Loop m' (calls l ++ [None])
                              (outcomes l ++ [(length (calls l), Ended None)])
      end
  | Resume k reply =>
      match calls l !! k, reply with
      | Some (Some (AwaitCreate a)), Created session tm =>
          Loop (startSession_register a session tm (mgr l)).1.1
               (<[k := None]> (calls l))
               (outcomes l ++ [(k, Started session)])
      | Some (Some (AwaitUpdate pe)), Updated =>
          Loop (endSession_finish pe (mgr l)) (<[k := None]> (calls l))
               (outcomes l
                ++ [(k, Ended (Some (e_sessionId pe, e_reason pe, e_status pe)))])
      | Some (Some _), Rejected =>
          Loop (mgr l) (<[k := None]> (calls l)) (outcomes l ++ [(k, Failed DbError)])
      | _, _ => l
      end
  end.

Definition run (max : option Z) (socket_open : nat -> bool) (ps : list piece) (l : loop)
  : loop := foldl (fun l p => step max socket_open p l) l ps.

End SessionManager.

(* ===================================================================== *)
(** ** websocket-handler.js: handleUserMessage and the listeners           *)
(* ===================================================================== *)

Module Router.

(** An inbound intent as parsed from JSON; an absent field reads
    [undefined]. *)
Record intent := Intent {
  i_content : prim;
  i_session_id : prim;
  i_model : prim;
  i_project_ref : prim
}.

(** The text of an error notification. *)
Inductive error_text :=
| EmptyMessageContent            (* 'Empty message content' *)
| MessageOf (e : exn)            (* error.message *)
| FailedToSend (e : exn).        (* `Failed to send to Claude: ${error.message}` *)

(** What [socket.send(JSON.stringify(...))] is called with. *)
Inductive wire :=
| WError (message : error_text) (session_id : option jsstring)
| WSessionStarted (session_id : jsstring) (model : option jsstring)
                  (working_directory timestamp : jsstring)
| WMessageReceived (session_id timestamp : jsstring)
| WNotification (n : ProcessSpawner.notification).

(** A call of [insertMessage]. *)
Inductive db_call :=
| InsertUser (session_id content : jsstring)
| InsertAssistant (session_id : jsstring) (v : MessageAggregator.view).

Record settings := Settings {
  preferred_model : option jsstring;
  working_directory : jsstring
}.

(** What the handler reads from outside: the environment, the clock, and
    the outcomes of the awaited database calls. *)
Record env := Env {
  max_sessions : option Z;             (* MAX_SESSIONS_PER_USER *)
  api_key : option jsstring;           (* ANTHROPIC_API_KEY *)
  project_ref : option jsstring;       (* PROJECT_REF *)
  now : nat -> jsstring;
  created : option SessionManager.session_row;   (* createSession *)
  new_timer : nat;
  insert_ok : bool                     (* insertMessage *)
}.

(** The state a connection's handlers act on. *)
Record world := World {
  manager : SessionManager.t;
  sent : list wire;                              (* on this socket, in order *)
  db : list db_call;
  currentSessionId : option jsstring;            (* the bound session *)
  messageAggregator : option (heap * MessageAggregator.t);
  listeners : gmap (list N) (heap * MessageAggregator.t);
                       (* per supervisor: the aggregator of its listeners *)
  effects : list SessionManager.effect
}.

Definition send (w : world) (m : wire) : world :=
  World (manager w) (sent w ++ [m]) (db w) (currentSessionId w)
        (messageAggregator w) (listeners w) (effects w).

Definition string_of (p : prim) : option jsstring :=
  match p with
  | PStr s => if str_eqb s [] then None else Some s
  | _ => None
  end.

(** [a || b] on an optional string and a field. *)
Definition or_else (a : option jsstring) (b : option jsstring) : option jsstring :=
  match a with
  | Some s => if str_eqb s [] then b else Some s
  | None => b
  end.

(** A fresh aggregator on its own heap. *)
Definition fresh_aggregator : option (heap * MessageAggregator.t) :=
  match MessageAggregator.new [] with
  | Ok (a, h) => Some (h, a)
  | Throw _ => None
  end.

(** [spawner.write(content)] on the supervisor registered for [sid]. *)
Definition write_to (sid content : jsstring) (w : world) : result world :=
  match SessionManager.activeSessions (manager w) !! sid with
  | Some session =>
      match ProcessSpawner.write content (SessionManager.process session) with
      | Ok sp' =>
          Ok (World (SessionManager.Manager
                       (<[sid := SessionManager.set_process session sp']>
                          (SessionManager.activeSessions (manager w)))
                       (SessionManager.userSessions (manager w)))
                    (sent w) (db w) (currentSessionId w) (messageAggregator w)
                    (listeners w) (effects w))
      | Throw e => Throw e
      end
  | None => Throw ProcessNotRunning
  end.

(** The part of [handleUserMessage] after the session is settled:
    the message is stored, acknowledged and written to the process. *)
Definition deliver (e : env) (sessionId content : jsstring) (w : world) : result world :=
  if insert_ok e then
    let w1 := World (manager w) (sent w) (db w ++ [InsertUser sessionId content])
                    (currentSessionId w) (messageAggregator w) (listeners w)
                    (effects w) in
    let w2 := send w1 (WMessageReceived sessionId (now e 1%nat)) in
    match write_to sessionId content w2 with
    | Ok w3 => Ok w3
    | Throw err => Ok (send w2 (WError (FailedToSend err) (Some sessionId)))
    end
  else Throw DbError.

(** The [try] block of [handleUserMessage] that creates a session:
    either the session is there and the handler goes on, or the [catch]
    clause has reported the error and the handler returns. *)
Inductive settled :=
| Settled (sessionId : jsstring) (w : world)
| Reported (w : world).

Definition open_session (e : env) (message : intent) (socket : nat)
  (userId : jsstring) (st : settings) (projectRef : option jsstring) (w : world)
  : settled :=
  match SessionManager.startSession (max_sessions e)
          (SessionManager.StartArgs userId projectRef
             (or_else (string_of (i_model message)) (preferred_model st))
             (working_directory st) socket)
          (created e) (new_timer e) (manager w) with
  | Throw err => Reported (send w (WError (MessageOf err) None))
  | Ok (m', (session, spawner), eff) =>
      let sid := SessionManager.id session in
      (* setSessionId(sessionId) *)
      let w1 := World m' (sent w) (db w) (Some sid) fresh_aggregator
                      (listeners w) (effects w ++ eff) in
      let w2 := send w1 (WSessionStarted sid (SessionManager.row_model session)
                           (SessionManager.row_working_directory session)
                           (now e 0%nat)) in
      (* spawner.start(): nothing listens yet, what it emits is lost *)
      match ProcessSpawner.start (api_key e) (now e) spawner with
      | Throw err => Reported (send w2 (WError (MessageOf err) None))
      | Ok (_, spawner', _) =>
          let m2 := SessionManager.Manager
                      (alter (fun i => SessionManager.set_process i spawner') sid
                         (SessionManager.activeSessions (manager w2)))
                      (SessionManager.userSessions (manager w2)) in
          (* setupSpawnerListeners(spawner, socket, sessionId) *)
          Settled sid
            (World m2 (sent w2) (db w2) (currentSessionId w2) (messageAggregator w2)
                   (match fresh_aggregator with
                    | Some ag => <[sid := ag]> (listeners w2)
                    | None => listeners w2
                    end)
                   (effects w2))
      end
  end.

(** [!content || !content.trim()]: [Ok None] when the guard holds,
    [Ok (Some c)] for a string with visible text. *)
Definition checked_content (content : prim) : result (option jsstring) :=
  if truthy content then
    match content with
    | PStr c => Ok (if str_eqb (trim c) [] then None else Some c)
    | _ => Throw TypeError          (* content.trim is not a function *)
    end
  else Ok None.

(** [handleUserMessage(message, socket, user, sessionManager, settings,
    currentSessionId, setSessionId)], run without interruption, for the
    connection of owner [userId] on transport [socket]. *)
Definition handleUserMessage (e : env) (message : intent) (socket : nat)
  (userId : jsstring) (st : settings) (w : world) : result world :=
  match checked_content (i_content message) with
  | Throw err => Throw err
  | Ok None => Ok (send w (WError EmptyMessageContent None))
  | Ok (Some c) =>
      let projectRef := or_else (string_of (i_project_ref message)) (project_ref e) in
      let sessionId := or_else (currentSessionId w) (string_of (i_session_id message)) in
      match (match sessionId with
             | Some sid0 =>
                 if SessionManager.hasSession (manager w) sid0 then Some sid0 else None
             | None => None
             end) with
      | None =>
          match open_session e message socket userId st projectRef w with
          | Reported w' => Ok w'
          | Settled sid w' => deliver e sid c w'
          end
      | Some sid0 =>
          let '(m', eff) := SessionManager.resetTimeout sid0 (new_timer e) (manager w) in
          deliver e sid0 c
            (World m' (sent w) (db w) (currentSessionId w) (messageAggregator w)
                   (listeners w) (effects w ++ eff))
      end
  end.

(** The listeners [setupSpawnerListeners] subscribes, for the supervisor
    of session [sid]. *)
Definition with_listener (w : world) (sid : jsstring) (ag : heap * MessageAggregator.t)
  : world :=
  World (manager w) (sent w) (db w) (currentSessionId w) (messageAggregator w)
        (<[sid := ag]> (listeners w)) (effects w).

Definition on_notification (sid : jsstring) (en : ProcessSpawner.emitted) (w : world)
  : world :=
  match listeners w !! sid with
  | None => w
  | Some (h, a) =>
      let w1 := send w (WNotification en.2) in
      match en.2 with
      | ProcessSpawner.Output ev _ _ =>
          if String.eqb en.1 "output" then
            match MessageAggregator.addEvent ev a h with
            | Ok (a', h') => with_listener w1 sid (h', a')
            | Throw _ => w1
            end
          else w
      | ProcessSpawner.ErrorOutput text _ _ =>
          if String.eqb en.1 "error_output" then
            match MessageAggregator.addEvent
                    (Event (js "error")
                       (Some (fields [("message", PStr text);
                                      ("source", PStr (js "stderr"))]))) a h with
            | Ok (a', h') => with_listener w1 sid (h', a')
            | Throw _ => w1
            end
          else w
      | ProcessSpawner.SessionEnd _ _ _ _ _ =>
          if String.eqb en.1 "exit" then
            match MessageAggregator.finalize a h with
            | Ok ((msg, a'), h') =>
                let v := MessageAggregator.read h' msg in
                let w2 := with_listener w1 sid (h', a') in
                if negb (str_eqb (MessageAggregator.v_content v) [])
                   || match MessageAggregator.v_tool_calls v with
                      | JArr (_ :: _) => true
                      | _ => false
                      end
                then World (manager w2) (sent w2) (db w2 ++ [InsertAssistant sid v])
                           (currentSessionId w2) (messageAggregator w2) (listeners w2)
                           (effects w2)
                else w2
            | Throw _ => w1
            end
          else w
      | _ => if String.eqb en.1 "process_error" then w1 else w
      end
  end.

End Router.

(** The five lines of the scenario, with the real prompt and check glyphs
    U+203A and U+2713, newline-terminated, as one chunk. *)
Definition scenario_chunk : jsstring :=
  (0x203A :: js " ls -la") ++ [0x0A] ++ (0x2713 :: js " done") ++ [0x0A]
  ++ js "Hello world" ++ [0x0A] ++ js "+added" ++ [0x0A] ++ js "-removed" ++ [0x0A].

(** The same lines as the source's patterns spell the two markers. *)
Definition scenario_chunk_as_stored : jsstring :=
  (OutputParser.prompt_marker ++ js " ls -la") ++ [0x0A]
  ++ ([0xE2; 0x153; 0x201C] ++ js " done") ++ [0x0A]
  ++ js "Hello world" ++ [0x0A] ++ js "+added" ++ [0x0A] ++ js "-removed" ++ [0x0A].


(** Two stdout chunks that cut the line "Hello" in the middle. *)
Definition hello_chunks : list jsstring := [js "Hel"; js "lo" ++ [0x0A]].

(** A supervisor that has just been started. *)
Definition running_supervisor (sid : jsstring) : ProcessSpawner.t :=
  ProcessSpawner.Spawner sid None (js "/home/ubuntu/workspace")
    (Some (ProcessSpawner.Child [js "--dangerously-skip-permissions"]
             (js "/home/ubuntu/workspace") [] []))
    (OutputParser.new sid) true [].

(** An owner at a maximum of one session: a first session is started, a
    second start is refused, the first session is ended; then two calls of
    [startSession] are made, the second while the first awaits the
    database, and both queries return. *)
Definition owner_args : SessionManager.start_args :=
  SessionManager.StartArgs (js "u1") None None (js "/w") 0.

Definition row (sid : string) : SessionManager.session_row :=
  SessionManager.Row (js sid) None (js "/w").

Definition overlapping_starts : list SessionManager.piece :=
  [ SessionManager.CallStart owner_args;                          (* call 0 *)
    SessionManager.Resume 0 (SessionManager.Created (row "s0") 1);
    SessionManager.CallStart owner_args;                          (* call 1: refused *)
    SessionManager.CallEnd (js "s0") (js "user_ended");           (* call 2 *)
    SessionManager.Resume 2 SessionManager.Updated;
    SessionManager.CallStart owner_args;                          (* call 3 *)
    SessionManager.CallStart owner_args;                          (* call 4 *)
    SessionManager.Resume 3 (SessionManager.Created (row "s1") 2);
    SessionManager.Resume 4 (SessionManager.Created (row "s2") 3) ].

(** A short exchange: a line of text, a tool call and its result, a second
    result with no call before it, an edited file with one added line. *)
Definition demo_events : list event :=
  [ OutputParser.ev "text" [("content", PStr (js "  Hello world"))];
    OutputParser.ev "tool_call" [("tool_name", PStr (js "Read"));
                                 ("parameters", PStr (js "a.txt"));
                                 ("status", PStr (js "started"))];
    OutputParser.ev "tool_result" [("result", PStr (js "done")); ("success", PBool true)];
    OutputParser.ev "file_edit" [("file_path", PStr (js "a.txt")); ("action", PStr (js "edit"))];
    OutputParser.ev "diff_add" [("content", PStr (js "x"))] ].

Definition stray_result : event :=
  OutputParser.ev "tool_result" [("result", PStr (js "late")); ("success", PBool false)].

(** The usage event of a token line. *)
Definition usage_line : jsstring := js "Total tokens: 1,234".
Definition usage_event : event := OutputParser.ev "usage" [("raw", PStr usage_line)].

(** The lines the suppression rule speaks of: blank ([!line.trim()]),
    drawn from the rule pattern's class, drawn from [-=]. *)
Definition is_blank (line : jsstring) : bool := str_eqb (trim line) [].

Definition is_rule_line (line : jsstring) : bool :=
  negb (str_eqb line [])
  && forallb (OutputParser.in_class OutputParser.rule_class) line.

Definition is_dash_run (line : jsstring) : bool :=
  negb (str_eqb line []) && forallb (OutputParser.in_class (js "-=")) line.

(** The literals an earlier rule may open with. *)
Definition opening_literals : list jsstring :=
  OutputParser.tool_call_markers ++ OutputParser.success_markers
  ++ (OutputParser.failure_markers ++ [js "Error:"])
  ++ [js "Editing"; js "Writing"; js "Reading"]
  ++ [js "+"]
  ++ [js "$"; OutputParser.prompt_marker; js ">"]
  ++ (js "Thinking" :: OutputParser.thought_markers).

(** A connection on which nothing has happened yet, and an environment in
    which the credential is set and the database answers. *)
Definition empty_world : Router.world :=
  Router.World SessionManager.new [] [] None None ∅ [].

Definition demo_env : Router.env :=
  Router.Env (Some 3%Z) (Some (js "k")) None (fun _ => js "t")
             (Some (row "s1")) 1 true.

Definition demo_settings : Router.settings := Router.Settings None (js "/w").

Definition intent_with (content : prim) : Router.intent :=
  Router.Intent content PUndef PUndef PUndef.

(** The content field is absent, empty, or white space only. *)
Definition content_missing (p : prim) : bool :=
  match p with
  | PUndef => true
  | PStr s => is_blank s
  | _ => false
  end.

(** [t] is [s] with the white space around it stripped: [s] is [t]
    between two runs of white space, and [t] neither opens nor ends with
    white space. *)
Definition is_trim_of (s t : jsstring) : Prop :=
  exists pre post,
    s = pre ++ t ++ post
    /\ Forall (fun c => is_space c = true) pre
    /\ Forall (fun c => is_space c = true) post
    /\ (forall c, head t = Some c -> is_space c = false)
    /\ (forall c, last t = Some c -> is_space c = false).

(** The number of newlines of a string: the number of lines it completes. *)
Definition count_nl (s : jsstring) : nat := length (filter (fun c => c = 0x0A) s).

(** The event types the Translator produces. *)
Definition parser_types : list jsstring :=
  [js "tool_call"; js "tool_result"; js "file_edit"; js "diff_add"; js "diff_remove";
   js "bash_command"; js "thinking"; js "usage"; js "text"].

(** What the aggregator accumulates, read off the events: the text lines
    (each with the newline [addEvent] appends), whether a file record has
    been opened, the number of tool calls. *)
Definition text_line (e : event) : jsstring :=
  if str_eqb (event_type e) (js "text") then
    match data e with
    | Some d => ToString (prop d "content") ++ [0x0A]
    | None => []
    end
  else [].

Definition text_of (es : list event) : jsstring := concat (map text_line es).

Definition is_file_edit (e : event) : bool := str_eqb (event_type e) (js "file_edit").
Definition is_tool_call (e : event) : bool := str_eqb (event_type e) (js "tool_call").

Definition has_open_file (a : MessageAggregator.t) : bool :=
  match MessageAggregator.currentFile a with Some _ => true | None => false end.

(** [arr.length] of the array at a location. *)
Definition arr_len (h : heap) (l : loc) : nat :=
  match h !! l with Some (Arr items) => length items | _ => 0%nat end.

(** The layout the aggregator keeps on the heap: its five lists are
    distinct arrays, [currentTool] is a record, [currentFile] a record
    whose [additions] and [removals] are arrays of their own. *)
Definition is_arr (h : heap) (l : loc) : Prop := exists items, h !! l = Some (Arr items).

Definition is_file_record (h : heap) (m : MessageAggregator.message) (l : loc) : Prop :=
  exists f ad rm,
    h !! l = Some (Obj f)
    /\ f !! "additions" = Some (VRef ad) /\ f !! "removals" = Some (VRef rm)
    /\ is_arr h ad /\ is_arr h rm
    /\ (ad ∉ MessageAggregator.lists m) /\ (rm ∉ MessageAggregator.lists m).

Definition shape (h : heap) (a : MessageAggregator.t) : Prop :=
  Forall (is_arr h) (MessageAggregator.lists (MessageAggregator.currentMessage a))
  /\ NoDup (MessageAggregator.lists (MessageAggregator.currentMessage a))
  /\ (forall l, MessageAggregator.currentTool a = Some l -> exists f, h !! l = Some (Obj f))
  /\ (forall l, MessageAggregator.currentFile a = Some l ->
                is_file_record h (MessageAggregator.currentMessage a) l).

(** A later heap in which every array is still an array and every record
    still a record with the same [additions] and [removals]. *)
Definition keeps (h h' : heap) : Prop :=
  forall l,
    (forall items, h !! l = Some (Arr items) -> is_arr h' l)
    /\ (forall f, h !! l = Some (Obj f) ->
          exists f', h' !! l = Some (Obj f')
                     /\ f' !! "additions" = f !! "additions"
                     /\ f' !! "removals" = f !! "removals").

(* ===================================================================== *)
(** ** db.js and the schema: what the registry's status update meets       *)
(* ===================================================================== *)

Module Db.

(** The values the schema admits in [sessions.status]:
    CHECK (status IN ('active', 'completed', 'aborted', 'error')). *)
Definition session_statuses : list jsstring :=
  [js "active"; js "completed"; js "aborted"; js "error"].

(** [updateSessionStatus]: whether the query chosen sets [ended_at], that
    is, ['completed', 'aborted', 'error'].includes(status). *)
Definition sets_ended_at (status : jsstring) : bool :=
  existsb (str_eqb status) [js "completed"; js "aborted"; js "error"].

End Db.

(* ===================================================================== *)
(** ** session-manager.js: handleSocketDisconnect and cleanup              *)
(* ===================================================================== *)

Module SessionSweep.
Import SessionManager.

(** A loop of [await this.endSession(sessionId, reason)] over a list of
    ids, each call run without interruption; [db_ok] tells for which
    sessions the awaited update succeeds.  A rejected update ends the
    loop: the error propagates out of the [for] statement.  The result is
    the registry, the effects so far and the error, if any. *)
Fixpoint endSessions (socket_open : nat -> bool) (reason : jsstring)
  (db_ok : jsstring -> bool) (ids : list jsstring) (m : t)
  : t * list effect * option exn :=
  match ids with
  | [] => (m, [], None)
  | s :: ids' =>
      match endSession_begin socket_open s reason m with
      | (m1, None, eff) =>
          let '(m2, eff', r) := endSessions socket_open reason db_ok ids' m1 in
          (m2, eff ++ eff', r)
      | (m1, Some p, eff) =>
          if db_ok s then
            let '(m2, eff', r) :=
              endSessions socket_open reason db_ok ids' (endSession_finish p m1) in
            (m2, eff ++ eff', r)
          else (m1, eff, Some DbError)
      end
  end.

(** The ids [handleSocketDisconnect(socket)] collects: those of the
    entries of [activeSessions] on that socket, in the iteration order
    [order] of the Map. *)
Definition sessionsToEnd (order : list jsstring) (sock : nat) (m : t) : list jsstring :=
  List.filter (fun s => match activeSessions m !! s with
                        | Some i => Nat.eqb (socket i) sock
                        | None => false
                        end) order.

(** [handleSocketDisconnect(socket)] *)
Definition handleSocketDisconnect (order : list jsstring) (socket_open : nat -> bool)
  (db_ok : jsstring -> bool) (sock : nat) (m : t) : t * list effect * option exn :=
  endSessions socket_open (js "disconnect") db_ok (sessionsToEnd order sock m) m.

(** [cleanup()]; [order] is [Array.from(this.activeSessions.keys())]. *)
Definition cleanup (order : list jsstring) (socket_open : nat -> bool)
  (db_ok : jsstring -> bool) (m : t) : t * list effect * option exn :=
  endSessions socket_open (js "shutdown") db_ok order m.

End SessionSweep.

(** Calls of the registry made one after the other: each is resumed
    with the database's reply before the next is made. *)
Inductive call :=
| Start (a : SessionManager.start_args) (reply : SessionManager.db_reply)
| End_ (s reason : jsstring) (reply : SessionManager.db_reply).

Definition run_call (max : option Z) (socket_open : nat -> bool) (c : call)
  (l : SessionManager.loop) : SessionManager.loop :=
  match c with
  | Start a reply =>
      SessionManager.step max socket_open
        (SessionManager.Resume (length (SessionManager.calls l)) reply)
        (SessionManager.step max socket_open (SessionManager.CallStart a) l)
  | End_ s reason reply =>
      SessionManager.step max socket_open
        (SessionManager.Resume (length (SessionManager.calls l)) reply)
        (SessionManager.step max socket_open (SessionManager.CallEnd s reason) l)
  end.

Definition run_calls (max : option Z) (socket_open : nat -> bool) (cs : list call)
  (l : SessionManager.loop) : SessionManager.loop :=
  foldl (fun l c => run_call max socket_open c l) l cs.

(** The two maps of the registry agree: an id is in an owner's set exactly
    when it is registered with that owner, and no empty set is kept. *)
Definition consistent (m : SessionManager.t) : Prop :=
  (forall u s, s ∈ SessionManager.sessions_of m u
               <-> exists i, SessionManager.activeSessions m !! s = Some i
                             /\ SessionManager.userId i = u)
  /\ (forall u ss, SessionManager.userSessions m !! u = Some ss -> ss <> ∅).

(** A suspended [endSession] holds the owner its session is registered
    with. *)
Definition pending_ok (m : SessionManager.t) (c : option SessionManager.suspended) : Prop :=
  match c with
  | Some (SessionManager.AwaitUpdate p) =>
      forall i, SessionManager.activeSessions m !! SessionManager.e_sessionId p = Some i ->
                SessionManager.userId i = SessionManager.userId (SessionManager.e_session p)
  | _ => True
  end.

(** The ids the database hands out are new: not registered, and not the
    id of a session whose end is under way. *)
Definition id_unused (l : SessionManager.loop) (s : jsstring) : bool :=
  match SessionManager.activeSessions (SessionManager.mgr l) !! s with
  | Some _ => false
  | None =>
      forallb (fun c => match c with
                        | Some (SessionManager.AwaitUpdate p) =>
                            negb (str_eqb (SessionManager.e_sessionId p) s)
                        | _ => true
                        end) (SessionManager.calls l)
  end.

Fixpoint fresh_ids (max : option Z) (socket_open : nat -> bool)
  (ps : list SessionManager.piece) (l : SessionManager.loop) : bool :=
  match ps with
  | [] => true
  | p :: ps' =>
      match p with
      | SessionManager.Resume _ (SessionManager.Created session _) =>
          id_unused l (SessionManager.id session)
      | _ => true
      end
      && fresh_ids max socket_open ps' (SessionManager.step max socket_open p l)
  end.

Definition loop_ok (l : SessionManager.loop) : Prop :=
  consistent (SessionManager.mgr l)
  /\ Forall (pending_ok (SessionManager.mgr l)) (SessionManager.calls l).

(** The registered session a message intent is routed to, if any:
    [currentSessionId || message.session_id] when the registry has it. *)
Definition bound_session (w : Router.world) (message : Router.intent) : option jsstring :=
  match Router.or_else (Router.currentSessionId w)
          (Router.string_of (Router.i_session_id message)) with
  | Some sid0 =>
      if SessionManager.hasSession (Router.manager w) sid0 then Some sid0 else None
  | None => None
  end.

(** What the child of a registered session has been written and sent. *)
Definition child_of (w : Router.world) (sid : jsstring) : option ProcessSpawner.child :=
  SessionManager.activeSessions (Router.manager w) !! sid
    ≫= fun i => ProcessSpawner.process (SessionManager.process i).

(* ===================================================================== *)
(** ** websocket-handler.js: handleAbort, the message switch and the       *)
(**    heartbeat of handleWebSocket                                        *)
(* ===================================================================== *)

Module Connection.
Import Router.

(** [message.session_id || currentSessionId], as a key of the registry.
    A truthy [session_id] that is not a string is a key under which
    nothing is registered: the lookup that follows finds nothing, as for
    [None]. *)
Definition abort_target (message : intent) (cur : option jsstring) : option jsstring :=
  match i_session_id message with
  | PStr s => if str_eqb s [] then or_else cur None else Some s
  | PBool true => None
  | _ => or_else cur None
  end.

(** [handleAbort(message, sessionManager, currentSessionId)] *)
Definition handleAbort (message : intent) (w : world) : world :=
  match abort_target message (currentSessionId w) with
  | None => w
  | Some sid =>
      match SessionManager.activeSessions (manager w) !! sid with
      | Some session =>
          World (SessionManager.Manager
                   (<[sid := SessionManager.set_process session
                               (ProcessSpawner.abort (SessionManager.process session))]>
                      (SessionManager.activeSessions (manager w)))
                   (SessionManager.userSessions (manager w)))
                (sent w) (db w) (currentSessionId w) (messageAggregator w)
                (listeners w) (effects w)
      | None => w
      end
  end.

(** What the message switch itself sends. *)
Inductive reply :=
| InvalidJSON                        (* { type: 'error', message: 'Invalid JSON' } *)
| Pong                               (* { type: 'pong' } *)
| SessionCleared (timestamp : jsstring)
| UnknownType (type : prim).         (* `Unknown message type: ${message.type}` *)

(** What [JSON.parse(data.toString())] gives: an exception, [null], or a
    value whose [type] and other fields are read. *)
Inductive frame :=
| Malformed
| Null
| Parsed (type : prim) (message : intent).

Record t := Conn {
  world : Router.world;
  replies : list reply
}.

Definition set_world (c : t) (w : Router.world) : t := Conn w (replies c).
Definition reply_with (c : t) (r : reply) : t := Conn (world c) (replies c ++ [r]).

(** [await sessionManager.endSession(currentSessionId, reason)] *)
Definition end_bound (socket_open : nat -> bool) (sid reason : jsstring) (db_ok : bool)
  (w : Router.world) : result Router.world :=
  match SessionManager.endSession socket_open sid reason db_ok (manager w) with
  | Ok (m', _, eff) =>
      Ok (World m' (sent w) (db w) (currentSessionId w) (messageAggregator w)
                (listeners w) (effects w ++ eff))
  | Throw err => Throw err
  end.

Definition rebind (w : Router.world) (cur : option jsstring)
  (ag : option (heap * MessageAggregator.t)) : Router.world :=
  World (manager w) (sent w) (db w) cur ag (listeners w) (effects w).

(** The handler of ['message'] on the socket, run without interruption:
    [db_ok] tells whether the status update of [endSession] succeeds, [ts]
    is the reading of the clock. *)
Definition on_message (e : env) (socket : nat) (userId : jsstring) (st : settings)
  (socket_open : nat -> bool) (db_ok : bool) (ts : jsstring) (f : frame) (c : t)
  : result t :=
  match f with
  | Malformed => Ok (reply_with c InvalidJSON)
  | Null => Throw TypeError
  | Parsed ty message =>
      let is_type t := match ty with PStr s => str_eqb s (js t) | _ => false end in
      if is_type "message" then
        match handleUserMessage e message socket userId st (world c) with
        | Ok w' => Ok (set_world c w')
        | Throw err => Throw err
        end
      else if is_type "abort" then Ok (set_world c (handleAbort message (world c)))
      else if is_type "ping" then Ok (reply_with c Pong)
      else if is_type "end_session" then
        match or_else (currentSessionId (world c)) None with
        | Some sid =>
            match end_bound socket_open sid (js "user_ended") db_ok (world c) with
            | Ok w' => Ok (set_world c (rebind w' None (messageAggregator w')))
            | Throw err => Throw err
            end
        | None => Ok c
        end
      else if is_type "new_session" then
        match (match or_else (currentSessionId (world c)) None with
               | Some sid => end_bound socket_open sid (js "new_session") db_ok (world c)
               | None => Ok (world c)
               end) with
        | Ok w' => Ok (reply_with (set_world c (rebind w' None None)) (SessionCleared ts))
        | Throw err => Throw err
        end
      else Ok (reply_with c (UnknownType ty))
  end.

(** The heartbeat: the interval callback and the ['pong'] handler. *)
Inductive beat := Tick | PongReceived.

Record heart := Heart {
  isAlive : bool;
  pings : nat;               (* socket.ping() calls *)
  closed : bool              (* socket.close(4003, 'Connection timeout') was called *)
}.

Definition on_beat (h : heart) (b : beat) : heart :=
  match b with
  | PongReceived => Heart true (pings h) (closed h)
  | Tick =>
      if isAlive h then Heart false (S (pings h)) (closed h)
      else Heart false (pings h) true
  end.

Definition beats (bs : list beat) : heart := foldl on_beat (Heart true 0 false) bs.

End Connection.

(** Two ticks of the heartbeat with no pong between them. *)
Fixpoint missed_pong (bs : list Connection.beat) : bool :=
  match bs with
  | Connection.Tick :: ((Connection.Tick :: _) as bs') => true
  | _ :: bs' => missed_pong bs'
  | [] => false
  end.

(* ===================================================================== *)
(** ** logger.js                                                           *)
(* ===================================================================== *)

Module Logger.

Inductive level := DEBUG | INFO | WARN | ERROR.

(** [LOG_LEVELS] *)
Definition LOG_LEVELS (l : level) : Z :=
  match l with DEBUG => 0 | INFO => 1 | WARN => 2 | ERROR => 3 end.

(** [LOG_LEVELS[name]], [name] being [process.env.LOG_LEVEL?.toUpperCase()]:
    [None] when the variable is unset, else its value in upper case, which
    names none of the properties an object inherits. *)
Definition level_named (name : option jsstring) : option Z :=
  match name with
  | None => None
  | Some s =>
      if str_eqb s (js "DEBUG") then Some (LOG_LEVELS DEBUG)
      else if str_eqb s (js "INFO") then Some (LOG_LEVELS INFO)
      else if str_eqb s (js "WARN") then Some (LOG_LEVELS WARN)
      else if str_eqb s (js "ERROR") then Some (LOG_LEVELS ERROR)
      else None
  end.

(** [currentLevel = LOG_LEVELS[name] || LOG_LEVELS.INFO]: [undefined] and
    [0] are falsy. *)
Definition currentLevel (name : option jsstring) : Z :=
  match level_named name with
  | Some v => if (v =? 0)%Z then LOG_LEVELS INFO else v
  | None => LOG_LEVELS INFO
  end.

(** Whether [logger.debug], [.info], [.warn], [.error] print:
    [currentLevel <= LOG_LEVELS.X]. *)
Definition prints (name : option jsstring) (l : level) : bool :=
  (currentLevel name <=? LOG_LEVELS l)%Z.

End Logger.

(** Worlds and registries for the examples: one session of owner u1,
    running; the same seen from a connection of its own with the session
    bound; two sessions on two sockets. *)
Definition one_session : SessionManager.t :=
  SessionManager.Manager
    {[ js "s1" := SessionManager.Info (running_supervisor (js "s1")) 0 (js "u1") 1 None None ]}
    {[ js "u1" := {[ js "s1" ]} ]}.

Definition other_connection : Router.world :=
  Router.World one_session [] [] None None ∅ [].

Definition own_connection : Router.world :=
  Router.World one_session [] [] (Some (js "s1")) None ∅ [].

Definition naming (content sid : string) : Router.intent :=
  Router.Intent (PStr (js content)) (PStr (js sid)) PUndef PUndef.

Definition second_args : SessionManager.start_args :=
  SessionManager.StartArgs (js "u2") None None (js "/w") 1.

Definition two_sessions : SessionManager.t :=
  (SessionManager.startSession_register second_args (row "s1") 2
     (SessionManager.startSession_register owner_args (row "s0") 1
        SessionManager.new).1.1).1.1.

Definition edit_only : list event :=
  [ OutputParser.ev "file_edit" [("file_path", PStr (js "a.txt")); ("action", PStr (js "edit"))];
    OutputParser.ev "diff_add" [("content", PStr (js "x"))];
    OutputParser.ev "bash_command" [("command", PStr (js "ls")); ("status", PStr (js "started"))] ].

(* ===================================================================== *)
(** * Properties                                                           *)
(* ===================================================================== *)

(** ** Strings *)

Section Strings.

Lemma str_eqb_eq (a b : jsstring) : str_eqb a b = true <-> a = b.
Proof.
  revert b. induction a as [|x a IH]; intros [|y b]; simpl; try (split; congruence).
  rewrite andb_true_iff, N.eqb_eq, IH. split; [intros [-> ->]; reflexivity | intros [= -> ->]; auto].
Qed.

Lemma str_eqb_refl (a : jsstring) : str_eqb a a = true.
Proof. apply str_eqb_eq. reflexivity. Qed.

Lemma split_nl_nonempty (s : jsstring) : split_nl s <> [].
Proof.
  destruct s as [|c s]; simpl; [discriminate|].
  destruct (c =? 10); [discriminate|].
  destruct (split_nl s); discriminate.
Qed.

(** Splitting a concatenation: the segments completed by [a], then the
    segments of [a]'s unfinished tail followed by [b]. *)
Lemma split_nl_app (a b : jsstring) :
  split_nl (a ++ b)
  = removelast (split_nl a) ++ split_nl (List.last (split_nl a) [] ++ b).
Proof.
  induction a as [|c a IH]; [reflexivity|].
  cbn [app split_nl]. destruct (c =? 10) eqn:Hc.
  - rewrite IH. pose proof (split_nl_nonempty a) as Hne.
    destruct (split_nl a) as [|seg segs]; [congruence|]. reflexivity.
  - rewrite IH. pose proof (split_nl_nonempty a) as Hne.
    destruct (split_nl a) as [|seg [|seg' segs]]; [congruence| |].
    + cbn [removelast List.last app split_nl]. rewrite Hc. reflexivity.
    + reflexivity.
Qed.

Lemma removelast_app_ne {A} (l l' : list A) :
  l' <> [] -> removelast (l ++ l') = l ++ removelast l'.
Proof.
  intros Hne. induction l as [|x l IH]; [reflexivity|].
  cbn [app removelast]. rewrite IH.
  destruct (l ++ l') eqn:E; [|reflexivity].
  apply app_eq_nil in E as [_ ?]. congruence.
Qed.

Lemma last_app_ne {A} (l l' : list A) d :
  l' <> [] -> List.last (l ++ l') d = List.last l' d.
Proof.
  intros Hne. induction l as [|x l IH]; [reflexivity|].
  cbn [app List.last]. rewrite IH.
  destruct (l ++ l') eqn:E; [|reflexivity].
  apply app_eq_nil in E as [_ ?]. congruence.
Qed.

(** A string without a newline is its own single segment. *)
Lemma split_nl_no_newline (s : jsstring) :
  Forall (fun c => c <> 10) s -> split_nl s = [s].
Proof.
  induction 1 as [|c s Hc _ IH]; [reflexivity|].
  simpl. apply N.eqb_neq in Hc. rewrite Hc, IH. reflexivity.
Qed.

Lemma split_nl_last_no_newline (s : jsstring) :
  Forall (fun c => c <> 10) (List.last (split_nl s) []).
Proof.
  induction s as [|c s IH]; [constructor|].
  cbn [split_nl]. pose proof (split_nl_nonempty s) as Hne.
  destruct (c =? 10) eqn:Hc.
  - destruct (split_nl s); [congruence|]. exact IH.
  - destruct (split_nl s) as [|seg [|seg' segs]]; [congruence| |].
    + cbn [List.last] in *. constructor; [apply N.eqb_neq, Hc | exact IH].
    + exact IH.
Qed.

End Strings.

(** ** The matcher *)

Section Matcher.

Lemma m_bol_ne n r s caps k :
  length s <> n -> m n (Seq Bol r) s caps k = None.
Proof.
  intros Hne. cbn [m]. destruct (Nat.eqb_spec (length s) n); [contradiction | reflexivity].
Qed.

Lemma m_bol_eq r s caps k :
  m (length s) (Seq Bol r) s caps k = m (length s) r s caps k.
Proof. cbn [m]. rewrite Nat.eqb_refl. reflexivity. Qed.

Lemma search_bol_short n r s :
  (length s < n)%nat -> search n (Seq Bol r) s = None.
Proof.
  induction s as [|c s IH]; intros Hlt.
  - cbn [search]. rewrite m_bol_ne by lia. reflexivity.
  - cbn [search]. rewrite m_bol_ne by lia.
    apply IH. cbn [length] in Hlt. lia.
Qed.

(** An anchored pattern is tried at the start of the line only. *)
Lemma exec_bol r line :
  exec (Seq Bol r) line = m (length line) r line ∅ accept.
Proof.
  unfold exec. destruct line as [|c s].
  - cbn [search]. rewrite m_bol_eq. destruct (m _ r [] ∅ accept); reflexivity.
  - cbn [search]. rewrite m_bol_eq.
    destruct (m (length (c :: s)) r (c :: s) ∅ accept); [reflexivity|].
    apply search_bol_short. cbn [length]. lia.
Qed.

Lemma strip_prefix_Forall (P : N -> Prop) p s s' :
  strip_prefix p s = Some s' -> Forall P s -> Forall P p.
Proof.
  revert s. induction p as [|x p IH]; intros s Hs Hall; [constructor|].
  destruct s as [|y s]; [discriminate|]. cbn in Hs.
  destruct (N.eqb_spec x y) as [->|]; [|discriminate].
  inversion Hall; subst. constructor; eauto.
Qed.

Lemma Forall_forallb_true (P : N -> bool) l :
  Forall (fun c => P c = true) l -> forallb P l = true.
Proof. induction 1 as [|c l Hc _ IH]; [reflexivity|]. cbn. rewrite Hc, IH. reflexivity. Qed.

Lemma forallb_true_Forall (P : N -> bool) l :
  forallb P l = true -> Forall (fun c => P c = true) l.
Proof.
  induction l as [|c l IH]; [constructor|]. cbn.
  intros [? ?]%andb_true_iff. constructor; auto.
Qed.

(** A literal holding a character outside a class is not a prefix of a
    line drawn from the class. *)
Lemma strip_prefix_outside (P : N -> bool) p s :
  forallb P p = false -> Forall (fun c => P c = true) s -> strip_prefix p s = None.
Proof.
  intros Hout Hall. destruct (strip_prefix p s) eqn:E; [|reflexivity].
  apply (strip_prefix_Forall _ _ _ _ E) in Hall.
  rewrite (Forall_forallb_true P p Hall) in Hout. discriminate.
Qed.

Lemma m_alts_lit_none n lits r s caps k :
  lits <> [] ->
  Forall (fun l => strip_prefix l s = None) lits ->
  m n (Seq (alts (map Lit lits)) r) s caps k = None.
Proof.
  intros Hne Hall. induction Hall as [|l lits Hl Hall IH]; [congruence|].
  destruct lits as [|l' lits'].
  - cbn. rewrite Hl. reflexivity.
  - cbn [map alts m] in *. rewrite Hl. apply IH. discriminate.
Qed.

Lemma exec_markers_none lits r line :
  lits <> [] ->
  Forall (fun l => strip_prefix l line = None) lits ->
  exec (Seq Bol (Seq (alts (map Lit lits)) r)) line = None.
Proof. intros. rewrite exec_bol. apply m_alts_lit_none; assumption. Qed.

Lemma star_all p s k :
  Forall (fun c => p c = true) s -> is_Some (k []) -> star p s k = k [].
Proof.
  intros Hall [r Hr]. induction Hall as [|c s Hc _ IH]; [reflexivity|].
  cbn. rewrite Hc, IH, Hr. reflexivity.
Qed.

(** [^[class]+$] accepts the non-empty lines drawn from the class. *)
Lemma exec_class_run p line :
  line <> [] -> Forall (fun c => p c = true) line ->
  is_Some (exec (seqs [Bol; Plus p; Eol]) line).
Proof.
  intros Hne Hall. cbn [seqs]. rewrite exec_bol.
  destruct Hall as [|c s Hc Hall]; [congruence|].
  cbn. rewrite Hc. rewrite star_all; cbn; eauto.
Qed.

Lemma canon_inv c v : canon c = v -> c = v \/ c = v + 0x20.
Proof.
  unfold canon. destruct ((97 <=? c) && (c <=? 122)) eqn:E; [|auto].
  apply andb_true_iff in E as [H1 H2]. apply N.leb_le in H1, H2. lia.
Qed.

Lemma strip_prefix_ci_head x p c s :
  canon x <> canon c -> strip_prefix_ci (x :: p) (c :: s) = None.
Proof. intros H. cbn. apply N.eqb_neq in H. rewrite H. reflexivity. Qed.

(** The token/cost pattern finds nothing in a line without the letters
    t and c in either case. *)
Lemma cost_none n s :
  Forall (fun c => canon c <> 0x54 /\ canon c <> 0x43) s ->
  search n OutputParser.cost_re s = None.
Proof.
  intros Hall. induction Hall as [|c s [Ht Hc] _ IH]; [reflexivity|].
  cbn [search]. rewrite IH.
  unfold OutputParser.cost_re. cbn [seqs alts m].
  change (js "token") with (0x74 :: js "oken").
  change (js "cost") with (0x63 :: js "ost").
  rewrite (strip_prefix_ci_head 0x74)
    by (change (canon 0x74) with 0x54; intros E; apply Ht; symmetry; exact E).
  rewrite (strip_prefix_ci_head 0x63)
    by (change (canon 0x63) with 0x43; intros E; apply Hc; symmetry; exact E).
  reflexivity.
Qed.

End Matcher.

(** ** The Output Translator *)

Section Translator.
Import OutputParser.

Lemma parse_app p a b :
  parse p (a ++ b)
  = (fst (parse p a) ++ fst (parse (snd (parse p a)) b), snd (parse (snd (parse p a)) b)).
Proof.
  unfold parse, pop. cbn [remaining sessionId fst snd].
  rewrite app_assoc, split_nl_app.
  set (r' := List.last (split_nl (remaining p ++ a)) []).
  pose proof (split_nl_nonempty (r' ++ b)) as Hne.
  rewrite removelast_app_ne, last_app_ne by assumption.
  rewrite omap_app. reflexivity.
Qed.

Lemma parse_remaining_no_newline p c :
  Forall (fun x => x <> 10) (remaining (snd (parse p c))).
Proof. unfold parse, pop. cbn. apply split_nl_last_no_newline. Qed.

Lemma parse_nil p :
  Forall (fun x => x <> 10) (remaining p) -> parse p [] = ([], p).
Proof.
  intros H. unfold parse, pop. rewrite app_nil_r, split_nl_no_newline by assumption.
  destruct p; reflexivity.
Qed.

Lemma parse_all_cons p c cs :
  parse_all p (c :: cs)
  = (fst (parse p c) ++ fst (parse_all (snd (parse p c)) cs),
     snd (parse_all (snd (parse p c)) cs)).
Proof.
  cbn [parse_all]. destruct (parse p c) as [es p']. cbn [fst snd].
  destruct (parse_all p' cs) as [es' p'']. reflexivity.
Qed.

(** The patterns at work on lines written the way the source spells the
    markers. *)
Example tool_call_line :
  _parseLine ([0xE2; 0xBA] ++ js " Read  a.txt now")
  = Some (ev "tool_call" [("tool_name", PStr (js "Read"));
                          ("parameters", PStr (js "a.txt now"));
                          ("status", PStr (js "started"))]).
Proof. vm_compute. reflexivity. Qed.

Example tool_call_line_without_parameters :
  _parseLine ([0xE2; 0xBA] ++ js "Read")
  = Some (ev "tool_call" [("tool_name", PStr (js "Read"));
                          ("parameters", PStr []);
                          ("status", PStr (js "started"))]).
Proof. vm_compute. reflexivity. Qed.

Example error_line :
  _parseLine (js "Error: no such file")
  = Some (ev "tool_result" [("result", PStr (js "no such file")); ("success", PBool false)]).
Proof. vm_compute. reflexivity. Qed.

Example file_line :
  _parseLine (js "Writing src/a.js")
  = Some (ev "file_edit" [("file_path", PStr (js "src/a.js")); ("action", PStr (js "write"))]).
Proof. vm_compute. reflexivity. Qed.

(** The path group gives back one space when only spaces follow. *)
Example file_line_spaces_only :
  _parseLine (js "Editing  ")
  = Some (ev "file_edit" [("file_path", PStr (js " ")); ("action", PStr (js "edit"))]).
Proof. vm_compute. reflexivity. Qed.

Example thinking_line :
  _parseLine (js "Thinking... about it")
  = Some (ev "thinking" [("content", PStr (js "about it"))]).
Proof. vm_compute. reflexivity. Qed.

Example usage_line_event :
  _parseLine (js "Total Tokens used: 1,234")
  = Some (ev "usage" [("raw", PStr (js "Total Tokens used: 1,234"))]).
Proof. vm_compute. reflexivity. Qed.

(** A carriage return before the newline stays in the line, where [.]
    does not match it: the line is then plain text. *)
Example prompt_line_with_carriage_return :
  _parseLine (js "$ ls" ++ [0x0D])
  = Some (ev "text" [("content", PStr (js "$ ls" ++ [0x0D]))]).
Proof. vm_compute. reflexivity. Qed.

(** C2. Feeding the chunks of an input one after another to [parse]
    gives, in total and in order, the events (and leaves the parser in
    the state) of one [parse] call on the whole input, wherever the input
    is cut. *)
Theorem parse_chunks_as_whole (p : OutputParser.t) (chunks : list jsstring) :
  Forall (fun c => c <> 0x0A) (remaining p) ->
  parse_all p chunks = parse p (concat chunks).
Proof.
  revert p. induction chunks as [|c cs IH]; intros p Hp.
  - cbn [parse_all concat]. symmetry. apply parse_nil, Hp.
  - rewrite parse_all_cons. cbn [concat]. rewrite parse_app.
    rewrite IH by apply parse_remaining_no_newline. reflexivity.
Qed.

Lemma parse_chunks_as_whole_witness :
  Forall (fun c => c <> 0x0A) (remaining (OutputParser.new (js "s1")))
  /\ parse_all (OutputParser.new (js "s1"))
       [js "$ ls"; js " -la" ++ [0x0A] ++ js "Hello w"; js "orld" ++ [0x0A] ++ js "+ad"]
     = parse (OutputParser.new (js "s1"))
         (concat [js "$ ls"; js " -la" ++ [0x0A] ++ js "Hello w";
                  js "orld" ++ [0x0A] ++ js "+ad"]).
Proof.
  split; [constructor | apply parse_chunks_as_whole; constructor].
Defined.

(** C3. On the scenario's chunk the code classifies the lines that open
    with the prompt glyph U+203A and the check glyph U+2713 as plain
    text: the patterns of the source hold other code units. *)
Theorem scenario_events_of_code (sid : jsstring) :
  fst (parse (OutputParser.new sid) scenario_chunk)
  = [ ev "text" [("content", PStr (0x203A :: js " ls -la"))];
      ev "text" [("content", PStr (0x2713 :: js " done"))];
      ev "text" [("content", PStr (js "Hello world"))];
      ev "diff_add" [("content", PStr (js "added"))];
      ev "diff_remove" [("content", PStr (js "removed"))] ].
Proof. vm_compute. reflexivity. Qed.

(** The events the scenario names come out when the two markers are
    spelled with the code units the patterns hold. *)
Lemma scenario_events_as_stored (sid : jsstring) :
  fst (parse (OutputParser.new sid) scenario_chunk_as_stored)
  = [ ev "bash_command" [("command", PStr (js "ls -la")); ("status", PStr (js "started"))];
      ev "tool_result" [("result", PStr (js "done")); ("success", PBool true)];
      ev "text" [("content", PStr (js "Hello world"))];
      ev "diff_add" [("content", PStr (js "added"))];
      ev "diff_remove" [("content", PStr (js "removed"))] ].
Proof. vm_compute. reflexivity. Qed.

End Translator.

(** ** Suppressed lines *)

Section Suppression.
Import OutputParser.

Lemma trimStart_nil_iff s : trimStart s = [] <-> Forall (fun c => is_space c = true) s.
Proof.
  induction s as [|c s IH]; cbn; [split; auto|].
  destruct (is_space c) eqn:E.
  - rewrite IH. split; [intros; constructor; auto | inversion 1; auto].
  - split; [discriminate | inversion 1; congruence].
Qed.

Lemma trimStart_head s c s' : trimStart s = c :: s' -> is_space c = false.
Proof.
  induction s as [|x s IH]; cbn; [discriminate|].
  destruct (is_space x) eqn:E; [exact IH | intros [= -> _]; exact E].
Qed.

(** [!line.trim()] holds exactly of the lines made of white space. *)
Lemma is_blank_iff line :
  is_blank line = true <-> Forall (fun c => is_space c = true) line.
Proof.
  unfold is_blank, trim, trimEnd. rewrite str_eqb_eq. split.
  - intros H. apply (f_equal (@rev N)) in H. rewrite rev_involutive in H. cbn in H.
    apply trimStart_nil_iff in H. apply Forall_rev in H. rewrite rev_involutive in H.
    destruct (trimStart line) as [|c s'] eqn:E; [apply trimStart_nil_iff, E|].
    apply trimStart_head in E. inversion H; congruence.
  - intros H. apply trimStart_nil_iff in H. rewrite H. reflexivity.
Qed.

Lemma trimStart_split (s : jsstring) :
  exists pre, s = pre ++ trimStart s
              /\ Forall (fun c => is_space c = true) pre
              /\ (forall c, head (trimStart s) = Some c -> is_space c = false).
Proof.
  induction s as [|x s (pre & E & Hpre & Hh)].
  - exists []. split; [reflexivity|]. split; [constructor | discriminate].
  - cbn [trimStart]. destruct (is_space x) eqn:Ex.
    + exists (x :: pre). split; [cbn; congruence|]. split; [constructor; assumption | exact Hh].
    + exists []. split; [reflexivity|]. split; [constructor|].
      intros c [= <-]. exact Ex.
Qed.

Lemma last_rev_head (l : jsstring) : last (rev l) = head l.
Proof.
  destruct l as [|x l]; [reflexivity|]. cbn [rev head]. apply last_snoc.
Qed.

(** [trim] strips exactly the white space around a string. *)
Lemma trim_spec (s : jsstring) : is_trim_of s (trim s).
Proof.
  destruct (trimStart_split s) as (pre & Es & Hpre & Hhead).
  destruct (trimStart_split (rev (trimStart s))) as (tsop & Er & Hpost & Hlast).
  unfold trim, trimEnd. set (u := trimStart s) in *.
  set (t := rev (trimStart (rev u))) in *.
  assert (Eu : u = t ++ rev tsop).
  { rewrite <- (rev_involutive u), Er, rev_app_distr. reflexivity. }
  exists pre, (rev tsop). split; [rewrite <- Eu; exact Es|].
  split; [exact Hpre|]. split; [apply Forall_rev, Hpost|]. split.
  - intros c Hc. apply Hhead. rewrite Eu. destruct t; [discriminate | exact Hc].
  - intros c Hc. apply Hlast. unfold t in Hc. rewrite last_rev_head in Hc. exact Hc.
Qed.

Lemma startsWith_false line p : strip_prefix p line = None -> startsWith line p = false.
Proof. unfold startsWith. intros ->. reflexivity. Qed.

(** A line that opens with none of the literals of rules 1 to 8, is not
    taken by the diff_remove rule and has no letter t or c reaches the
    suppression test. *)
Lemma parseLine_falls_through line :
  Forall (fun l => strip_prefix l line = None) opening_literals ->
  startsWith line (js "-") && negb (startsWith line (js "---")) = false ->
  Forall (fun c => canon c <> 0x54 /\ canon c <> 0x43) line ->
  _parseLine line
  = if str_eqb (trim line) []
       || bool_decide (is_Some (exec rule_re line))
       || bool_decide (is_Some (exec dashes_re line))
    then None
    else Some (ev "text" [("content", PStr line)]).
Proof.
  unfold opening_literals. rewrite !Forall_app.
  intros (Hcall & Hsucc & Hfail & Hfile & Hplus & Hbash & Hthink) Hminus Hcost.
  unfold _parseLine.
  assert (exec toolCall_re line = None) as ->.
  { unfold toolCall_re. cbn [seqs]. apply exec_markers_none; [discriminate | exact Hcall]. }
  assert (exec toolSuccess_re line = None) as ->.
  { unfold toolSuccess_re. cbn [seqs]. apply exec_markers_none; [discriminate | exact Hsucc]. }
  assert (exec toolError_re line = None) as ->.
  { unfold toolError_re. cbn [seqs].
    change (map Lit failure_markers ++ [Lit (js "Error:")])
      with (map Lit (failure_markers ++ [js "Error:"])).
    apply exec_markers_none; [discriminate | apply Forall_app; exact Hfail]. }
  assert (exec filePath_re line = None) as ->.
  { unfold filePath_re. cbn [seqs].
    change [Lit (js "Editing"); Lit (js "Writing"); Lit (js "Reading")]
      with (map Lit [js "Editing"; js "Writing"; js "Reading"]).
    apply exec_markers_none; [discriminate | exact Hfile]. }
  assert (startsWith line (js "+") = false) as ->.
  { apply startsWith_false. inversion Hplus; assumption. }
  rewrite Hminus. cbn [andb].
  assert (exec bash_re line = None) as ->.
  { unfold bash_re. cbn [seqs].
    change [Lit (js "$"); Lit prompt_marker; Lit (js ">")]
      with (map Lit [js "$"; prompt_marker; js ">"]).
    apply exec_markers_none; [discriminate | exact Hbash]. }
  assert (exec thinking_re line = None) as ->.
  { unfold thinking_re. cbn [seqs].
    change (Lit (js "Thinking") :: map Lit thought_markers)
      with (map Lit (js "Thinking" :: thought_markers)).
    apply exec_markers_none; [discriminate | exact Hthink]. }
  assert (exec cost_re line = None) as ->.
  { apply cost_none, Hcost. }
  reflexivity.
Qed.

(** Lines drawn from a class that holds none of the letters t, c, T, C. *)
Lemma class_no_cost (P : N -> bool) line :
  P 0x54 = false -> P 0x74 = false -> P 0x43 = false -> P 0x63 = false ->
  Forall (fun c => P c = true) line ->
  Forall (fun c => canon c <> 0x54 /\ canon c <> 0x43) line.
Proof.
  intros H1 H2 H3 H4 Hall. eapply Forall_impl; [exact Hall|]. intros c Hc.
  split; intros E; apply canon_inv in E as [E | E]; subst c;
    first [ congruence
          | change (0x54 + 0x20) with 0x74 in Hc; congruence
          | change (0x43 + 0x20) with 0x63 in Hc; congruence ].
Qed.

(** For a class, the literals that hold a character outside it open no
    line drawn from it. *)
Lemma class_no_opening (P : N -> bool) line lits :
  forallb (fun l => negb (forallb P l)) lits = true ->
  Forall (fun c => P c = true) line ->
  Forall (fun l => strip_prefix l line = None) lits.
Proof.
  intros Hl Hline. induction lits as [|l lits IH]; [constructor|].
  cbn in Hl. apply andb_true_iff in Hl as [Hl1 Hl2]. constructor; [|auto].
  apply (strip_prefix_outside P); [|exact Hline].
  destruct (forallb P l); [discriminate | reflexivity].
Qed.

Lemma blank_suppressed line : is_blank line = true -> _parseLine line = None.
Proof.
  intros Hb. pose proof Hb as Hall. apply is_blank_iff in Hall.
  rewrite parseLine_falls_through.
  - unfold is_blank in Hb. rewrite Hb. reflexivity.
  - apply (class_no_opening is_space); [vm_compute; reflexivity | exact Hall].
  - rewrite (startsWith_false line (js "-")); [reflexivity|].
    apply (strip_prefix_outside is_space); [vm_compute; reflexivity | exact Hall].
  - apply (class_no_cost is_space); try exact Hall; vm_compute; reflexivity.
Qed.

Lemma line_nonempty line : negb (str_eqb line []) = true -> line <> [].
Proof. destruct line; [discriminate | discriminate]. Qed.

(** The rule pattern as the source holds it: a line drawn from its class
    gets to the suppression test unless it opens with the failure marker
    that lies in the class. *)
Lemma rule_line_suppressed line :
  is_rule_line line = true -> startsWith line [0xE2; 0x152] = false ->
  _parseLine line = None.
Proof.
  unfold is_rule_line. intros [Hne Hall]%andb_true_iff Hmark.
  apply line_nonempty in Hne. apply forallb_true_Forall in Hall.
  rewrite parseLine_falls_through.
  - pose proof (exec_class_run (in_class rule_class) line Hne Hall) as Hs.
    change (is_Some (exec rule_re line)) in Hs.
    rewrite (bool_decide_eq_true_2 _ Hs), orb_true_r. reflexivity.
  - assert (Hin : strip_prefix [0xE2; 0x152] line = None).
    { unfold startsWith in Hmark.
      destruct (strip_prefix [0xE2; 0x152] line); [discriminate | reflexivity]. }
    (* of the failure markers, the one drawn from the class is excluded
       by the hypothesis, the other literals hold a character outside *)
    unfold opening_literals, failure_markers. cbn [app].
    repeat (apply Forall_cons; split;
            [first [ exact Hin
                   | apply (strip_prefix_outside (in_class rule_class));
                     [vm_compute; reflexivity | exact Hall] ] |]).
    constructor.
  - rewrite (startsWith_false line (js "-")); [reflexivity|].
    apply (strip_prefix_outside (in_class rule_class)); [vm_compute; reflexivity | exact Hall].
  - apply (class_no_cost (in_class rule_class)); try exact Hall; vm_compute; reflexivity.
Qed.

Lemma dash_run_suppressed line :
  is_dash_run line = true ->
  startsWith line (js "=") = true \/ startsWith line (js "---") = true ->
  _parseLine line = None.
Proof.
  unfold is_dash_run. intros [Hne Hall]%andb_true_iff Hopen.
  apply line_nonempty in Hne. apply forallb_true_Forall in Hall.
  rewrite parseLine_falls_through.
  - pose proof (exec_class_run (in_class (js "-=")) line Hne Hall) as Hs.
    change (is_Some (exec dashes_re line)) in Hs.
    rewrite (bool_decide_eq_true_2 _ Hs), !orb_true_r. reflexivity.
  - apply (class_no_opening (in_class (js "-="))); [vm_compute; reflexivity | exact Hall].
  - destruct Hopen as [Heq | Hdash].
    + destruct line as [|c s]; [congruence|].
      unfold startsWith in *.
      change (js "=") with [0x3D] in Heq. change (js "-") with [0x2D].
      cbn [strip_prefix] in *.
      destruct (N.eqb_spec 0x3D c) as [<-|]; [reflexivity | discriminate].
    + rewrite Hdash. apply andb_false_r.
  - apply (class_no_cost (in_class (js "-="))); try exact Hall; vm_compute; reflexivity.
Qed.

(** C4 (amended). A line produces no event when it is blank, or is a
    run of "-" and "=" that opens with "=" or with "---". *)
Theorem suppressed_lines (line : jsstring) :
  is_blank line = true
  \/ (is_dash_run line = true
      /\ (startsWith line (js "=") = true \/ startsWith line (js "---") = true)) ->
  _parseLine line = None.
Proof.
  intros [Hb | [Hd Ho]].
  - apply blank_suppressed, Hb.
  - apply dash_run_suppressed; assumption.
Qed.

Lemma suppressed_lines_witness :
  (is_dash_run (js "-----") = true
   /\ (startsWith (js "-----") (js "=") = true \/ startsWith (js "-----") (js "---") = true))
  /\ _parseLine (js "-----") = None.
Proof.
  assert (H : is_dash_run (js "-----") = true
              /\ (startsWith (js "-----") (js "=") = true
                  \/ startsWith (js "-----") (js "---") = true)).
  { split; [reflexivity | right; reflexivity]. }
  split; [exact H | apply suppressed_lines; right; exact H].
Defined.

(** A line drawn from the rule pattern's class is suppressed; a line of
    three box-drawing characters U+2500, which are not in the class as the
    source holds it, is plain text; a line of the class that spells a
    failure marker is a failed tool result. *)
Example rule_line_of_class :
  _parseLine [0xE2; 0x201D; 0x20AC; 0xE2; 0x201D; 0x20AC] = None.
Proof. vm_compute. reflexivity. Qed.

Example rule_line_of_box_drawing :
  _parseLine [0x2500; 0x2500; 0x2500]
  = Some (ev "text" [("content", PStr [0x2500; 0x2500; 0x2500])]).
Proof. vm_compute. reflexivity. Qed.

Example rule_line_spelling_failure_marker :
  is_rule_line [0xE2; 0x152; 0xE2; 0x2022] = true
  /\ _parseLine [0xE2; 0x152; 0xE2; 0x2022]
     = Some (ev "tool_result" [("result", PStr [0xE2; 0x2022]); ("success", PBool false)]).
Proof. split; vm_compute; reflexivity. Qed.

(** Not every line of the three kinds is suppressed: a single "-" is a
    pure run of "-", and the diff_remove rule, which comes first, takes
    it. *)
Lemma dash_run_not_suppressed :
  ~ (forall line : jsstring,
       is_blank line = true \/ is_rule_line line = true \/ is_dash_run line = true ->
       _parseLine line = None).
Proof.
  intros H. specialize (H (js "-")).
  assert (E : _parseLine (js "-") = Some (ev "diff_remove" [("content", PStr [])]))
    by (vm_compute; reflexivity).
  rewrite E in H. discriminate H. right; right; reflexivity.
Qed.

(** A run of "-" and "=" that opens with one or two "-" is a removed
    diff line. *)
Lemma short_dash_run_is_diff_remove line :
  is_dash_run line = true ->
  startsWith line (js "-") = true -> startsWith line (js "---") = false ->
  _parseLine line = Some (ev "diff_remove" [("content", PStr (substring1 line))]).
Proof.
  unfold is_dash_run. intros [Hne Hall]%andb_true_iff H1 H3.
  apply forallb_true_Forall in Hall.
  assert (Hlits : Forall (fun l => strip_prefix l line = None)
                    (tool_call_markers ++ success_markers
                     ++ (failure_markers ++ [js "Error:"])
                     ++ [js "Editing"; js "Writing"; js "Reading"] ++ [js "+"])).
  { apply (class_no_opening (in_class (js "-="))); [vm_compute; reflexivity | exact Hall]. }
  rewrite !Forall_app in Hlits.
  destruct Hlits as (Hcall & Hsucc & Hfail & Hfile & Hplus).
  unfold _parseLine.
  assert (exec toolCall_re line = None) as ->.
  { unfold toolCall_re. cbn [seqs]. apply exec_markers_none; [discriminate | exact Hcall]. }
  assert (exec toolSuccess_re line = None) as ->.
  { unfold toolSuccess_re. cbn [seqs]. apply exec_markers_none; [discriminate | exact Hsucc]. }
  assert (exec toolError_re line = None) as ->.
  { unfold toolError_re. cbn [seqs].
    change (map Lit failure_markers ++ [Lit (js "Error:")])
      with (map Lit (failure_markers ++ [js "Error:"])).
    apply exec_markers_none; [discriminate | apply Forall_app; exact Hfail]. }
  assert (exec filePath_re line = None) as ->.
  { unfold filePath_re. cbn [seqs].
    change [Lit (js "Editing"); Lit (js "Writing"); Lit (js "Reading")]
      with (map Lit [js "Editing"; js "Writing"; js "Reading"]).
    apply exec_markers_none; [discriminate | exact Hfile]. }
  assert (startsWith line (js "+") = false) as ->.
  { apply startsWith_false. inversion Hplus; assumption. }
  rewrite H1, H3. reflexivity.
Qed.

End Suppression.

(** ** The heap *)

Section HeapFacts.

Lemma val_below_mono n n' v : (n <= n')%nat -> val_below n v -> val_below n' v.
Proof. destruct v; cbn; lia. Qed.

Lemma obj_below_mono n n' o : (n <= n')%nat -> obj_below n o -> obj_below n' o.
Proof.
  intros Hle. destruct o as [f|items]; cbn.
  - intros H. eapply map_Forall_impl; [exact H|]. intros k v. apply val_below_mono, Hle.
  - intros H. eapply Forall_impl; [exact H|]. intros v. apply val_below_mono, Hle.
Qed.

Lemma closed_lookup h l o : closed h -> h !! l = Some o -> obj_below (length h) o.
Proof. intros Hc Hl. exact (proj1 (Forall_lookup _ _) Hc l o Hl). Qed.

Lemma record_below n (l : list (string * value)) :
  Forall (fun kv => val_below n kv.2) l -> obj_below n (record l).
Proof.
  intros Hall. cbn. apply map_Forall_lookup. intros k v Hk.
  apply elem_of_list_to_map_2 in Hk.
  exact (proj1 (Forall_forall _ _) Hall (k, v) Hk).
Qed.

Lemma record_above b (l : list (string * value)) :
  Forall (fun kv => val_above b kv.2) l -> obj_above b (record l).
Proof.
  intros Hall. cbn. apply map_Forall_lookup. intros k v Hk.
  apply elem_of_list_to_map_2 in Hk.
  exact (proj1 (Forall_forall _ _) Hall (k, v) Hk).
Qed.

(** Allocation keeps the heap split and leaves what lies below [b]. *)
Lemma alloc_split b o h l h' :
  alloc o h = Ok (l, h') ->
  split_at b h -> obj_below (S (length h)) o -> obj_above b o ->
  l = length h /\ length h' = S (length h)
  /\ split_at b h' /\ take b h' = take b h.
Proof.
  unfold alloc. intros [= <- <-] (Hb & Hc & Ha) Hlo Hhi.
  rewrite length_app. cbn [length].
  split; [reflexivity|]. split; [lia|]. split.
  - split; [rewrite length_app; cbn; lia|]. split.
    + unfold closed. rewrite length_app. cbn [length].
      replace (length h + 1)%nat with (S (length h)) by lia.
      apply Forall_app. split; [|repeat constructor; exact Hlo].
      eapply Forall_impl; [exact Hc|]. intros o'. apply obj_below_mono. lia.
    + intros l o' Hl Hlk. apply lookup_app_Some in Hlk as [Hlk | [_ Hlk]].
      * eapply Ha; eassumption.
      * apply list_lookup_singleton_Some in Hlk as [_ <-]. exact Hhi.
  - apply take_app_le. exact Hb.
Qed.

Lemma push_split b l v h u h' :
  push l v h = Ok (u, h') ->
  split_at b h -> (b <= l)%nat -> val_below (length h) v -> val_above b v ->
  length h' = length h /\ split_at b h' /\ take b h' = take b h.
Proof.
  unfold push. destruct (h !! l) as [[f|items]|] eqn:Hl; try discriminate.
  intros [= <- <-] (Hb & Hc & Ha) Hbl Hlo Hhi.
  rewrite length_insert. split; [reflexivity|]. split.
  - split; [rewrite length_insert; exact Hb|]. split.
    + unfold closed. rewrite length_insert. apply Forall_insert; [exact Hc|].
      cbn. apply Forall_app. split; [|repeat constructor; exact Hlo].
      exact (closed_lookup _ _ _ Hc Hl).
    + intros l' o' Hl' Hlk. apply list_lookup_insert_Some in Hlk as [(<- & <- & _) | [_ Hlk]].
      * cbn. apply Forall_app. split; [|repeat constructor; exact Hhi].
        exact (Ha _ _ Hbl Hl).
      * eapply Ha; eassumption.
  - apply take_insert_ge. exact Hbl.
Qed.

Lemma set_field_split b l k p h u h' :
  set_field l k (VPrim p) h = Ok (u, h') ->
  split_at b h -> (b <= l)%nat ->
  length h' = length h /\ split_at b h' /\ take b h' = take b h.
Proof.
  unfold set_field. destruct (h !! l) as [[f|items]|] eqn:Hl; try discriminate.
  intros [= <- <-] (Hb & Hc & Ha) Hbl.
  rewrite length_insert. split; [reflexivity|]. split.
  - split; [rewrite length_insert; exact Hb|]. split.
    + unfold closed. rewrite length_insert. apply Forall_insert; [exact Hc|].
      cbn. apply map_Forall_insert_2; [exact I|].
      exact (closed_lookup _ _ _ Hc Hl).
    + intros l' o' Hl' Hlk. apply list_lookup_insert_Some in Hlk as [(<- & <- & _) | [_ Hlk]].
      * cbn. apply map_Forall_insert_2; [exact I|]. exact (Ha _ _ Hbl Hl).
      * eapply Ha; eassumption.
  - apply take_insert_ge. exact Hbl.
Qed.

Lemma get_field_split b l k h v h' :
  get_field l k h = Ok (v, h') ->
  split_at b h -> (b <= l)%nat ->
  h' = h /\ val_below (length h) v /\ val_above b v.
Proof.
  unfold get_field. destruct (h !! l) as [[f|items]|] eqn:Hl; try discriminate.
  intros [= <- <-] (Hb & Hc & Ha) Hbl. split; [reflexivity|].
  destruct (f !! k) as [v|] eqn:Hk; [|cbn; auto].
  split.
  - exact (closed_lookup _ _ _ Hc Hl k v Hk).
  - exact (Ha _ _ Hbl Hl k v Hk).
Qed.

Lemma field_Ok d k h p h' : field d k h = Ok (p, h') -> h' = h.
Proof. destruct d; cbn; [intros [= _ <-]; reflexivity | discriminate]. Qed.

(** Reading a value through the heap looks only at what the value can
    reach: below [n] when the part below [n] is closed. *)
Lemma reify_prefix fuel n h h' v :
  closed (take n h) -> (n <= length h)%nat ->
  take n h' = take n h ->
  val_below n v ->
  reify fuel h' v = reify fuel h v.
Proof.
  intros Hc Hn Htake. revert v. induction fuel as [|fuel IH]; intros v Hv.
  - destruct v; reflexivity.
  - destruct v as [p|l]; [reflexivity|]. cbn in Hv. cbn [reify].
    assert (Hl : h' !! l = h !! l).
    { rewrite <- (lookup_take_lt h' n l), <- (lookup_take_lt h n l) by lia.
      rewrite Htake. reflexivity. }
    rewrite Hl. destruct (h !! l) as [[f|items]|] eqn:Hlk; [| |reflexivity].
    + assert (Ho : obj_below n (Obj f)).
      { assert (Hlk' : take n h !! l = Some (Obj f)) by (rewrite lookup_take_lt by lia; exact Hlk).
        pose proof (closed_lookup _ _ _ Hc Hlk') as Hb.
        rewrite length_take, Nat.min_l in Hb by lia. exact Hb. }
      f_equal. apply map_ext_in. intros [k v] Hin. cbn. f_equal. apply IH.
      apply list_elem_of_In, elem_of_map_to_list in Hin. exact (Ho k v Hin).
    + assert (Ho : obj_below n (Arr items)).
      { assert (Hlk' : take n h !! l = Some (Arr items)) by (rewrite lookup_take_lt by lia; exact Hlk).
        pose proof (closed_lookup _ _ _ Hc Hlk') as Hb.
        rewrite length_take, Nat.min_l in Hb by lia. exact Hb. }
      f_equal. apply map_ext_in. intros v Hin. apply IH.
      cbn in Ho. apply list_elem_of_In in Hin.
      exact (proj1 (Forall_forall _ _) Ho v Hin).
Qed.

End HeapFacts.

(** ** The Event Aggregator *)

Section Aggregator.
Import MessageAggregator.

Lemma bind_Ok {A B} (c : M A) (f : A -> M B) h r :
  bind c f h = Ok r -> exists a h', c h = Ok (a, h') /\ f a h' = Ok r.
Proof.
  unfold bind. destruct (c h) as [[a h']|e]; [eauto | discriminate].
Qed.

Lemma addEvents_app es1 es2 a h :
  addEvents (es1 ++ es2) a h
  = match addEvents es1 a h with
    | Ok (a', h') => addEvents es2 a' h'
    | Throw e => Throw e
    end.
Proof.
  revert a h. induction es1 as [|e es1 IH]; intros a h; [reflexivity|].
  cbn [app addEvents]. unfold bind.
  destruct (addEvent e a h) as [[a' h']|err]; [apply IH | reflexivity].
Qed.

Ltac chain :=
  repeat match goal with
    | H : bind _ _ _ = Ok _ |- _ =>
        apply bind_Ok in H as (? & ? & ? & H); cbn beta in H
    | H : field _ _ ?h = Ok (_, ?h') |- _ => apply field_Ok in H; subst h'
    | H : ret _ _ = Ok _ |- _ => unfold ret in H; inversion H; subst; clear H
    | H : throw _ _ = Ok _ |- _ => discriminate H
    end.

Ltac side :=
  solve [ exact I
        | assumption
        | cbn; constructor
        | apply record_below; repeat constructor; cbn; lia
        | apply record_above; repeat constructor; cbn; lia
        | cbn; lia ].

(** One heap operation after another, each keeping the heap split. *)
Ltac heap_step b :=
  match goal with
  | H : alloc _ ?h = Ok _, Hs : split_at b ?h |- _ =>
      let L := fresh "L" in let N := fresh "N" in
      let Hs' := fresh "Hs" in let T := fresh "T" in
      apply (alloc_split b) in H as (L & N & Hs' & T); [subst | exact Hs | side | side]
  | H : push ?l _ ?h = Ok _, Hs : split_at b ?h |- _ =>
      let N := fresh "N" in let Hs' := fresh "Hs" in let T := fresh "T" in
      apply (push_split b) in H as (N & Hs' & T); [| exact Hs | side | side | side]
  | H : set_field ?l _ _ ?h = Ok _, Hs : split_at b ?h |- _ =>
      let N := fresh "N" in let Hs' := fresh "Hs" in let T := fresh "T" in
      apply (set_field_split b) in H as (N & Hs' & T); [| exact Hs | side]
  end.

Lemma reset_eq h :
  reset h
  = Ok (Agg (Message [] (length h) (length h + 1) (length h + 2) (length h + 3)
               (length h + 4)) None None None,
        h ++ replicate 5 (Arr [])).
Proof.
  unfold reset, bind, alloc, ret. rewrite !length_app. cbn [length replicate].
  rewrite <- !app_assoc, <- !Nat.add_assoc. reflexivity.
Qed.

Lemma reset_split b h a' h' :
  reset h = Ok (a', h') -> split_at b h ->
  agg_split b h' a' /\ take b h' = take b h /\ (length h <= length h')%nat
  /\ Forall (fun l => (length h <= l)%nat) (lists (currentMessage a')).
Proof.
  intros H Hs. unfold reset in H. chain.
  repeat heap_step b.
  pose proof (proj1 Hs) as Hb. unfold agg_split, lists. cbn.
  split; [|split; [congruence|split; [lia|]]].
  - split; [assumption|]. split; [|split; discriminate].
    repeat (apply Forall_cons_2; [lia|]). apply Forall_nil_2.
  - repeat (apply Forall_cons_2; [lia|]). apply Forall_nil_2.
Qed.

Lemma closed_split_at h : closed h -> split_at (length h) h.
Proof.
  intros Hc. split; [lia|]. split; [exact Hc|].
  intros l o Hl Hlk. apply lookup_lt_Some in Hlk. lia.
Qed.

Lemma split_at_closed b h : split_at b h -> closed h.
Proof. intros (_ & Hc & _). exact Hc. Qed.

Ltac crunch b H :=
  repeat first
    [ progress chain
    | heap_step b
    | match goal with
      | G : get_field ?l _ ?h = Ok _, Hs : split_at b ?h |- _ =>
          let Lo := fresh "Lo" in let Hi := fresh "Hi" in
          apply (get_field_split b) in G as (-> & Lo & Hi); [| exact Hs | side]
      end
    | match type of H with
      | context [match ?v with VPrim _ => _ | VRef _ => _ end] => destruct v; cbn in *
      end ].

Lemma addEvent_split b e a h a' h' :
  addEvent e a h = Ok (a', h') -> agg_split b h a ->
  agg_split b h' a' /\ take b h' = take b h.
Proof.
  intros H (Hs & Hl & Ht & Hf). destruct e as [et d].
  pose proof (proj1 Hs) as Hb.
  unfold lists in Hl.
  repeat match goal with
         | H : Forall _ (_ :: _) |- _ =>
             let E := fresh "A" in apply Forall_cons in H as [E H]
         end.
  unfold addEvent in H. cbn [event_type data] in H.
  repeat match type of H with
         | context [str_eqb et ?lit] =>
             let E := fresh "E" in destruct (str_eqb et lit) eqn:E
         end.
  all: destruct (currentTool a) as [lt|] eqn:Ect;
       destruct (currentFile a) as [lf|] eqn:Ecf.
  all: try (pose proof (Ht _ eq_refl)); try (pose proof (Hf _ eq_refl)).
  all: crunch b H.
  all: unfold agg_split, lists; cbn [currentMessage currentTool currentFile set_content
         tool_calls file_changes bash_commands errors thinking].
  all: (split; [split; [assumption|split; [|split]] | congruence]).
  all: try (repeat (apply Forall_cons_2; [lia|]); apply Forall_nil_2).
  all: try (intros l' [= <-]; lia).
  all: try assumption.
  all: try discriminate.
  all: intros l' E'; first [apply Ht; congruence | apply Hf; congruence].
Qed.

Lemma finalize_split b a h msg a' h' :
  finalize a h = Ok ((msg, a'), h') -> agg_split b h a ->
  agg_split b h' a' /\ take b h' = take b h.
Proof.
  intros H (Hs & _). unfold finalize in H. chain.
  match goal with
  | R : reset _ = Ok _ |- _ => destruct (reset_split b _ _ _ R Hs) as (? & ? & _)
  end.
  split; assumption.
Qed.

Lemma run_op_split b o a h a' h' :
  run_op o a h = Ok (a', h') -> agg_split b h a ->
  agg_split b h' a' /\ take b h' = take b h.
Proof.
  destruct o as [e| |]; cbn [run_op]; intros H Hinv.
  - eapply addEvent_split; eassumption.
  - chain. destruct x as [msg a'']. cbn [snd] in *.
    eapply finalize_split; eassumption.
  - destruct (reset_split b _ _ _ H (proj1 Hinv)) as (? & ? & _). split; assumption.
Qed.

Lemma run_ops_split b os a h a' h' :
  run_ops os a h = Ok (a', h') -> agg_split b h a ->
  agg_split b h' a' /\ take b h' = take b h.
Proof.
  revert a h. induction os as [|o os IH]; intros a h H Hinv.
  - cbn in H. chain. split; [assumption | reflexivity].
  - cbn [run_ops] in H. chain.
    match goal with
    | R : run_op _ _ _ = Ok _ |- _ =>
        destruct (run_op_split b _ _ _ _ _ R Hinv) as (Hinv' & Ht)
    end.
    destruct (IH _ _ H Hinv') as (? & Ht'). split; [assumption | congruence].
Qed.

Lemma split_at_0_nil : split_at 0 [].
Proof.
  split; [cbn; lia|]. split; [constructor|]. intros l o _ Hl. discriminate Hl.
Qed.

(** Every state the aggregator goes through keeps its lists in a closed
    heap. *)
Lemma reachable_split h a : reachable h a -> agg_split 0 h a.
Proof.
  induction 1 as [a h Hnew | o a h a' h' _ IH Hop].
  - unfold new in Hnew. exact (proj1 (reset_split 0 _ _ _ Hnew split_at_0_nil)).
  - exact (proj1 (run_op_split 0 _ _ _ _ _ Hop IH)).
Qed.

(** What a record shows depends on the heap it was taken in only. *)
Lemma read_frame h h' m :
  closed h -> take (length h) h' = h ->
  Forall (fun l => (l < length h)%nat) (lists m) ->
  read h' m = read h m.
Proof.
  intros Hc Htake Hl. unfold lists in Hl.
  repeat match goal with
         | H : Forall _ (_ :: _) |- _ =>
             let E := fresh "A" in apply Forall_cons in H as [E H]
         end.
  assert (Hr : forall l, (l < length h)%nat ->
                         reify 3 h' (VRef l) = reify 3 h (VRef l)).
  { intros l Hlt. apply (reify_prefix 3 (length h)).
    - rewrite firstn_all. exact Hc.
    - lia.
    - rewrite firstn_all. exact Htake.
    - exact Hlt. }
  unfold read. rewrite !Hr by assumption. reflexivity.
Qed.

Lemma lookup_fresh (h : heap) (l : list obj) i :
  (h ++ l) !! (length h + i)%nat = l !! i.
Proof. rewrite lookup_app_r by lia. f_equal. lia. Qed.

(** A second [finalize] right after the first hands out the empty
    record. *)
Lemma finalize_twice_empty h :
  forall a' h', reset h = Ok (a', h') -> finalize_after [] a' h' = Ok empty_view.
Proof.
  intros a' h'. rewrite reset_eq. intros [= <- <-].
  unfold finalize_after. cbn [addEvents]. unfold finalize, bind, ret.
  rewrite reset_eq. cbn [currentMessage content set_content].
  unfold read, empty_view. cbn [set_content content tool_calls file_changes
    bash_commands errors thinking reify].
  rewrite <- !app_assoc.
  rewrite <- (Nat.add_0_r (length h)) at 1.
  rewrite !lookup_fresh. reflexivity.
Qed.

(** The record of the short exchange: the text trimmed, the tool call with
    its result, the file with its added line. *)
Example demo_finalized :
  finalize_after demo_events (Agg (Message [] 0 1 2 3 4) None None None)
    (replicate 5 (Arr []))
  = Ok (View (js "Hello world")
          (JArr [JObj [("success", JPrim (PBool true));
                       ("status", JPrim (PStr (js "started")));
                       ("name", JPrim (PStr (js "Read")));
                       ("result", JPrim (PStr (js "done")));
                       ("parameters", JPrim (PStr (js "a.txt")))]])
          (JArr [JObj [("action", JPrim (PStr (js "edit")));
                       ("additions", JArr [JPrim (PStr (js "x"))]);
                       ("file_path", JPrim (PStr (js "a.txt")));
                       ("removals", JArr [])]])
          (JArr []) (JArr []) (JArr [])).
Proof. vm_compute. reflexivity. Qed.

(** A text event whose data is undefined makes [addEvent] throw. *)
Example text_without_data_throws :
  addEvent (Event (js "text") None) (Agg (Message [] 0 1 2 3 4) None None None)
    (replicate 5 (Arr []))
  = Throw TypeError.
Proof. reflexivity. Qed.

(** C6. [finalize] hands out the accumulated record with its text
    trimmed: the accumulated text is the text handed out between two runs
    of white space, and the text handed out neither opens nor ends with
    white space; the lists are those accumulated; it leaves the aggregator
    as a new one; nothing the aggregator does later shows in the record
    handed out; and a second [finalize] right away hands out the empty
    record. *)
Theorem finalize_snapshot_and_reset (h : heap) (a : t) :
  reachable h a ->
  exists msg a' h',
    finalize a h = Ok ((msg, a'), h')
    /\ is_trim_of (content (currentMessage a)) (content msg)
    /\ content msg = trim (content (currentMessage a))
    /\ read h' msg = trimmed (read h (currentMessage a))
    /\ new h = Ok (a', h')
    /\ (forall os a2 h2, run_ops os a' h' = Ok (a2, h2) -> read h2 msg = read h' msg)
    /\ finalize_after [] a' h' = Ok empty_view.
Proof.
  intros Hr. apply reachable_split in Hr as (Hs & Hl & _).
  pose proof (split_at_closed _ _ Hs) as Hc.
  assert (Hl' : Forall (fun l => (l < length h)%nat) (lists (currentMessage a))).
  { eapply Forall_impl; [exact Hl|]. cbn. intros; lia. }
  destruct (reset h) as [[a' h']|err] eqn:Hreset;
    [|rewrite reset_eq in Hreset; discriminate].
  pose proof (reset_split (length h) _ _ _ Hreset (closed_split_at _ Hc))
    as (Hinv & Htake & _).
  rewrite firstn_all in Htake.
  set (msg := set_content (currentMessage a) (trim (content (currentMessage a)))).
  assert (Hmsg : Forall (fun l => (l < length h)%nat) (lists msg)) by exact Hl'.
  exists msg, a', h'. split; [|split; [|split; [|split; [|split; [|split]]]]].
  - unfold finalize, bind. rewrite Hreset. reflexivity.
  - apply trim_spec.
  - reflexivity.
  - rewrite (read_frame h h' msg Hc Htake Hmsg). reflexivity.
  - exact Hreset.
  - intros os a2 h2 Hops.
    destruct (run_ops_split _ _ _ _ _ _ Hops Hinv) as (_ & Htake2).
    rewrite (read_frame h h' msg Hc Htake Hmsg).
    apply read_frame; [exact Hc | | exact Hmsg].
    rewrite Htake2. exact Htake.
  - eapply finalize_twice_empty. exact Hreset.
Qed.

Lemma addEvents_reachable es a h a' h' :
  reachable h a -> addEvents es a h = Ok (a', h') -> reachable h' a'.
Proof.
  revert a h. induction es as [|e es IH]; intros a h Hr H.
  - cbn in H. chain. exact Hr.
  - cbn [addEvents] in H. chain. eapply IH; [|eassumption].
    eapply (reach_op (OpAddEvent e)); eassumption.
Qed.

Lemma after_reachable es h a : after es = Some (h, a) -> reachable h a.
Proof.
  unfold after. destruct ((let* a0 := new in addEvents es a0) []) as [[a1 h1]|err] eqn:E;
    [|discriminate].
  intros [= <- <-]. chain.
  eapply addEvents_reachable; [|eassumption]. apply reach_new. assumption.
Qed.

Lemma finalize_snapshot_and_reset_witness :
  exists h a,
    after demo_events = Some (h, a)
    /\ reachable h a
    /\ content (currentMessage a) = js "  Hello world" ++ [0x0A]
    /\ exists msg a' h',
         finalize a h = Ok ((msg, a'), h')
         /\ content msg = js "Hello world"
         /\ is_trim_of (content (currentMessage a)) (content msg)
         /\ read h' msg = trimmed (read h (currentMessage a))
         /\ new h = Ok (a', h')
         /\ (forall os a2 h2, run_ops os a' h' = Ok (a2, h2) -> read h2 msg = read h' msg)
         /\ finalize_after [] a' h' = Ok empty_view.
Proof.
  destruct (after demo_events) as [[h a]|] eqn:E; [|vm_compute in E; discriminate E].
  exists h, a. split; [reflexivity|].
  pose proof (after_reachable _ _ _ E) as Hr.
  assert (Hc : content (currentMessage a) = js "  Hello world" ++ [0x0A]).
  { vm_compute in E. injection E as _ <-. reflexivity. }
  split; [exact Hr|]. split; [exact Hc|].
  destruct (finalize_snapshot_and_reset h a Hr)
    as (msg & a' & h' & Hf & Ht & Hm & Hread & Hnew & Hind & Hsecond).
  exists msg, a', h'. split; [exact Hf|]. split.
  - rewrite Hm, Hc. vm_compute. reflexivity.
  - repeat split; assumption.
Defined.

(** The tool slot after an event. *)
Lemma addEvent_has_open_tool e a h a' h' :
  addEvent e a h = Ok (a', h') ->
  has_open_tool a'
  = if str_eqb (event_type e) (js "tool_call") then true
    else if str_eqb (event_type e) (js "tool_result") then false
    else has_open_tool a.
Proof.
  intros H. destruct e as [et d]. unfold addEvent in H.
  cbn [event_type data] in *.
  repeat match type of H with
         | context [str_eqb et ?lit] =>
             let E := fresh "E" in
             destruct (str_eqb et lit) eqn:E;
             [apply str_eqb_eq in E; subst et|]
         end.
  all: repeat match goal with
         | |- context [str_eqb (js ?x) (js ?y)] =>
             let v := eval vm_compute in (str_eqb (js x) (js y)) in
             change (str_eqb (js x) (js y)) with v
         end.
  all: repeat match goal with
         | E : str_eqb _ _ = false |- _ => rewrite E; clear E
         end.
  all: cbn iota.
  all: destruct (currentTool a) as [lt|] eqn:Ect;
       destruct (currentFile a) as [lf|] eqn:Ecf.
  all: crunch 0%nat H.
  all: unfold has_open_tool; cbn [currentTool]; rewrite ?Ect; reflexivity.
Qed.

Lemma addEvents_has_open_tool es a h a' h' :
  addEvents es a h = Ok (a', h') ->
  has_open_tool a' = tool_open_after es (has_open_tool a).
Proof.
  revert a h. induction es as [|e es IH]; intros a h H.
  - cbn in H. chain. reflexivity.
  - cbn [addEvents] in H. chain. cbn [tool_open_after].
    match goal with
    | R : addEvent _ _ _ = Ok _ |- _ => pose proof (addEvent_has_open_tool _ _ _ _ _ R) as Ho
    end.
    rewrite (IH _ _ H), Ho.
    destruct (str_eqb (event_type e) (js "tool_call")); [reflexivity|].
    destruct (str_eqb (event_type e) (js "tool_result")); reflexivity.
Qed.

Lemma addEvent_tool_result_closed r a h :
  event_type r = js "tool_result" -> has_open_tool a = false ->
  addEvent r a h = Ok (a, h).
Proof.
  intros Ht Hc. unfold addEvent. rewrite Ht.
  change (str_eqb (js "tool_result") (js "text")) with false.
  change (str_eqb (js "tool_result") (js "tool_call")) with false.
  change (str_eqb (js "tool_result") (js "tool_result")) with true.
  cbn iota. unfold has_open_tool in Hc.
  destruct (currentTool a); [discriminate | reflexivity].
Qed.

(** C7. A tool_result that arrives while no tool slot is open (none was
    opened, or the last one opened was closed by an earlier result) is
    dropped: [addEvent] returns without throwing and leaves the message,
    the slots and the heap as they are, so that the finalized record is
    the one of the sequence without that event. *)
Theorem tool_result_without_slot_dropped
  (es1 : list event) (r : event) (a0 a1 : t) (h0 h1 : heap) :
  event_type r = js "tool_result" ->
  has_open_tool a0 = false ->
  addEvents es1 a0 h0 = Ok (a1, h1) ->
  tool_open_after es1 false = false ->
  addEvent r a1 h1 = Ok (a1, h1)
  /\ (forall es2,
        addEvents (es1 ++ r :: es2) a0 h0 = addEvents (es1 ++ es2) a0 h0)
  /\ (forall es2,
        finalize_after (es1 ++ r :: es2) a0 h0 = finalize_after (es1 ++ es2) a0 h0).
Proof.
  intros Ht H0 Hrun Hclosed.
  assert (Hdrop : addEvent r a1 h1 = Ok (a1, h1)).
  { apply addEvent_tool_result_closed; [exact Ht|].
    rewrite (addEvents_has_open_tool _ _ _ _ _ Hrun), H0. exact Hclosed. }
  assert (Hseq : forall es2,
             addEvents (es1 ++ r :: es2) a0 h0 = addEvents (es1 ++ es2) a0 h0).
  { intros es2. rewrite !addEvents_app, Hrun. cbn [addEvents]. unfold bind.
    rewrite Hdrop. reflexivity. }
  split; [exact Hdrop|]. split; [exact Hseq|].
  intros es2. unfold finalize_after, bind. rewrite Hseq. reflexivity.
Qed.

Lemma tool_result_without_slot_dropped_witness :
  exists h1 a1,
    addEvents demo_events (Agg (Message [] 0 1 2 3 4) None None None)
              (replicate 5 (Arr [])) = Ok (a1, h1)
    /\ addEvent stray_result a1 h1 = Ok (a1, h1)
    /\ finalize_after (demo_events ++ stray_result :: [])
         (Agg (Message [] 0 1 2 3 4) None None None) (replicate 5 (Arr []))
       = finalize_after (demo_events ++ [])
           (Agg (Message [] 0 1 2 3 4) None None None) (replicate 5 (Arr [])).
Proof.
  destruct (addEvents demo_events (Agg (Message [] 0 1 2 3 4) None None None)
              (replicate 5 (Arr []))) as [[a1 h1]|] eqn:E1;
    [|vm_compute in E1; discriminate E1].
  exists h1, a1. split; [reflexivity|].
  destruct (tool_result_without_slot_dropped demo_events stray_result
              (Agg (Message [] 0 1 2 3 4) None None None) a1
              (replicate 5 (Arr [])) h1
              eq_refl eq_refl E1 eq_refl) as (Hd & _ & Hf).
  split; [exact Hd | exact (Hf [])].
Defined.

Lemma not_handled_tests (et : jsstring) :
  et ∉ handled_types ->
  Forall (fun lit => str_eqb et lit = false) handled_types.
Proof.
  intros Hnot. apply Forall_forall. intros lit Hin.
  destruct (str_eqb et lit) eqn:E; [|reflexivity].
  apply str_eqb_eq in E. subst. contradiction.
Qed.

Lemma addEvent_unhandled e a h :
  event_type e ∉ handled_types -> addEvent e a h = Ok (a, h).
Proof.
  intros Hnot. apply not_handled_tests in Hnot.
  unfold handled_types in Hnot.
  repeat match goal with
         | H : Forall _ (_ :: _) |- _ =>
             let E := fresh "E" in apply Forall_cons in H as [E H]
         end.
  unfold addEvent. rewrite E, E0, E1, E2, E3, E4, E5, E6, E7. reflexivity.
Qed.

(** C9. An event whose type [addEvent] has no case for (the usage events
    of the Translator among them) leaves the message, the open slots and
    the heap as they are, and can be struck from any sequence without
    changing what [finalize] hands out. *)
Theorem unhandled_event_ignored (e : event) :
  event_type e ∉ handled_types ->
  (forall a h, addEvent e a h = Ok (a, h))
  /\ (forall es1 es2 a h,
        addEvents (es1 ++ e :: es2) a h = addEvents (es1 ++ es2) a h)
  /\ (forall es1 es2 a h,
        finalize_after (es1 ++ e :: es2) a h = finalize_after (es1 ++ es2) a h).
Proof.
  intros Hnot.
  assert (Hseq : forall es1 es2 a h,
             addEvents (es1 ++ e :: es2) a h = addEvents (es1 ++ es2) a h).
  { intros es1 es2 a h. rewrite !addEvents_app.
    destruct (addEvents es1 a h) as [[a' h']|err]; [|reflexivity].
    cbn [addEvents]. unfold bind. rewrite addEvent_unhandled by assumption.
    reflexivity. }
  split; [intros; apply addEvent_unhandled, Hnot|].
  split; [exact Hseq|].
  intros es1 es2 a h. unfold finalize_after, bind. rewrite Hseq. reflexivity.
Qed.

End Aggregator.

Lemma unhandled_event_ignored_witness :
  OutputParser._parseLine usage_line = Some usage_event
  /\ (event_type usage_event ∉ MessageAggregator.handled_types)
  /\ (forall a h, MessageAggregator.addEvent usage_event a h = Ok (a, h)).
Proof.
  assert (Hnot : event_type usage_event ∉ MessageAggregator.handled_types).
  { intros Hin. unfold MessageAggregator.handled_types in Hin.
    repeat (apply elem_of_cons in Hin as [Hin | Hin]; [vm_compute in Hin; discriminate|]).
    inversion Hin. }
  split; [vm_compute; reflexivity|].
  split; [exact Hnot|].
  exact (proj1 (unhandled_event_ignored usage_event Hnot)).
Defined.

(** ** The Process Supervisor *)

Section Supervisor.
Import ProcessSpawner.

Lemma output_events_imap (now : nat -> jsstring) sid es :
  output_events (imap (fun i e => ("output", Output e sid (now i))) es)
  = map (fun e => (e, sid)) es.
Proof.
  revert now. induction es as [|e es IH]; intros now; [reflexivity|].
  cbn [imap map]. unfold output_events in *. cbn [omap snd fst String.eqb].
  change (String.eqb "output" "output") with true. cbn iota.
  change (option_bind ?A ?B ?f (Some ?x)) with (f x).
  cbn. f_equal. apply (IH (fun i => now (S i))).
Qed.

(** Between two chunks the supervisor's buffer and the parser's both hold
    the unfinished line, and [parse] is handed the one after the other:
    the events of a chunk are those of the unfinished line twice, then
    the chunk. *)
Lemma on_stdout_repeats_tail now text sp :
  outputBuffer sp = OutputParser.remaining (parser sp) ->
  output_events (snd (on_stdout now text sp))
  = map (fun e => (e, sessionId sp))
      (fst (OutputParser.parse (OutputParser.new (sessionId sp))
              (outputBuffer sp ++ outputBuffer sp ++ text))).
Proof.
  intros Hinv. unfold on_stdout, _processBuffer.
  cbn [parser outputBuffer sessionId set_buffers].
  unfold OutputParser.parse, OutputParser.pop. cbn [OutputParser.remaining OutputParser.new
    OutputParser.sessionId app snd fst].
  rewrite <- Hinv. apply output_events_imap.
Qed.

Lemma split_nl_snoc_newline (t : jsstring) :
  Forall (fun c => c <> 0x0A) t -> split_nl (t ++ [0x0A]) = [t; []].
Proof.
  induction 1 as [|c t Hc _ IH]; [reflexivity|].
  cbn [app split_nl]. apply N.eqb_neq in Hc. rewrite Hc, IH. reflexivity.
Qed.

Lemma split_nl_ends_with_newline (c : jsstring) :
  endsWith_nl c = true -> List.last (split_nl c) [] = [].
Proof.
  unfold endsWith_nl. destruct (last c) as [x|] eqn:E; [|discriminate].
  intros Hx%N.eqb_eq. subst x. apply last_Some in E as [c0 ->].
  rewrite split_nl_app, last_app_ne by apply split_nl_nonempty.
  rewrite split_nl_snoc_newline by apply split_nl_last_no_newline. reflexivity.
Qed.

(** As long as every chunk ends at the end of a line nothing is kept
    between chunks, and the notifications carry the events of the
    Translator on the concatenation. *)
Lemma on_stdout_line_aligned now text sp :
  outputBuffer sp = [] -> OutputParser.remaining (parser sp) = [] ->
  endsWith_nl text = true ->
  outputBuffer (fst (on_stdout now text sp)) = []
  /\ OutputParser.remaining (parser (fst (on_stdout now text sp))) = []
  /\ sessionId (fst (on_stdout now text sp)) = sessionId sp
  /\ output_events (snd (on_stdout now text sp))
     = map (fun e => (e, sessionId sp))
         (fst (OutputParser.parse (OutputParser.new (sessionId sp)) text)).
Proof.
  intros Hb Hr Hnl.
  pose proof (on_stdout_repeats_tail now text sp) as Hev.
  rewrite Hb, Hr in Hev. specialize (Hev eq_refl). cbn [app] in Hev.
  unfold on_stdout, _processBuffer in *.
  cbn [parser outputBuffer sessionId set_buffers] in *.
  unfold OutputParser.parse, OutputParser.pop in *.
  rewrite Hb, Hr in *. cbn [app fst snd OutputParser.remaining OutputParser.new
    OutputParser.getRemaining parser outputBuffer sessionId set_buffers] in *.
  rewrite split_nl_ends_with_newline by exact Hnl.
  repeat split. exact Hev.
Qed.

Lemma feed_line_aligned now chunks sp :
  outputBuffer sp = [] -> OutputParser.remaining (parser sp) = [] ->
  Forall (fun c => endsWith_nl c = true) chunks ->
  output_events (snd (feed now chunks sp))
  = map (fun e => (e, sessionId sp))
      (fst (OutputParser.parse (OutputParser.new (sessionId sp)) (concat chunks))).
Proof.
  intros Hb Hr Hall. revert sp Hb Hr.
  induction Hall as [|c cs Hc _ IH]; intros sp Hb Hr; [reflexivity|].
  cbn [feed concat].
  destruct (on_stdout_line_aligned now c sp Hb Hr Hc) as (Hb' & Hr' & Hsid & Hev).
  destruct (on_stdout now c sp) as [sp' out] eqn:E1. cbn [fst snd] in *.
  specialize (IH sp' Hb' Hr').
  destruct (feed now cs sp') as [sp'' out'] eqn:E2. cbn [fst snd] in *.
  unfold output_events in *. rewrite omap_app, Hev, IH, Hsid, <- map_app.
  f_equal. rewrite parse_app.
  cbn [fst snd]. f_equal. f_equal.
  assert (Hp : snd (OutputParser.parse (OutputParser.new (sessionId sp)) c)
               = OutputParser.new (sessionId sp)).
  { unfold OutputParser.parse, OutputParser.pop, OutputParser.new.
    cbn [OutputParser.remaining OutputParser.sessionId app snd].
    rewrite split_nl_ends_with_newline by exact Hc. reflexivity. }
  rewrite Hp. reflexivity.
Qed.

(** C1. On the two chunks "Hel" and "lo\n" a running supervisor emits one
    output notification, for the text "HelHello", where the Translator
    fed the concatenation "Hello\n" produces the text "Hello". *)
Theorem supervisor_repeats_unfinished_line (now : nat -> jsstring) (sid : jsstring) :
  output_events (snd (feed now hello_chunks (running_supervisor sid)))
  = [ (OutputParser.ev "text" [("content", PStr (js "HelHello"))], sid) ]
  /\ fst (OutputParser.parse (OutputParser.new sid) (concat hello_chunks))
     = [ OutputParser.ev "text" [("content", PStr (js "Hello"))] ].
Proof. split; vm_compute; reflexivity. Qed.

(** C8. [start()] on a handle that is not running, with the credential
    absent, returns [null] without throwing, emits the one process_error
    notification of the configuration error and leaves the handle as it
    was, not running; [write] on it then throws 'Process not running'. *)
Theorem start_without_credential
  (key : option jsstring) (now : nat -> jsstring) (sp : ProcessSpawner.t) :
  isRunning sp = false ->
  credential_absent key = true ->
  start key now sp
  = Ok (None, sp, [("process_error", ConfigError (sessionId sp) (now 0%nat))])
  /\ isActive sp = false
  /\ (forall input, write input sp = Throw ProcessNotRunning).
Proof.
  intros Hrun Hkey. unfold start, isActive, write. rewrite Hrun, Hkey.
  split; [reflexivity|]. split; [reflexivity|].
  intros input. destruct (process sp); reflexivity.
Qed.

Lemma start_without_credential_witness :
  (isRunning (ProcessSpawner.new (js "s1") None (js "/w")) = false
   /\ credential_absent None = true)
  /\ start None (fun _ => js "t0") (ProcessSpawner.new (js "s1") None (js "/w"))
     = Ok (None, ProcessSpawner.new (js "s1") None (js "/w"),
           [("process_error", ConfigError (js "s1") (js "t0"))])
  /\ (forall input,
        write input (ProcessSpawner.new (js "s1") None (js "/w"))
        = Throw ProcessNotRunning).
Proof.
  split; [split; reflexivity|].
  destruct (start_without_credential None (fun _ => js "t0")
              (ProcessSpawner.new (js "s1") None (js "/w")) eq_refl eq_refl)
    as (Hs & _ & Hw).
  split; [exact Hs | exact Hw].
Defined.

(** With the credential present the same call spawns the child, and
    [write] then reaches its input. *)
Example start_with_credential :
  match start (Some (js "k")) (fun _ => js "t0")
          (ProcessSpawner.new (js "s1") None (js "/w")) with
  | Ok (Some _, sp, []) =>
      isActive sp = true
      /\ exists sp', write (js "hi") sp = Ok sp'
                     /\ option_map stdin (process sp') = Some [js "hi" ++ [0x0A]]
  | _ => False
  end.
Proof. cbn. split; [reflexivity|]. eexists. split; reflexivity. Qed.

End Supervisor.

(** ** The Connection Router *)

Section ConnectionRouter.
Import Router.

(** C10. A message intent whose content is absent, empty or white space
    only gets the one error notification 'Empty message content'; the
    registry, the stored messages, the bound session, the aggregators
    and the effects on processes and timers are as before. *)
Theorem empty_content_rejected
  (e : env) (message : intent) (socket : nat) (userId : jsstring)
  (st : settings) (w : world) :
  content_missing (i_content message) = true ->
  exists w',
    handleUserMessage e message socket userId st w = Ok w'
    /\ sent w' = sent w ++ [WError EmptyMessageContent None]
    /\ manager w' = manager w
    /\ db w' = db w
    /\ currentSessionId w' = currentSessionId w
    /\ messageAggregator w' = messageAggregator w
    /\ listeners w' = listeners w
    /\ effects w' = effects w.
Proof.
  intros Hc. exists (send w (WError EmptyMessageContent None)).
  split; [|repeat split].
  unfold handleUserMessage, checked_content.
  destruct (i_content message) as [| |b|c]; try discriminate Hc.
  - reflexivity.
  - cbn in Hc. cbn [truthy]. unfold is_blank in Hc.
    destruct (negb (str_eqb c [])); [rewrite Hc|]; reflexivity.
Qed.

Lemma empty_content_rejected_witness :
  content_missing (PStr (js "   ")) = true
  /\ exists w',
       handleUserMessage demo_env (intent_with (PStr (js "   "))) 0 (js "u1")
         demo_settings empty_world = Ok w'
       /\ sent w' = [WError EmptyMessageContent None]
       /\ manager w' = SessionManager.new
       /\ db w' = []
       /\ currentSessionId w' = None.
Proof.
  split; [reflexivity|].
  destruct (empty_content_rejected demo_env (intent_with (PStr (js "   "))) 0 (js "u1")
              demo_settings empty_world eq_refl)
    as (w' & Hh & Hs & Hm & Hd & Hc & _).
  exists w'. repeat split; assumption.
Defined.

(** A message with visible text on the same connection opens a session,
    is stored, acknowledged and written to the process. *)
Example visible_content_delivered :
  match handleUserMessage demo_env (intent_with (PStr (js "hi"))) 0 (js "u1")
          demo_settings empty_world with
  | Ok w' =>
      sent w' = [WSessionStarted (js "s1") None (js "/w") (js "t");
                 WMessageReceived (js "s1") (js "t")]
      /\ db w' = [InsertUser (js "s1") (js "hi")]
      /\ currentSessionId w' = Some (js "s1")
      /\ SessionManager.getActiveSessionCount (manager w') (js "u1") = 1%nat
      /\ (SessionManager.activeSessions (manager w') !! js "s1"
            ≫= fun i => ProcessSpawner.process (SessionManager.process i))
         = Some (ProcessSpawner.Child [js "--dangerously-skip-permissions"] (js "/w")
                   [js "hi" ++ [0x0A]] [])
  | Throw _ => False
  end.
Proof. vm_compute. repeat split; reflexivity. Qed.

End ConnectionRouter.

(** ** The Session Registry *)

Section Registry.
Import SessionManager.
#[local] Set Warnings "-clear-no-such-hyp".

Lemma count_sessions_of m u : getActiveSessionCount m u = size (sessions_of m u).
Proof.
  unfold getActiveSessionCount, sessions_of.
  destruct (userSessions m !! u); [reflexivity | symmetry; apply size_empty].
Qed.

(** At the maximum the call throws before anything is awaited or
    registered. *)
Lemma capacity_rejected mx m a db tm :
  Z.of_nat (getActiveSessionCount m (a_userId a)) = mx ->
  startSession_check (Some mx) m a = Throw (MaxSessionsReached (Some mx))
  /\ startSession (Some mx) a db tm m = Throw (MaxSessionsReached (Some mx)).
Proof.
  intros Hc. unfold startSession, startSession_check, canCreateSession.
  rewrite Hc, Z.ltb_irrefl. split; reflexivity.
Qed.

Lemma sessions_after_register a row tm m :
  sessions_of (startSession_register a row tm m).1.1 (a_userId a)
  = sessions_of m (a_userId a) ∪ {[id row]}.
Proof.
  unfold startSession_register, sessions_of. cbn [fst userSessions].
  destruct (userSessions m !! a_userId a) as [S0|] eqn:E.
  - rewrite E. rewrite lookup_insert_eq. reflexivity.
  - rewrite !lookup_insert_eq. reflexivity.
Qed.

Lemma count_after_register a row tm m :
  id row ∉ sessions_of m (a_userId a) ->
  getActiveSessionCount (startSession_register a row tm m).1.1 (a_userId a)
  = S (getActiveSessionCount m (a_userId a)).
Proof.
  intros Hfresh. rewrite !count_sessions_of, sessions_after_register.
  rewrite size_union by set_solver. rewrite size_singleton. lia.
Qed.

Lemma sessions_after_finish p m :
  sessions_of (endSession_finish p m) (userId (e_session p))
  = sessions_of m (userId (e_session p)) ∖ {[e_sessionId p]}.
Proof.
  unfold endSession_finish, sessions_of.
  destruct (userSessions m !! userId (e_session p)) as [S0|] eqn:E; cbn [default].
  - destruct (Nat.eqb_spec (size (S0 ∖ {[e_sessionId p]})) 0) as [Hz|Hnz];
      cbn [userSessions].
    + rewrite lookup_delete_eq. cbn. apply size_empty_inv in Hz.
      apply leibniz_equiv in Hz. rewrite Hz. reflexivity.
    + rewrite lookup_insert_eq. reflexivity.
  - cbn [userSessions]. rewrite E. cbn. set_solver.
Qed.

Lemma endSession_known socket_open s reason m info :
  activeSessions m !! s = Some info ->
  exists m' st eff,
    endSession socket_open s reason true m = Ok (m', Some (s, reason, st), eff)
    /\ sessions_of m' (userId info) = sessions_of m (userId info) ∖ {[s]}
    /\ activeSessions m' !! s = None.
Proof.
  intros Hs. unfold endSession, endSession_begin. rewrite Hs.
  eexists _, _, _. split; [reflexivity|]. split.
  - rewrite (sessions_after_finish (PendingEnd s info reason _)). reflexivity.
  - unfold endSession_finish. cbn [e_sessionId e_session userSessions activeSessions].
    destruct (userSessions m !! userId info) as [S0|];
      [destruct (Nat.eqb _ 0)|]; cbn [activeSessions]; apply lookup_delete_eq.
Qed.

(** Calls that run one after another: at the maximum [startSession]
    throws; once [endSession] has completed on one of the owner's
    sessions, one [startSession] goes through and the next one throws
    again. *)
Lemma end_then_exactly_one_start
  (mx : Z) (m : t) (s reason : jsstring) (info : SessionManager.info)
  (a a2 : start_args) (row : session_row) (tm : nat) (socket_open : nat -> bool) :
  Z.of_nat (getActiveSessionCount m (a_userId a)) = mx ->
  activeSessions m !! s = Some info ->
  userId info = a_userId a ->
  s ∈ sessions_of m (a_userId a) ->
  id row ∉ sessions_of m (a_userId a) ->
  a_userId a2 = a_userId a ->
  (forall db tm', startSession (Some mx) a db tm' m = Throw (MaxSessionsReached (Some mx)))
  /\ exists m1 r1 eff1,
       endSession socket_open s reason true m = Ok (m1, r1, eff1)
       /\ exists m2 out eff2,
            startSession (Some mx) a (Some row) tm m1 = Ok (m2, out, eff2)
            /\ Z.of_nat (getActiveSessionCount m2 (a_userId a)) = mx
            /\ forall db tm',
                 startSession (Some mx) a2 db tm' m2 = Throw (MaxSessionsReached (Some mx)).
Proof.
  intros Hmax Hs Hu Hin Hfresh Hu2.
  split; [intros; apply capacity_rejected, Hmax|].
  destruct (endSession_known socket_open s reason m info Hs) as (m1 & st & eff & He & Hs1 & _).
  rewrite Hu in Hs1.
  assert (Hc1 : getActiveSessionCount m1 (a_userId a)
                = (getActiveSessionCount m (a_userId a) - 1)%nat).
  { rewrite !count_sessions_of, Hs1. rewrite size_difference by set_solver.
    rewrite size_singleton. reflexivity. }
  assert (Hpos : (0 < getActiveSessionCount m (a_userId a))%nat).
  { rewrite count_sessions_of. destruct (size (sessions_of m (a_userId a))) eqn:E; [|lia].
    apply size_empty_inv in E. set_solver. }
  exists m1, (Some (s, reason, st)), eff. split; [exact He|].
  assert (Hfresh1 : id row ∉ sessions_of m1 (a_userId a)) by (rewrite Hs1; set_solver).
  pose proof (count_after_register a row tm m1 Hfresh1) as Hc2.
  destruct (startSession_register a row tm m1) as [[m2 out] eff2] eqn:Hreg.
  cbn [fst] in Hc2.
  exists m2, out, eff2. split; [|split].
  - unfold startSession, startSession_check, canCreateSession.
    rewrite Hc1. destruct (Z.ltb_spec (Z.of_nat (getActiveSessionCount m (a_userId a) - 1)) mx);
      [rewrite Hreg; reflexivity | lia].
  - lia.
  - intros db tm'. apply capacity_rejected. rewrite Hu2. lia.
Qed.

(** C5. With a maximum of one session per owner: at the maximum a start
    is refused with the capacity error and, once the session has been
    ended, started again; but of two [startSession] calls of which the
    second is made while the first awaits the database, both pass the
    capacity check, made before the [await], and both register: two
    further starts succeed and the owner has two active sessions. *)
Theorem overlapping_starts_exceed_maximum :
  let l := run (Some 1%Z) (fun _ => true) overlapping_starts (Loop SessionManager.new [] []) in
  outcomes l = [ (0%nat, Started (row "s0"));
                 (1%nat, Failed (MaxSessionsReached (Some 1%Z)));
                 (2%nat, Ended (Some (js "s0", js "user_ended", js "completed")));
                 (3%nat, Started (row "s1"));
                 (4%nat, Started (row "s2")) ]
  /\ getActiveSessionCount (mgr l) (js "u1") = 2%nat.
Proof. vm_compute. split; reflexivity. Qed.

(** The same calls one after the other: the second of the two further
    starts is refused. *)
Example sequential_starts_respect_maximum :
  let l := run (Some 1%Z) (fun _ => true)
             [ CallStart owner_args; Resume 0 (Created (row "s0") 1);
               CallStart owner_args;
               CallEnd (js "s0") (js "user_ended"); Resume 2 Updated;
               CallStart owner_args; Resume 3 (Created (row "s1") 2);
               CallStart owner_args ]
             (Loop SessionManager.new [] []) in
  outcomes l = [ (0%nat, Started (row "s0"));
                 (1%nat, Failed (MaxSessionsReached (Some 1%Z)));
                 (2%nat, Ended (Some (js "s0", js "user_ended", js "completed")));
                 (3%nat, Started (row "s1"));
                 (4%nat, Failed (MaxSessionsReached (Some 1%Z))) ]
  /\ getActiveSessionCount (mgr l) (js "u1") = 1%nat.
Proof. vm_compute. split; reflexivity. Qed.

End Registry.

(** ** More on the Output Translator *)

Section TranslatorMore.
Import OutputParser.

Lemma split_nl_length (s : jsstring) : length (split_nl s) = S (count_nl s).
Proof.
  unfold count_nl. induction s as [|c s IH]; [reflexivity|].
  cbn [split_nl]. rewrite filter_cons.
  destruct (N.eqb_spec c 10) as [->|Hc].
  - destruct (decide (10 = 10)) as [_|?]; [|congruence]. cbn [length]. rewrite IH. reflexivity.
  - destruct (decide (c = 10)) as [?|_]; [congruence|].
    pose proof (split_nl_nonempty s) as Hne.
    destruct (split_nl s) as [|seg segs]; [congruence|]. exact IH.
Qed.

Lemma count_nl_app (a b : jsstring) : count_nl (a ++ b) = (count_nl a + count_nl b)%nat.
Proof. unfold count_nl. rewrite filter_app, length_app. reflexivity. Qed.

Lemma removelast_length {A} (l : list A) : length (removelast l) = pred (length l).
Proof.
  induction l as [|x [|y l] IH]; [reflexivity | reflexivity |].
  change (removelast (x :: y :: l)) with (x :: removelast (y :: l)).
  cbn [length] in *. rewrite IH. reflexivity.
Qed.

Lemma omap_length_le {A B} (f : A -> option B) (l : list A) :
  (length (omap f l) <= length l)%nat.
Proof.
  induction l as [|x l IH]; [reflexivity|]. cbn. destruct (f x); cbn; lia.
Qed.

(** X1. [parse] produces at most one event per line the text completes, and
    what it keeps holds no newline. *)
Theorem parse_events_bounded (p : OutputParser.t) (buffer : jsstring) :
  (length (fst (parse p buffer)) <= count_nl (remaining p) + count_nl buffer)%nat
  /\ count_nl (remaining (snd (parse p buffer))) = 0%nat.
Proof.
  split.
  - unfold parse, pop. cbn [fst].
    etransitivity; [apply omap_length_le|].
    rewrite removelast_length, split_nl_length, count_nl_app. reflexivity.
  - pose proof (parse_remaining_no_newline p buffer) as H.
    unfold count_nl. induction H as [|c s Hc _ IH]; [reflexivity|].
    rewrite filter_cons. destruct (decide (c = 10)); [contradiction | exact IH].
Qed.

Lemma count_nl_0 (s : jsstring) : count_nl s = 0%nat -> Forall (fun c => c <> 0x0A) s.
Proof.
  unfold count_nl. induction s as [|c s IH]; [constructor|].
  rewrite filter_cons. destruct (decide (c = 10)); [discriminate|].
  intros H. constructor; auto.
Qed.

(** X2. Text without a newline produces no event: it is appended to what the
    parser keeps. *)
Theorem parse_keeps_unfinished_line (p : OutputParser.t) (buffer : jsstring) :
  count_nl (remaining p) = 0%nat -> count_nl buffer = 0%nat ->
  parse p buffer = ([], Parser (sessionId p) (remaining p ++ buffer)).
Proof.
  intros Hr Hb. unfold parse, pop.
  rewrite split_nl_no_newline; [reflexivity|].
  apply Forall_app. split; apply count_nl_0; assumption.
Qed.

Lemma parse_keeps_unfinished_line_witness :
  (count_nl (remaining (Parser (js "s1") (js "Hel"))) = 0%nat /\ count_nl (js "lo") = 0%nat)
  /\ parse (Parser (js "s1") (js "Hel")) (js "lo") = ([], Parser (js "s1") (js "Hello")).
Proof.
  split; [split; reflexivity|].
  apply (parse_keeps_unfinished_line (Parser (js "s1") (js "Hel")) (js "lo")); reflexivity.
Defined.

(** The first four rules open with a marker, "Error:" or a verb: a line
    that opens with another character passes them. *)
Lemma first_rules_pass (c : N) (rest : jsstring) :
  c <> 0xE2 -> c <> 0x45 -> c <> 0x57 -> c <> 0x52 ->
  exec toolCall_re (c :: rest) = None
  /\ exec toolSuccess_re (c :: rest) = None
  /\ exec toolError_re (c :: rest) = None
  /\ exec filePath_re (c :: rest) = None.
Proof.
  intros H1 H2 H3 H4.
  assert (Hh : forall x p, x <> c -> strip_prefix (x :: p) (c :: rest) = None).
  { intros x p Hx. cbn. apply N.eqb_neq in Hx. rewrite Hx. reflexivity. }
  repeat split.
  - unfold toolCall_re. cbn [seqs]. apply exec_markers_none; [discriminate|].
    unfold tool_call_markers. repeat constructor; apply Hh; congruence.
  - unfold toolSuccess_re. cbn [seqs]. apply exec_markers_none; [discriminate|].
    unfold success_markers. repeat constructor; apply Hh; congruence.
  - unfold toolError_re. cbn [seqs].
    change (map Lit failure_markers ++ [Lit (js "Error:")])
      with (map Lit (failure_markers ++ [js "Error:"])).
    apply exec_markers_none; [discriminate|].
    unfold failure_markers. cbn [app]. change (js "Error:") with (0x45 :: js "rror:").
    repeat constructor; apply Hh; congruence.
  - unfold filePath_re. cbn [seqs].
    change [Lit (js "Editing"); Lit (js "Writing"); Lit (js "Reading")]
      with (map Lit [0x45 :: js "diting"; 0x57 :: js "riting"; 0x52 :: js "eading"]).
    apply exec_markers_none; [discriminate|].
    repeat constructor; apply Hh; congruence.
Qed.

Lemma startsWith_cons_inv (line : jsstring) (c : N) :
  startsWith line [c] = true -> exists rest, line = c :: rest.
Proof.
  unfold startsWith. destruct line as [|x rest]; [discriminate|]. cbn.
  destruct (N.eqb_spec c x) as [->|]; [eauto | discriminate].
Qed.

(** X3. A line that opens with "+" but not with "+++" is an added diff line,
    and one that opens with "-" but not with "---" a removed one, whatever
    follows; the content is the line without its first character. *)
Theorem diff_lines (line : jsstring) :
  (startsWith line (js "+") = true /\ startsWith line (js "+++") = false
   -> _parseLine line = Some (ev "diff_add" [("content", PStr (substring1 line))]))
  /\ (startsWith line (js "-") = true /\ startsWith line (js "---") = false
      -> _parseLine line = Some (ev "diff_remove" [("content", PStr (substring1 line))])).
Proof.
  split; intros [H1 H3].
  - destruct (startsWith_cons_inv line 0x2B H1) as [rest ->].
    destruct (first_rules_pass 0x2B rest) as (E1 & E2 & E3 & E4); try discriminate.
    unfold _parseLine. rewrite E1, E2, E3, E4, H1, H3. reflexivity.
  - destruct (startsWith_cons_inv line 0x2D H1) as [rest ->].
    destruct (first_rules_pass 0x2D rest) as (E1 & E2 & E3 & E4); try discriminate.
    unfold _parseLine. rewrite E1, E2, E3, E4, H1, H3.
    change (startsWith (0x2D :: rest) (js "+")) with false. reflexivity.
Qed.

Lemma diff_lines_witness :
  (startsWith (js "++ x") (js "+") = true /\ startsWith (js "++ x") (js "+++") = false)
  /\ _parseLine (js "++ x") = Some (ev "diff_add" [("content", PStr (js "+ x"))])
  /\ _parseLine (js "-- Error: tokens 5")
     = Some (ev "diff_remove" [("content", PStr (js "- Error: tokens 5"))]).
Proof.
  split; [split; reflexivity|]. split.
  - exact (proj1 (diff_lines (js "++ x")) (conj eq_refl eq_refl)).
  - exact (proj2 (diff_lines (js "-- Error: tokens 5")) (conj eq_refl eq_refl)).
Defined.

(** X4. Every event of the Translator has one of nine types, never error or
    session_end, and defined data; a text event carries the whole line. *)
Theorem parseLine_event_types (line : jsstring) (e : event) :
  _parseLine line = Some e ->
  event_type e ∈ parser_types
  /\ is_Some (data e)
  /\ (event_type e = js "text" -> data e = Some (fields [("content", PStr line)])).
Proof.
  unfold _parseLine, parser_types.
  repeat match goal with
         | |- context [match exec ?r line with _ => _ end] => destruct (exec r line)
         | |- context [if ?b then _ else _] => destruct b
         end;
    intros [= <-]; (split; [|split; [eexists; reflexivity|]]);
    cbn [event_type ev data];
    try (intros Habs; vm_compute in Habs; discriminate Habs);
    try reflexivity;
    repeat (first [apply list_elem_of_here | apply list_elem_of_further]).
Qed.

Lemma parseLine_event_types_witness :
  _parseLine (js "Hello") = Some (ev "text" [("content", PStr (js "Hello"))])
  /\ (event_type (ev "text" [("content", PStr (js "Hello"))]) ∈ parser_types).
Proof.
  split; [vm_compute; reflexivity|].
  exact (proj1 (parseLine_event_types (js "Hello") _ eq_refl)).
Defined.

End TranslatorMore.

Section MarkedLines.
Import OutputParser.

(** Greedy [\s*] before a continuation that accepts what is left after
    the leading white space takes all of it. *)
Lemma star_trimStart (k : jsstring -> option captures) (s : jsstring) :
  is_Some (k (trimStart s)) -> star is_space s k = k (trimStart s).
Proof.
  induction s as [|c s IH]; [reflexivity|]. cbn [star trimStart].
  destruct (is_space c); [|reflexivity].
  intros Hs. rewrite (IH Hs). destruct Hs as [r ->]. reflexivity.
Qed.

Lemma take_all_minus_nil (s : jsstring) : take (length s - length (@nil N)) s = s.
Proof. cbn [length]. rewrite Nat.sub_0_r. apply firstn_all. Qed.

Lemma trimStart_dot (s : jsstring) :
  Forall (fun c => is_dot c = true) s -> Forall (fun c => is_dot c = true) (trimStart s).
Proof.
  induction 1 as [|c s Hc Hall IH]; [constructor|]. cbn [trimStart].
  destruct (is_space c); [exact IH | constructor; assumption].
Qed.

(** [\s* ( .* ) $] on a rest without line terminator: the group is the
    rest without its leading white space. *)
Lemma m_space_rest (n : nat) (s : jsstring) :
  Forall (fun c => is_dot c = true) s ->
  m n (seqs [Star is_space; Group 1 (Star is_dot); Eol]) s ∅ accept
  = Some (<[1%nat := trimStart s]> ∅).
Proof.
  intros Hdot. cbn [seqs m].
  assert (E : star is_dot (trimStart s)
                (fun s' => match s' with
                           | [] => accept s' (<[1%nat := take (length (trimStart s) - length s')
                                                          (trimStart s)]> ∅)
                           | _ :: _ => None
                           end)
              = Some (<[1%nat := trimStart s]> ∅)).
  { rewrite star_all; [|apply trimStart_dot, Hdot | eexists; reflexivity].
    unfold accept. rewrite take_all_minus_nil. reflexivity. }
  rewrite star_trimStart; [exact E | rewrite E; eexists; reflexivity].
Qed.

(** [\s* ( .+ ) $] likewise, when something is left after the white space. *)
Lemma m_space_rest1 (n : nat) (s : jsstring) :
  Forall (fun c => is_dot c = true) s -> trimStart s <> [] ->
  m n (seqs [Star is_space; Group 1 (Plus is_dot); Eol]) s ∅ accept
  = Some (<[1%nat := trimStart s]> ∅).
Proof.
  intros Hdot Hne. cbn [seqs m].
  assert (E : match trimStart s with
              | c :: s' =>
                  if is_dot c
                  then star is_dot s'
                         (fun s'' => match s'' with
                                     | [] => accept s'' (<[1%nat := take (length (trimStart s)
                                                                          - length s'')
                                                                     (trimStart s)]> ∅)
                                     | _ :: _ => None
                                     end)
                  else None
              | [] => None
              end = Some (<[1%nat := trimStart s]> ∅)).
  { pose proof (trimStart_dot s Hdot) as Hd.
    destruct (trimStart s) as [|c s'] eqn:Et; [congruence|].
    inversion Hd as [|? ? Hc Hs']; subst. rewrite Hc.
    rewrite star_all; [|exact Hs' | eexists; reflexivity].
    unfold accept. rewrite take_all_minus_nil. reflexivity. }
  rewrite star_trimStart; [exact E | rewrite E; eexists; reflexivity].
Qed.

Lemma strip_prefix_app (p s : jsstring) : strip_prefix p (p ++ s) = Some s.
Proof. induction p as [|x p IH]; [reflexivity|]. cbn. rewrite N.eqb_refl. exact IH. Qed.

Lemma group_insert (i : nat) (s : jsstring) : group (<[i := s]> ∅) i = PStr s.
Proof. unfold group. rewrite lookup_insert_eq. reflexivity. Qed.

(** X5. A line that opens with "Error:" is a failed tool result whatever
    follows, as long as no line terminator does; the result is what follows
    without its leading white space. *)
Theorem error_prefix_line (tail : jsstring) :
  Forall (fun c => is_dot c = true) tail ->
  _parseLine (js "Error:" ++ tail)
  = Some (ev "tool_result" [("result", PStr (trimStart tail)); ("success", PBool false)]).
Proof.
  intros Hdot.
  assert (E1 : exec toolCall_re (js "Error:" ++ tail) = None).
  { unfold toolCall_re. cbn [seqs]. apply exec_markers_none; [discriminate|].
    repeat constructor; reflexivity. }
  assert (E2 : exec toolSuccess_re (js "Error:" ++ tail) = None).
  { unfold toolSuccess_re. cbn [seqs]. apply exec_markers_none; [discriminate|].
    repeat constructor; reflexivity. }
  assert (E3 : exec toolError_re (js "Error:" ++ tail) = Some (<[1%nat := trimStart tail]> ∅)).
  { unfold toolError_re. cbn [seqs]. rewrite exec_bol.
    pose proof (m_space_rest (length (js "Error:" ++ tail)) tail Hdot) as Hm.
    cbn [seqs] in Hm. unfold failure_markers. cbn [map app alts].
    cbn [m]. change (strip_prefix [0xE2; 0x153; 0x2014] (js "Error:" ++ tail)) with (@None jsstring).
    change (strip_prefix [0xE2; 0x153; 0x2DC] (js "Error:" ++ tail)) with (@None jsstring).
    change (strip_prefix [0xE2; 0x152] (js "Error:" ++ tail)) with (@None jsstring).
    rewrite strip_prefix_app. cbn [m] in Hm. exact Hm. }
  unfold _parseLine. rewrite E1, E2, E3, group_insert. reflexivity.
Qed.

Lemma error_prefix_line_witness :
  Forall (fun c => is_dot c = true) (js "  tokens 5 ")
  /\ _parseLine (js "Error:  tokens 5 ")
     = Some (ev "tool_result" [("result", PStr (js "tokens 5 ")); ("success", PBool false)]).
Proof.
  split; [repeat constructor|].
  apply (error_prefix_line (js "  tokens 5 ")). repeat constructor.
Defined.

(** X6. A line that opens with "$" or ">" is a command whatever follows, as
    long as no line terminator does and something other than white space
    does; the command is what follows without its leading white space. *)
Theorem prompt_line (c : N) (tail : jsstring) :
  c = 0x24 \/ c = 0x3E ->
  Forall (fun x => is_dot x = true) tail -> trimStart tail <> [] ->
  _parseLine (c :: tail)
  = Some (ev "bash_command" [("command", PStr (trimStart tail));
                             ("status", PStr (js "started"))]).
Proof.
  intros Hc Hdot Hne.
  destruct (first_rules_pass c tail) as (E1 & E2 & E3 & E4);
    try (destruct Hc as [-> | ->]; discriminate).
  assert (E5 : exec bash_re (c :: tail) = Some (<[1%nat := trimStart tail]> ∅)).
  { unfold bash_re. cbn [seqs]. rewrite exec_bol.
    pose proof (m_space_rest1 (length (c :: tail)) tail Hdot Hne) as Hm.
    cbn [seqs] in Hm. cbn [alts]. cbn [m] in Hm.
    destruct Hc as [-> | ->].
    - cbn [m]. change (js "$") with [0x24]. cbn [strip_prefix]. rewrite N.eqb_refl, Hm. reflexivity.
    - cbn [m]. change (js "$") with [0x24]. change (js ">") with [0x3E].
      unfold prompt_marker. cbn [strip_prefix].
      change (0x24 =? 0x3E) with false. change (0xE2 =? 0x3E) with false. cbv iota.
      rewrite N.eqb_refl. exact Hm. }
  unfold _parseLine. rewrite E1, E2, E3, E4.
  replace (startsWith (c :: tail) (js "+")) with false
    by (destruct Hc as [-> | ->]; reflexivity).
  replace (startsWith (c :: tail) (js "-")) with false
    by (destruct Hc as [-> | ->]; reflexivity).
  cbn [andb]. rewrite E5, group_insert. reflexivity.
Qed.

Lemma prompt_line_witness :
  (0x3E = 0x24 \/ 0x3E = 0x3E)
  /\ _parseLine (js "> quoted text")
     = Some (ev "bash_command" [("command", PStr (js "quoted text"));
                                ("status", PStr (js "started"))]).
Proof.
  split; [right; reflexivity|].
  apply (prompt_line 0x3E (js " quoted text")).
  - right; reflexivity.
  - repeat constructor.
  - discriminate.
Defined.

End MarkedLines.

Section UsageLines.
Import OutputParser.

Lemma search_suffix (n : nat) (r : regex) (pre s : jsstring) :
  is_Some (m n r s ∅ accept) -> is_Some (search n r (pre ++ s)).
Proof.
  intros Hs. induction pre as [|c pre IH].
  - destruct s; cbn [app search]; destruct Hs as [x ->]; eexists; reflexivity.
  - cbn [app search]. destruct (m n r (c :: pre ++ s) ∅ accept); [eexists; reflexivity|].
    exact IH.
Qed.

Lemma strip_prefix_ci_app (p w s : jsstring) :
  map canon w = map canon p -> strip_prefix_ci p (w ++ s) = Some s.
Proof.
  revert w. induction p as [|x p IH]; intros [|y w] E; try discriminate; [reflexivity|].
  cbn in E. injection E as E1 E2. cbn. rewrite E1, N.eqb_refl. apply IH, E2.
Qed.

Lemma star_lazy_reaches (p : N -> bool) (mid s : jsstring) (k : jsstring -> option captures) :
  Forall (fun c => p c = true) mid -> is_Some (k s) -> is_Some (star_lazy p (mid ++ s) k).
Proof.
  intros Hall Hs. induction Hall as [|c mid Hc _ IH].
  - destruct s; cbn [app star_lazy]; destruct Hs as [x ->]; eexists; reflexivity.
  - cbn [app star_lazy]. destruct (k (c :: mid ++ s)); [eexists; reflexivity|].
    rewrite Hc. exact IH.
Qed.

Lemma star_total (p : N -> bool) (s : jsstring) (k : jsstring -> option captures) :
  (forall s', is_Some (k s')) -> is_Some (star p s k).
Proof.
  intros Hk. induction s as [|c s IH]; cbn [star]; [apply Hk|].
  destruct (p c); [|apply Hk].
  destruct IH as [x ->]. eexists; reflexivity.
Qed.

Lemma m_opt_some (n : nat) (r : regex) (s : jsstring) (caps : captures) (k : cont) :
  is_Some (k s caps) -> is_Some (m n (Opt r) s caps k).
Proof. intros Hk. cbn [m]. destruct (m n r s caps k); [eexists; reflexivity | exact Hk]. Qed.

Lemma m_alt_l (n : nat) (r1 r2 : regex) (s : jsstring) (caps : captures) (k : cont) :
  is_Some (m n r1 s caps k) -> is_Some (m n (Alt r1 r2) s caps k).
Proof. intros [x Hx]. cbn [m]. rewrite Hx. eexists; reflexivity. Qed.

Lemma m_alt_r (n : nat) (r1 r2 : regex) (s : jsstring) (caps : captures) (k : cont) :
  is_Some (m n r2 s caps k) -> is_Some (m n (Alt r1 r2) s caps k).
Proof. intros Hk. cbn [m]. destruct (m n r1 s caps k); [eexists; reflexivity | exact Hk]. Qed.

Lemma m_liti (n : nat) (l s s' : jsstring) (caps : captures) (k : cont) :
  strip_prefix_ci l s = Some s' -> m n (LitI l) s caps k = k s' caps.
Proof. intros E. cbn [m]. rewrite E. reflexivity. Qed.

(** The cost pattern finds a match in every line that holds the word
    cost or token, in either case, and a digit somewhere after it on the
    same line. *)
Lemma cost_found (pre w mid post : jsstring) (d : N) :
  map canon w = js "COST" \/ map canon w = js "TOKEN" ->
  Forall (fun c => is_dot c = true) mid -> is_digit d = true ->
  is_Some (exec cost_re (pre ++ w ++ mid ++ d :: post)).
Proof.
  intros Hw Hmid Hd. unfold exec. apply search_suffix.
  unfold cost_re. cbn [seqs alts].
  set (num := Group 1 _). set (n := length _).
  assert (Hrest : is_Some (m n (Seq (StarLazy is_dot) num) (mid ++ d :: post) ∅ accept)).
  { cbn [m]. apply star_lazy_reaches; [exact Hmid|].
    subst num. cbn [m]. rewrite Hd. apply star_total. intros s'.
    match goal with |- is_Some (match ?x with _ => _ end) => destruct x end;
      eexists; reflexivity. }
  change (is_Some (m n (Alt (Seq (LitI (js "token")) (Opt (LitI (js "s")))) (LitI (js "cost")))
                     (w ++ mid ++ d :: post) ∅
                     (fun s' caps' => m n (Seq (StarLazy is_dot) num) s' caps' accept))).
  destruct Hw as [Hw | Hw].
  - apply m_alt_r. cbn [m]. rewrite (strip_prefix_ci_app (js "cost") w) by exact Hw.
    exact Hrest.
  - apply m_alt_l.
    change (is_Some (m n (LitI (js "token")) (w ++ mid ++ d :: post) ∅
                       (fun s' caps' => m n (Opt (LitI (js "s"))) s' caps'
                          (fun s'' caps'' => m n (Seq (StarLazy is_dot) num) s'' caps'' accept)))).
    rewrite (m_liti n (js "token") _ (mid ++ d :: post))
      by (apply strip_prefix_ci_app; exact Hw).
    apply m_opt_some. exact Hrest.
Qed.

(** X7. A line of prose that mentions cost or token, in either case, and has
    a digit after it is a usage event, not text: the line opens with none
    of the markers of the earlier rules and has no line terminator between
    the word and the digit. *)
Theorem prose_with_cost_is_usage (pre w mid post : jsstring) (d : N) :
  let line := pre ++ w ++ mid ++ d :: post in
  map canon w = js "COST" \/ map canon w = js "TOKEN" ->
  Forall (fun c => is_dot c = true) mid -> is_digit d = true ->
  Forall (fun l => strip_prefix l line = None) opening_literals ->
  startsWith line (js "-") = false ->
  _parseLine line = Some (ev "usage" [("raw", PStr line)]).
Proof.
  intros line Hw Hmid Hd Hopen Hminus.
  pose proof (cost_found pre w mid post d Hw Hmid Hd) as [caps Hcost].
  fold line in Hcost.
  unfold opening_literals in Hopen. rewrite !Forall_app in Hopen.
  destruct Hopen as (Hcall & Hsucc & Hfail & Hfile & Hplus & Hbash & Hthink).
  unfold _parseLine.
  assert (E1 : exec toolCall_re line = None).
  { unfold toolCall_re. cbn [seqs]. apply exec_markers_none; [discriminate | exact Hcall]. }
  assert (E2 : exec toolSuccess_re line = None).
  { unfold toolSuccess_re. cbn [seqs]. apply exec_markers_none; [discriminate | exact Hsucc]. }
  assert (E3 : exec toolError_re line = None).
  { unfold toolError_re. cbn [seqs].
    change (map Lit failure_markers ++ [Lit (js "Error:")])
      with (map Lit (failure_markers ++ [js "Error:"])).
    apply exec_markers_none; [discriminate | apply Forall_app; exact Hfail]. }
  assert (E4 : exec filePath_re line = None).
  { unfold filePath_re. cbn [seqs].
    change [Lit (js "Editing"); Lit (js "Writing"); Lit (js "Reading")]
      with (map Lit [js "Editing"; js "Writing"; js "Reading"]).
    apply exec_markers_none; [discriminate | exact Hfile]. }
  assert (E5 : exec bash_re line = None).
  { unfold bash_re. cbn [seqs].
    change [Lit (js "$"); Lit prompt_marker; Lit (js ">")]
      with (map Lit [js "$"; prompt_marker; js ">"]).
    apply exec_markers_none; [discriminate | exact Hbash]. }
  assert (E6 : exec thinking_re line = None).
  { unfold thinking_re. cbn [seqs].
    change (Lit (js "Thinking") :: map Lit thought_markers)
      with (map Lit (js "Thinking" :: thought_markers)).
    apply exec_markers_none; [discriminate | exact Hthink]. }
  rewrite E1, E2, E3, E4.
  inversion Hplus as [|? ? Hp _]; subst.
  rewrite (startsWith_false line (js "+") Hp), Hminus. cbn [andb].
  rewrite E5, E6, Hcost. reflexivity.
Qed.

Lemma prose_with_cost_is_usage_witness :
  _parseLine (js "The Cost of 3 apples")
  = Some (ev "usage" [("raw", PStr (js "The Cost of 3 apples"))]).
Proof.
  apply (prose_with_cost_is_usage (js "The ") (js "Cost") (js " of ") (js " apples") 0x33).
  - left; reflexivity.
  - repeat constructor.
  - reflexivity.
  - unfold opening_literals. cbn [app]. repeat constructor.
  - reflexivity.
Defined.

End UsageLines.

(** ** More on the Message Aggregator *)

Section Shape.
Import MessageAggregator.

Lemma keeps_refl h : keeps h h.
Proof. intros l. split; [intros items E; exists items; exact E | intros f E; exists f; auto]. Qed.

Lemma keeps_trans h1 h2 h3 : keeps h1 h2 -> keeps h2 h3 -> keeps h1 h3.
Proof.
  intros H12 H23 l. split.
  - intros items E. destruct (proj1 (H12 l) _ E) as [items' E'].
    exact (proj1 (H23 l) _ E').
  - intros f E. destruct (proj2 (H12 l) _ E) as (f' & E' & Ha & Hr).
    destruct (proj2 (H23 l) _ E') as (f'' & E'' & Ha' & Hr').
    exists f''. split; [exact E''|]. split; congruence.
Qed.

Lemma keeps_alloc h o : keeps h (h ++ [o]).
Proof.
  intros l. split.
  - intros items E. exists items. apply lookup_app_l_Some, E.
  - intros f E. exists f. split; [apply lookup_app_l_Some, E | auto].
Qed.

Lemma keeps_push h l items v :
  h !! l = Some (Arr items) -> keeps h (<[l := Arr (items ++ [v])]> h).
Proof.
  intros Hl l'. pose proof (lookup_lt_Some _ _ _ Hl) as Hlt.
  destruct (decide (l' = l)) as [->|Hne].
  - split.
    + intros _ _. eexists. apply list_lookup_insert_eq. exact Hlt.
    + intros f E. congruence.
  - split.
    + intros items' E. exists items'. rewrite list_lookup_insert_ne by congruence. exact E.
    + intros f E. exists f. rewrite list_lookup_insert_ne by congruence. auto.
Qed.

Lemma keeps_set_field h l f k v :
  h !! l = Some (Obj f) -> k <> "additions" -> k <> "removals" ->
  keeps h (<[l := Obj (<[k := v]> f)]> h).
Proof.
  intros Hl Ha Hr l'. pose proof (lookup_lt_Some _ _ _ Hl) as Hlt.
  destruct (decide (l' = l)) as [->|Hne].
  - split.
    + intros items E. congruence.
    + intros f0 E. assert (f0 = f) by congruence. subst f0.
      eexists. split; [apply list_lookup_insert_eq; exact Hlt|].
      rewrite !lookup_insert_ne by congruence. auto.
  - split.
    + intros items' E. exists items'. rewrite list_lookup_insert_ne by congruence. exact E.
    + intros f0 E. exists f0. rewrite list_lookup_insert_ne by congruence. auto.
Qed.

Lemma is_arr_keeps h h' l : keeps h h' -> is_arr h l -> is_arr h' l.
Proof. intros Hk [items E]. exact (proj1 (Hk l) _ E). Qed.

Lemma is_obj_keeps h h' l :
  keeps h h' -> (exists f, h !! l = Some (Obj f)) -> exists f, h' !! l = Some (Obj f).
Proof. intros Hk [f E]. destruct (proj2 (Hk l) _ E) as (f' & E' & _). eauto. Qed.

Lemma is_file_record_keeps h h' m l :
  keeps h h' -> is_file_record h m l -> is_file_record h' m l.
Proof.
  intros Hk (f & ad & rm & E & Ea & Er & Had & Hrm & Nad & Nrm).
  destruct (proj2 (Hk l) _ E) as (f' & E' & Ea' & Er').
  exists f', ad, rm. repeat split; try assumption; try congruence.
  - eapply is_arr_keeps; eassumption.
  - eapply is_arr_keeps; eassumption.
Qed.

Lemma is_arr_lt h l : is_arr h l -> (l < length h)%nat.
Proof. intros [items E]. exact (lookup_lt_Some _ _ _ E). Qed.

Lemma arr_len_alloc h o l : is_arr h l -> arr_len (h ++ [o]) l = arr_len h l.
Proof. intros [items E]. unfold arr_len. rewrite (lookup_app_l_Some _ _ _ _ E), E. reflexivity. Qed.

Lemma arr_len_push h l items v l0 :
  h !! l = Some (Arr items) ->
  arr_len (<[l := Arr (items ++ [v])]> h) l0
  = (arr_len h l0 + (if decide (l0 = l) then 1 else 0))%nat.
Proof.
  intros Hl. pose proof (lookup_lt_Some _ _ _ Hl) as Hlt. unfold arr_len.
  destruct (decide (l0 = l)) as [->|Hne].
  - rewrite list_lookup_insert_eq by exact Hlt. rewrite Hl, length_app. reflexivity.
  - rewrite list_lookup_insert_ne by congruence. lia.
Qed.

Lemma arr_len_set_field h l f f' l0 :
  h !! l = Some (Obj f) -> is_arr h l0 ->
  arr_len (<[l := Obj f']> h) l0 = arr_len h l0.
Proof.
  intros Hl [items E]. unfold arr_len.
  rewrite list_lookup_insert_ne by congruence. reflexivity.
Qed.

Lemma push_arr h l v :
  is_arr h l ->
  exists items, h !! l = Some (Arr items)
                /\ push l v h = Ok (tt, <[l := Arr (items ++ [v])]> h).
Proof. intros [items E]. exists items. unfold push. rewrite E. auto. Qed.

Lemma lookup_new (h : heap) (o : obj) : (h ++ [o]) !! length h = Some o.
Proof. apply list_lookup_middle. reflexivity. Qed.

Lemma shape_intro h m ct cf cb :
  Forall (is_arr h) (lists m) -> NoDup (lists m) ->
  (forall l, ct = Some l -> exists f, h !! l = Some (Obj f)) ->
  (forall l, cf = Some l -> is_file_record h m l) ->
  shape h (Agg m ct cf cb).
Proof. intros. split; [|split; [|split]]; assumption. Qed.

Lemma lists_keeps h h' m : keeps h h' -> Forall (is_arr h) (lists m) -> Forall (is_arr h') (lists m).
Proof. intros Hk H. eapply Forall_impl; [exact H|]. intros l. apply is_arr_keeps, Hk. Qed.

(** Pushing a freshly allocated record onto one of the five lists. *)
Lemma push_new_record h m o l :
  Forall (is_arr h) (lists m) -> l ∈ lists m ->
  exists h',
    (let* r := alloc o in do push l (VRef r) in ret r) h = Ok (length h, h')
    /\ keeps h h'
    /\ h' !! length h = Some o
    /\ arr_len h' (tool_calls m)
       = (arr_len h (tool_calls m) + (if decide (tool_calls m = l) then 1 else 0))%nat.
Proof.
  intros Hl Hin.
  assert (Harr : is_arr h l) by exact (proj1 (Forall_forall _ _) Hl l Hin).
  assert (Htc : is_arr h (tool_calls m)).
  { apply (proj1 (Forall_forall _ _) Hl). unfold lists. apply list_elem_of_here. }
  pose proof (is_arr_keeps _ _ _ (keeps_alloc h o) Harr) as Harr1.
  destruct (push_arr (h ++ [o]) l (VRef (length h)) Harr1) as (items & E & Hp).
  eexists. unfold bind, alloc, ret. rewrite Hp. split; [reflexivity|].
  split; [|split].
  - eapply keeps_trans; [apply keeps_alloc | apply keeps_push, E].
  - rewrite list_lookup_insert_ne; [apply lookup_new|].
    apply is_arr_lt in Harr. lia.
  - rewrite (arr_len_push _ _ _ _ _ E), arr_len_alloc by exact Htc. reflexivity.
Qed.

Lemma in_lists m :
  tool_calls m ∈ lists m /\ file_changes m ∈ lists m /\ bash_commands m ∈ lists m
  /\ errors m ∈ lists m /\ thinking m ∈ lists m.
Proof. unfold lists. repeat split; set_solver. Qed.

Lemma lists_distinct m :
  NoDup (lists m) ->
  tool_calls m <> file_changes m /\ tool_calls m <> bash_commands m
  /\ tool_calls m <> errors m /\ tool_calls m <> thinking m.
Proof.
  unfold lists. intros H. apply NoDup_cons in H as [H _].
  repeat split; intros E; apply H; rewrite E; set_solver.
Qed.


(** One event with defined data on an aggregator of the right layout:
    [addEvent] returns, keeps the layout and the five lists, and the
    tool_calls array grows by one exactly on a tool_call. *)
Lemma addEvent_forward et d a h :
  shape h a ->
  exists a' h',
    addEvent (Event et (Some d)) a h = Ok (a', h')
    /\ shape h' a'
    /\ lists (currentMessage a') = lists (currentMessage a)
    /\ arr_len h' (tool_calls (currentMessage a'))
       = (arr_len h (tool_calls (currentMessage a))
          + (if str_eqb et (js "tool_call") then 1 else 0))%nat.
Proof.
  intros (Hl & Hnd & Ht & Hf).
  destruct a as [msg ct cf cb]. cbn [currentMessage currentTool currentFile] in *.
  destruct (in_lists msg) as (Itc & Ifc & Ibc & Ier & Ith).
  destruct (lists_distinct msg Hnd) as (Dfc & Dbc & Der & Dth).
  assert (Htc : is_arr h (tool_calls msg)) by exact (proj1 (Forall_forall _ _) Hl _ Itc).
  unfold addEvent. cbn [event_type data currentMessage currentTool currentFile currentBash].
  destruct (str_eqb et (js "text")) eqn:E1.
  { apply str_eqb_eq in E1; subst et. eexists _, _. split; [reflexivity|].
    split; [apply shape_intro; assumption|]. split; [reflexivity|].
    change (str_eqb (js "text") (js "tool_call")) with false.
    cbn [currentMessage set_content tool_calls]. lia. }
  destruct (str_eqb et (js "tool_call")) eqn:E2.
  { destruct (push_new_record h msg
                (record [("name", VPrim (prop d "tool_name"));
                         ("parameters", VPrim (prop d "parameters"));
                         ("status", VPrim (prop d "status"));
                         ("result", VPrim PNull)]) (tool_calls msg) Hl Itc)
      as (h' & Hrun & Hk & Hnew & Hlen).
    exists (Agg msg (Some (length h)) cf cb), h'.
    unfold bind, field, ret in *.
    split.
    { destruct (alloc _ h) as [[r h1]|]; [|discriminate].
      destruct (push _ _ h1) as [[u h2]|]; [|discriminate].
      injection Hrun as -> ->. reflexivity. }
    split; [|split; [reflexivity|]].
    - apply shape_intro; [eapply lists_keeps; eassumption | assumption | |].
      + intros l [= <-]. eexists. exact Hnew.
      + intros l E. eapply is_file_record_keeps; [exact Hk | apply Hf, E].
    - cbn [currentMessage]. rewrite Hlen. destruct (decide _); [reflexivity | congruence]. }
  destruct (str_eqb et (js "tool_result")) eqn:E3.
  { destruct ct as [l|].
    - destruct (Ht l eq_refl) as [f Hlf].
      pose proof (lookup_lt_Some _ _ _ Hlf) as Hlt.
      set (f1 := <["result" := VPrim (prop d "result")]> f).
      set (h1 := <[l := Obj f1]> h).
      assert (Hlf1 : h1 !! l = Some (Obj f1)) by (apply list_lookup_insert_eq; exact Hlt).
      set (f2 := <["success" := VPrim (prop d "success")]> f1).
      set (h2 := <[l := Obj f2]> h1).
      assert (Hk1 : keeps h h1) by (apply keeps_set_field; [exact Hlf | discriminate..]).
      assert (Hk2 : keeps h1 h2) by (apply keeps_set_field; [exact Hlf1 | discriminate..]).
      pose proof (keeps_trans _ _ _ Hk1 Hk2) as Hk.
      exists (Agg msg None cf cb), h2. split.
      { unfold bind, field, ret, set_field. rewrite Hlf. fold f1 h1. rewrite Hlf1. reflexivity. }
      split; [|split; [reflexivity|]].
      + apply shape_intro; [eapply lists_keeps; eassumption | assumption | discriminate |].
        intros l' E. eapply is_file_record_keeps; [exact Hk | apply Hf, E].
      + cbn [currentMessage]. unfold h2.
        rewrite (arr_len_set_field h1 l f1) by (try exact Hlf1; eapply is_arr_keeps; eassumption).
        unfold h1. rewrite (arr_len_set_field h l f) by assumption. lia.
    - exists (Agg msg None cf cb), h. split; [reflexivity|].
      split; [apply shape_intro; assumption|]. split; [reflexivity|].
      cbn [currentMessage]. lia. }
  destruct (str_eqb et (js "file_edit")) eqn:E4.
  { set (h1 := h ++ [Arr []]). set (h2 := h1 ++ [Arr []]).
    set (rec := record [("file_path", VPrim (prop d "file_path"));
                        ("action", VPrim (prop d "action"));
                        ("additions", VRef (length h)); ("removals", VRef (length h1))]).
    set (h3 := h2 ++ [rec]).
    assert (Hk3 : keeps h h3).
    { eapply keeps_trans; [apply keeps_alloc|].
      eapply keeps_trans; [apply keeps_alloc | apply keeps_alloc]. }
    assert (Hfc : is_arr h3 (file_changes msg)).
    { eapply is_arr_keeps; [exact Hk3|]. exact (proj1 (Forall_forall _ _) Hl _ Ifc). }
    destruct (push_arr h3 (file_changes msg) (VRef (length h2)) Hfc) as (items & E & Hp).
    set (h4 := <[file_changes msg := Arr (items ++ [VRef (length h2)])]> h3) in *.
    assert (Hk34 : keeps h3 h4) by (apply keeps_push, E).
    pose proof (keeps_trans _ _ _ Hk3 Hk34) as Hk.
    assert (Hbelow : Forall (fun l => (l < length h)%nat) (lists msg)).
    { eapply Forall_impl; [exact Hl|]. intros l. apply is_arr_lt. }
    exists (Agg msg ct (Some (length h2)) cb), h4. split.
    { unfold bind, field, ret, alloc. fold h1 h2 rec h3. rewrite Hp. reflexivity. }
    split; [|split; [reflexivity|]].
    + apply shape_intro; [eapply lists_keeps; eassumption | assumption | |].
      * intros l E'. eapply is_obj_keeps; [exact Hk | apply Ht, E'].
      * intros l [= <-]. exists (list_to_map
                                   [("file_path", VPrim (prop d "file_path"));
                                    ("action", VPrim (prop d "action"));
                                    ("additions", VRef (length h)); ("removals", VRef (length h1))]),
                            (length h), (length h1).
        assert (A1 : is_arr h1 (length h)) by (exists []; apply lookup_new).
        assert (A2 : is_arr h2 (length h1)) by (exists []; apply lookup_new).
        split; [|split; [reflexivity | split; [reflexivity|]]].
        { unfold h4. rewrite list_lookup_insert_ne.
          - apply lookup_new.
          - pose proof (proj1 (Forall_forall _ _) Hbelow _ Ifc) as Hfl. cbv beta in Hfl.
            unfold h2, h1. rewrite !length_app. cbn [length]. lia. }
        split; [|split; [|split]].
        { eapply is_arr_keeps; [exact Hk34|].
          eapply is_arr_keeps; [|exact A1].
          eapply keeps_trans; apply keeps_alloc. }
        { eapply is_arr_keeps; [exact Hk34|].
          eapply is_arr_keeps; [|exact A2]. apply keeps_alloc. }
        { intros Hin. pose proof (proj1 (Forall_forall _ _) Hbelow _ Hin) as Hlt.
          cbv beta in Hlt. lia. }
        { intros Hin. pose proof (proj1 (Forall_forall _ _) Hbelow _ Hin) as Hlt.
          cbv beta in Hlt. unfold h1 in Hlt. rewrite length_app in Hlt.
          cbn [length] in Hlt. lia. }
    + cbn [currentMessage]. unfold h4. rewrite (arr_len_push _ _ _ _ _ E).
      destruct (decide _); [congruence|].
      unfold h3, h2, h1. rewrite !arr_len_alloc; [lia | assumption | |].
      * eapply is_arr_keeps; [apply keeps_alloc | assumption].
      * eapply is_arr_keeps; [|exact Htc]. eapply keeps_trans; apply keeps_alloc. }
  destruct (str_eqb et (js "diff_add")) eqn:E5.
  { destruct cf as [l|].
    - destruct (Hf l eq_refl) as (f & ad & rm & Hlf & Ea & Er & Had & Hrm & Nad & Nrm).
      destruct (push_arr h ad (VPrim (prop d "content")) Had) as (items & E & Hp).
      exists (Agg msg ct (Some l) cb), (<[ad := Arr (items ++ [VPrim (prop d "content")])]> h).
      pose proof (keeps_push _ _ _ (VPrim (prop d "content")) E) as Hk.
      split.
      { unfold bind, field, ret, get_field. rewrite Hlf, Ea, Hp. reflexivity. }
      split; [|split; [reflexivity|]].
      + apply shape_intro; [eapply lists_keeps; eassumption | assumption | |].
        * intros l' E'. eapply is_obj_keeps; [exact Hk | apply Ht, E'].
        * intros l' E'. eapply is_file_record_keeps; [exact Hk | apply Hf, E'].
      + cbn [currentMessage]. rewrite (arr_len_push _ _ _ _ _ E).
        destruct (decide _) as [Eq|]; [|lia]. exfalso. apply Nad. rewrite <- Eq. exact Itc.
    - exists (Agg msg ct None cb), h. split; [reflexivity|].
      split; [apply shape_intro; assumption|]. split; [reflexivity|].
      cbn [currentMessage]. lia. }
  destruct (str_eqb et (js "diff_remove")) eqn:E6.
  { destruct cf as [l|].
    - destruct (Hf l eq_refl) as (f & ad & rm & Hlf & Ea & Er & Had & Hrm & Nad & Nrm).
      destruct (push_arr h rm (VPrim (prop d "content")) Hrm) as (items & E & Hp).
      exists (Agg msg ct (Some l) cb), (<[rm := Arr (items ++ [VPrim (prop d "content")])]> h).
      pose proof (keeps_push _ _ _ (VPrim (prop d "content")) E) as Hk.
      split.
      { unfold bind, field, ret, get_field. rewrite Hlf, Er, Hp. reflexivity. }
      split; [|split; [reflexivity|]].
      + apply shape_intro; [eapply lists_keeps; eassumption | assumption | |].
        * intros l' E'. eapply is_obj_keeps; [exact Hk | apply Ht, E'].
        * intros l' E'. eapply is_file_record_keeps; [exact Hk | apply Hf, E'].
      + cbn [currentMessage]. rewrite (arr_len_push _ _ _ _ _ E).
        destruct (decide _) as [Eq|]; [|lia]. exfalso. apply Nrm. rewrite <- Eq. exact Itc.
    - exists (Agg msg ct None cb), h. split; [reflexivity|].
      split; [apply shape_intro; assumption|]. split; [reflexivity|].
      cbn [currentMessage]. lia. }
  destruct (str_eqb et (js "bash_command")) eqn:E7.
  { destruct (push_new_record h msg (record [("command", VPrim (prop d "command")); ("output", VPrim (PStr []));
                         ("exit_code", VPrim PNull)]) (bash_commands msg) Hl Ibc)
      as (h' & Hrun & Hk & Hnew & Hlen).
    exists (Agg msg ct cf (Some (length h))), h'.
    unfold bind, field, ret in *.
    split.
    { destruct (alloc _ h) as [[r h1]|]; [|discriminate].
      destruct (push _ _ h1) as [[u h2]|]; [|discriminate].
      injection Hrun as -> ->. reflexivity. }
    split; [|split; [reflexivity|]].
    - apply shape_intro; [eapply lists_keeps; eassumption | assumption | |].
      + intros l E. eapply is_obj_keeps; [exact Hk | apply Ht, E].
      + intros l E. eapply is_file_record_keeps; [exact Hk | apply Hf, E].
    - cbn [currentMessage]. rewrite Hlen. destruct (decide _); [congruence | lia]. }
  destruct (str_eqb et (js "thinking")) eqn:E8.
  { assert (Hth : is_arr h (thinking msg)) by exact (proj1 (Forall_forall _ _) Hl _ Ith).
    destruct (push_arr h (thinking msg) (VPrim (prop d "content")) Hth) as (items & E & Hp).
    pose proof (keeps_push _ _ _ (VPrim (prop d "content")) E) as Hk.
    exists (Agg msg ct cf cb), (<[thinking msg := Arr (items ++ [VPrim (prop d "content")])]> h).
    split.
    { unfold bind, field, ret. rewrite Hp. reflexivity. }
    split; [|split; [reflexivity|]].
    - apply shape_intro; [eapply lists_keeps; eassumption | assumption | |].
      + intros l E'. eapply is_obj_keeps; [exact Hk | apply Ht, E'].
      + intros l E'. eapply is_file_record_keeps; [exact Hk | apply Hf, E'].
    - cbn [currentMessage]. rewrite (arr_len_push _ _ _ _ _ E).
      destruct (decide _); [congruence | lia]. }
  destruct (str_eqb et (js "error")) eqn:E9.
  { destruct (push_new_record h msg (record [("message", VPrim (prop d "message")); ("source", VPrim (prop d "source"))]) (errors msg) Hl Ier)
      as (h' & Hrun & Hk & Hnew & Hlen).
    exists (Agg msg ct cf cb), h'.
    unfold bind, field, ret in *.
    split.
    { destruct (alloc _ h) as [[r h1]|]; [|discriminate].
      destruct (push _ _ h1) as [[u h2]|]; [|discriminate].
      injection Hrun as -> ->. reflexivity. }
    split; [|split; [reflexivity|]].
    - apply shape_intro; [eapply lists_keeps; eassumption | assumption | |].
      + intros l E. eapply is_obj_keeps; [exact Hk | apply Ht, E].
      + intros l E. eapply is_file_record_keeps; [exact Hk | apply Hf, E].
    - cbn [currentMessage]. rewrite Hlen. destruct (decide _); [congruence | lia]. }
  exists (Agg msg ct cf cb), h. split; [reflexivity|].
  split; [apply shape_intro; assumption|]. split; [reflexivity|].
  cbn [currentMessage]. lia.
Qed.

End Shape.

Section AggregatorMore.
Import MessageAggregator.

Ltac unbind :=
  repeat match goal with
    | H : bind _ _ _ = Ok _ |- _ =>
        apply bind_Ok in H as (? & ? & ? & H); cbn beta in H
    | H : field _ _ ?h = Ok (_, ?h') |- _ => apply field_Ok in H; subst h'
    | H : ret _ _ = Ok _ |- _ => unfold ret in H; inversion H; subst; clear H
    | H : throw _ _ = Ok _ |- _ => discriminate H
    | H : field None _ _ = Ok _ |- _ => discriminate H
    end.

(** Without data, [addEvent] either throws or does nothing; it does
    nothing only for a type it has no use of the data for. *)
Lemma addEvent_no_data et a h a' h' :
  addEvent (Event et None) a h = Ok (a', h') ->
  a' = a /\ h' = h /\ str_eqb et (js "tool_call") = false /\ str_eqb et (js "text") = false.
Proof.
  unfold addEvent. cbn [event_type data].
  destruct (str_eqb et (js "text")); [discriminate|].
  destruct (str_eqb et (js "tool_call")); [discriminate|].
  destruct (str_eqb et (js "tool_result")).
  { destruct (currentTool a); [discriminate | intros [= <- <-]; auto]. }
  destruct (str_eqb et (js "file_edit")); [discriminate|].
  destruct (str_eqb et (js "diff_add")).
  { destruct (currentFile a); [|intros [= <- <-]; auto].
    unfold bind. destruct (get_field _ _ h) as [[? ?]|]; discriminate. }
  destruct (str_eqb et (js "diff_remove")).
  { destruct (currentFile a); [|intros [= <- <-]; auto].
    unfold bind. destruct (get_field _ _ h) as [[? ?]|]; discriminate. }
  destruct (str_eqb et (js "bash_command")); [discriminate|].
  destruct (str_eqb et (js "thinking")); [discriminate|].
  destruct (str_eqb et (js "error")); [discriminate|].
  intros [= <- <-]; auto.
Qed.

(** [addEvent] keeps the layout, whatever the event. *)
Lemma addEvent_shape e a h a' h' :
  shape h a -> addEvent e a h = Ok (a', h') ->
  shape h' a'
  /\ lists (currentMessage a') = lists (currentMessage a)
  /\ arr_len h' (tool_calls (currentMessage a'))
     = (arr_len h (tool_calls (currentMessage a)) + (if is_tool_call e then 1 else 0))%nat.
Proof.
  intros Hs H. destruct e as [et [d|]].
  - destruct (addEvent_forward et d a h Hs) as (a1 & h1 & E & Hs1 & Hl1 & Hn1).
    rewrite E in H. injection H as <- <-. auto.
  - apply addEvent_no_data in H as (-> & -> & E & _).
    unfold is_tool_call. cbn [event_type]. rewrite E. split; [exact Hs|]. split; [reflexivity | lia].
Qed.

Lemma reset_shape h a' h' :
  reset h = Ok (a', h') ->
  shape h' a' /\ arr_len h' (tool_calls (currentMessage a')) = 0%nat
  /\ content (currentMessage a') = [] /\ has_open_file a' = false.
Proof.
  rewrite reset_eq. intros [= <- <-].
  assert (L : forall i, (i < 5)%nat ->
                (h ++ replicate 5 (Arr [])) !! (length h + i)%nat = Some (Arr [])).
  { intros i Hi. rewrite lookup_fresh. apply lookup_replicate_2. exact Hi. }
  assert (L0 : (h ++ replicate 5 (Arr [])) !! length h = Some (Arr [])).
  { specialize (L 0%nat). rewrite Nat.add_0_r in L. apply L. lia. }
  split; [|split; [|split; reflexivity]].
  - apply shape_intro; try discriminate.
    + unfold lists. cbn [tool_calls file_changes bash_commands errors thinking].
      repeat (apply Forall_cons_2;
              [eexists; first [exact L0 | apply L; lia]|]).
      apply Forall_nil_2.
    + unfold lists. cbn [tool_calls file_changes bash_commands errors thinking].
      repeat (apply NoDup_cons_2; [rewrite ?elem_of_cons, elem_of_nil; lia|]).
      apply NoDup_nil_2.
  - cbn [currentMessage tool_calls]. unfold arr_len.
    change [Arr []; Arr []; Arr []; Arr []; Arr []] with (replicate 5 (Arr [])).
    rewrite L0. reflexivity.
Qed.

Lemma run_op_shape o a h a' h' : shape h a -> run_op o a h = Ok (a', h') -> shape h' a'.
Proof.
  intros Hs H. destruct o as [e| |]; cbn [run_op] in H.
  - exact (proj1 (addEvent_shape _ _ _ _ _ Hs H)).
  - unfold finalize in H. unbind. cbn [snd].
    match goal with R : reset _ = Ok _ |- _ => exact (proj1 (reset_shape _ _ _ R)) end.
  - exact (proj1 (reset_shape _ _ _ H)).
Qed.

(** Every state the aggregator goes through has the layout. *)
Lemma reachable_shape h a : reachable h a -> shape h a.
Proof.
  induction 1 as [a h Hnew | o a h a' h' _ IH Hop].
  - exact (proj1 (reset_shape _ _ _ Hnew)).
  - eapply run_op_shape; eassumption.
Qed.

Lemma addEvents_defined es a h :
  shape h a -> Forall (fun e => is_Some (data e)) es ->
  exists a' h', addEvents es a h = Ok (a', h').
Proof.
  intros Hs Hall. revert a h Hs. induction Hall as [|e es [d Hd] _ IH]; intros a h Hs.
  - eexists _, _. reflexivity.
  - destruct e as [et d0]. cbn [data] in Hd. subst d0.
    destruct (addEvent_forward et d a h Hs) as (a1 & h1 & E & Hs1 & _).
    destruct (IH a1 h1 Hs1) as (a2 & h2 & E2).
    exists a2, h2. cbn [addEvents]. unfold bind. rewrite E. exact E2.
Qed.

(** X8. [addEvent] never throws on an event that carries data, and neither
    does a sequence of such events, in any state the aggregator goes
    through; the state reached is again such a state. *)
Theorem addEvents_never_throws (es : list event) (a : MessageAggregator.t) (h : heap) :
  reachable h a -> Forall (fun e => is_Some (data e)) es ->
  exists a' h', addEvents es a h = Ok (a', h') /\ reachable h' a'.
Proof.
  intros Hr Hall.
  destruct (addEvents_defined es a h (reachable_shape _ _ Hr) Hall) as (a' & h' & E).
  exists a', h'. split; [exact E|]. eapply addEvents_reachable; eassumption.
Qed.

Lemma addEvents_never_throws_witness :
  exists a' h',
    addEvents (demo_events ++ [stray_result; usage_event])
      (Agg (Message [] 0 1 2 3 4) None None None) (replicate 5 (Arr [])) = Ok (a', h')
    /\ reachable h' a'.
Proof.
  apply (addEvents_never_throws (demo_events ++ [stray_result; usage_event])).
  - apply reach_new. reflexivity.
  - repeat constructor; eexists; reflexivity.
Defined.

Lemma parseLine_data line e : OutputParser._parseLine line = Some e -> is_Some (data e).
Proof.
  unfold OutputParser._parseLine.
  repeat match goal with
         | |- context [match exec ?r line with _ => _ end] => destruct (exec r line)
         | |- context [if ?b then _ else _] => destruct b
         end;
    intros [= <-]; eexists; reflexivity.
Qed.

Lemma parse_data p buffer : Forall (fun e => is_Some (data e)) (fst (OutputParser.parse p buffer)).
Proof.
  unfold OutputParser.parse, OutputParser.pop. cbn [fst].
  induction (removelast _) as [|line ls IH]; [constructor|].
  simpl. destruct (OutputParser._parseLine line) as [e|] eqn:E; [|exact IH].
  constructor; [eapply parseLine_data; eassumption | exact IH].
Qed.

(** X9. Whatever text the parser is given, in whatever state, the aggregator
    takes all the events it produces without throwing. *)
Theorem translator_events_accepted
  (p : OutputParser.t) (buffer : jsstring) (a : MessageAggregator.t) (h : heap) :
  reachable h a ->
  exists a' h', addEvents (fst (OutputParser.parse p buffer)) a h = Ok (a', h') /\ reachable h' a'.
Proof.
  intros Hr.
  destruct (addEvents_defined _ a h (reachable_shape _ _ Hr) (parse_data p buffer))
    as (a' & h' & E).
  exists a', h'. split; [exact E|]. eapply addEvents_reachable; eassumption.
Qed.

Lemma translator_events_accepted_witness :
  exists a' h',
    addEvents (fst (OutputParser.parse (OutputParser.new (js "s1")) scenario_chunk_as_stored))
      (Agg (Message [] 0 1 2 3 4) None None None) (replicate 5 (Arr [])) = Ok (a', h')
    /\ reachable h' a'.
Proof.
  apply translator_events_accepted. apply reach_new. reflexivity.
Defined.

End AggregatorMore.

Section Accumulation.
Import MessageAggregator.

Ltac unbind' :=
  repeat match goal with
    | H : bind _ _ _ = Ok _ |- _ =>
        apply bind_Ok in H as (? & ? & ? & H); cbn beta in H
    | H : field (Some _) _ ?h = Ok _ |- _ => unfold field, ret in H; inversion H; subst; clear H
    | H : field None _ _ = Ok _ |- _ => discriminate H
    | H : ret _ _ = Ok _ |- _ => unfold ret in H; inversion H; subst; clear H
    | H : throw _ _ = Ok _ |- _ => discriminate H
    | H : match ?v with VPrim _ => _ | VRef _ => _ end _ = Ok _ |- _ => destruct v
    end.

(** What one event does to the text and to the file slot. *)
Lemma addEvent_content_file e a h a' h' :
  addEvent e a h = Ok (a', h') ->
  content (currentMessage a') = content (currentMessage a) ++ text_line e
  /\ has_open_file a' = has_open_file a || is_file_edit e
  /\ (has_open_file a = false ->
      str_eqb (event_type e) (js "diff_add") || str_eqb (event_type e) (js "diff_remove") = true ->
      a' = a /\ h' = h).
Proof.
  intros H. destruct e as [et d]. unfold addEvent in H.
  unfold text_line, is_file_edit, has_open_file. cbn [event_type data] in *.
  repeat match type of H with
         | context [str_eqb et ?lit] =>
             let E := fresh "E" in
             destruct (str_eqb et lit) eqn:E;
             [apply str_eqb_eq in E; subst et|]
         end.
  all: repeat match goal with
         | |- context [str_eqb (js ?x) (js ?y)] =>
             let v := eval vm_compute in (str_eqb (js x) (js y)) in
             change (str_eqb (js x) (js y)) with v
         end.
  all: repeat match goal with
         | E : str_eqb _ _ = false |- _ => rewrite E; clear E
         end.
  all: cbn iota.
  all: destruct (currentTool a) as [lt|] eqn:Ect;
       destruct (currentFile a) as [lf|] eqn:Ecf.
  all: destruct d as [d|].
  all: unbind'.
  all: cbn [currentMessage currentFile set_content content orb]; rewrite ?Ecf, ?app_nil_r.
  all: repeat split; try reflexivity; try discriminate.
  all: try (intros _ _; reflexivity).
Qed.

Lemma addEvents_content_file es a h a' h' :
  addEvents es a h = Ok (a', h') ->
  content (currentMessage a') = content (currentMessage a) ++ text_of es
  /\ has_open_file a' = has_open_file a || existsb is_file_edit es.
Proof.
  revert a h. induction es as [|e es IH]; intros a h H.
  - cbn in H. unbind'. unfold text_of. cbn. rewrite app_nil_r, orb_false_r. auto.
  - cbn [addEvents] in H. unbind'.
    match goal with
    | R : addEvent _ _ _ = Ok _ |- _ =>
        destruct (addEvent_content_file _ _ _ _ _ R) as (Hc & Hf & _)
    end.
    destruct (IH _ _ H) as (Hc' & Hf'). unfold text_of in *. cbn [map concat existsb].
    rewrite Hc', Hc, Hf', Hf, app_assoc, orb_assoc. auto.
Qed.

(** X10. The text of the message is the text it had followed by the content of
    the text events, each with a newline, in order; [finalize] hands it out
    trimmed.  No other event contributes to it. *)
Theorem content_is_text_lines (es : list event) (a : MessageAggregator.t) (h : heap) :
  (forall a' h', addEvents es a h = Ok (a', h') ->
                 content (currentMessage a') = content (currentMessage a) ++ text_of es)
  /\ (forall v, finalize_after es a h = Ok v ->
                v_content v = trim (content (currentMessage a) ++ text_of es)).
Proof.
  split.
  - intros a' h' H. exact (proj1 (addEvents_content_file _ _ _ _ _ H)).
  - intros v. unfold finalize_after, bind.
    destruct (addEvents es a h) as [[a1 h1]|] eqn:E; [|discriminate].
    unfold finalize, bind, ret. rewrite reset_eq. intros [= <-].
    cbn [read v_content set_content content].
    rewrite (proj1 (addEvents_content_file _ _ _ _ _ E)). reflexivity.
Qed.

Lemma content_is_text_lines_witness :
  exists v,
    finalize_after demo_events (Agg (Message [] 0 1 2 3 4) None None None)
      (replicate 5 (Arr [])) = Ok v
    /\ v_content v = js "Hello world".
Proof.
  destruct (finalize_after demo_events (Agg (Message [] 0 1 2 3 4) None None None)
              (replicate 5 (Arr []))) as [v|] eqn:E; [|vm_compute in E; discriminate E].
  exists v. split; [reflexivity|].
  rewrite (proj2 (content_is_text_lines demo_events _ _) v E). vm_compute. reflexivity.
Defined.

(** X11. A diff_add or diff_remove that arrives while no file record is open
    (no file_edit came before it since the last reset) is dropped:
    [addEvent] returns and leaves the message, the slots and the heap as
    they are. *)
Theorem diff_without_file_dropped
  (es1 : list event) (d : event) (a0 a1 : MessageAggregator.t) (h0 h1 : heap) :
  event_type d = js "diff_add" \/ event_type d = js "diff_remove" ->
  has_open_file a0 = false ->
  existsb is_file_edit es1 = false ->
  addEvents es1 a0 h0 = Ok (a1, h1) ->
  addEvent d a1 h1 = Ok (a1, h1)
  /\ (forall es2, addEvents (es1 ++ d :: es2) a0 h0 = addEvents (es1 ++ es2) a0 h0)
  /\ (forall es2, finalize_after (es1 ++ d :: es2) a0 h0 = finalize_after (es1 ++ es2) a0 h0).
Proof.
  intros Ht H0 Hnone Hrun.
  assert (Hclosed : has_open_file a1 = false).
  { rewrite (proj2 (addEvents_content_file _ _ _ _ _ Hrun)), H0, Hnone. reflexivity. }
  assert (Hdrop : addEvent d a1 h1 = Ok (a1, h1)).
  { unfold addEvent. unfold has_open_file in Hclosed.
    destruct (currentFile a1); [discriminate|].
    destruct Ht as [-> | ->]; reflexivity. }
  assert (Hseq : forall es2, addEvents (es1 ++ d :: es2) a0 h0 = addEvents (es1 ++ es2) a0 h0).
  { intros es2. rewrite !addEvents_app, Hrun. cbn [addEvents]. unfold bind.
    rewrite Hdrop. reflexivity. }
  split; [exact Hdrop|]. split; [exact Hseq|].
  intros es2. unfold finalize_after, bind. rewrite Hseq. reflexivity.
Qed.

Lemma diff_without_file_dropped_witness :
  addEvents [OutputParser.ev "text" [("content", PStr (js "a list:"))];
             OutputParser.ev "diff_remove" [("content", PStr (js " item"))]]
    (Agg (Message [] 0 1 2 3 4) None None None) (replicate 5 (Arr []))
  = addEvents [OutputParser.ev "text" [("content", PStr (js "a list:"))]]
      (Agg (Message [] 0 1 2 3 4) None None None) (replicate 5 (Arr [])).
Proof.
  exact (proj1 (proj2 (diff_without_file_dropped
                         [OutputParser.ev "text" [("content", PStr (js "a list:"))]]
                         (OutputParser.ev "diff_remove" [("content", PStr (js " item"))])
                         (Agg (Message [] 0 1 2 3 4) None None None)
                         (Agg (Message (js "a list:" ++ [0x0A]) 0 1 2 3 4) None None None)
                         (replicate 5 (Arr [])) (replicate 5 (Arr []))
                         (or_intror eq_refl) eq_refl eq_refl eq_refl)) []).
Defined.

End Accumulation.

Section Storing.
Import MessageAggregator.

Lemma addEvents_tool_calls es a h a' h' :
  shape h a -> addEvents es a h = Ok (a', h') ->
  shape h' a'
  /\ tool_calls (currentMessage a') = tool_calls (currentMessage a)
  /\ arr_len h' (tool_calls (currentMessage a'))
     = (arr_len h (tool_calls (currentMessage a)) + length (List.filter is_tool_call es))%nat.
Proof.
  revert a h. induction es as [|e es IH]; intros a h Hs H.
  - cbn in H. injection H as <- <-. cbn. split; [exact Hs|]. split; [reflexivity | lia].
  - cbn [addEvents] in H. apply bind_Ok in H as (a1 & h1 & H1 & H).
    destruct (addEvent_shape _ _ _ _ _ Hs H1) as (Hs1 & Hl1 & Hn1).
    destruct (IH _ _ Hs1 H) as (Hs2 & Hl2 & Hn2).
    assert (Htc : tool_calls (currentMessage a1) = tool_calls (currentMessage a)).
    { unfold lists in Hl1. congruence. }
    split; [exact Hs2|]. split; [congruence|].
    rewrite Hn2, Hn1. cbn [List.filter]. destruct (is_tool_call e); cbn [length]; lia.
Qed.

Lemma existsb_filter {A} (f : A -> bool) (l : list A) :
  existsb f l = negb (Nat.eqb (length (List.filter f l)) 0).
Proof.
  induction l as [|x l IH]; [reflexivity|]. cbn. destruct (f x); [reflexivity | exact IH].
Qed.

(** A new aggregator fed a sequence of events holds one tool call per
    tool_call event, and the text of the text events. *)
Lemma after_counts es h a :
  after es = Some (h, a) ->
  shape h a
  /\ arr_len h (tool_calls (currentMessage a)) = length (List.filter is_tool_call es)
  /\ content (currentMessage a) = text_of es.
Proof.
  unfold after, bind, new.
  destruct (reset []) as [[a0 h0]|] eqn:R; [|discriminate].
  destruct (addEvents es a0 h0) as [[a1 h1]|] eqn:E; [|discriminate].
  intros [= <- <-].
  destruct (reset_shape _ _ _ R) as (Hs0 & Hn0 & Hc0 & _).
  destruct (addEvents_tool_calls _ _ _ _ _ Hs0 E) as (Hs1 & _ & Hn1).
  split; [exact Hs1|]. split; [rewrite Hn1, Hn0; reflexivity|].
  rewrite (proj1 (addEvents_content_file _ _ _ _ _ E)), Hc0. reflexivity.
Qed.

(** X12. When the process of a session exits, the listeners store the
    aggregated message exactly when its trimmed text is not empty or a
    tool call was seen; file changes, commands, thinking and errors alone
    are not stored.  The text stored is that of the text events with the
    white space around it stripped. *)
Theorem exchange_stored_iff
  (sid : jsstring) (es : list event) (h : heap) (a : MessageAggregator.t)
  (w : Router.world) (code : option Z) (sig : option jsstring)
  (reason s ts : jsstring) :
  after es = Some (h, a) ->
  Router.listeners w !! sid = Some (h, a) ->
  exists v,
    v_content v = trim (text_of es)
    /\ is_trim_of (text_of es) (v_content v)
    /\ Router.db (Router.on_notification sid
                    ("exit", ProcessSpawner.SessionEnd code sig reason s ts) w)
       = Router.db w
         ++ (if negb (is_blank (text_of es)) || existsb is_tool_call es
             then [Router.InsertAssistant sid v] else []).
Proof.
  intros Hafter Hl.
  destruct (after_counts _ _ _ Hafter) as ((Harr & _) & Hn & Hc).
  assert (Htc : is_arr h (tool_calls (currentMessage a))).
  { apply (proj1 (Forall_forall _ _) Harr). unfold lists. apply list_elem_of_here. }
  destruct Htc as [items Hitems].
  unfold arr_len in Hn. rewrite Hitems in Hn.
  unfold Router.on_notification. rewrite Hl. cbn [snd fst].
  change (String.eqb "exit" "exit") with true. cbv iota.
  unfold finalize, bind, ret. rewrite reset_eq.
  set (h' := h ++ replicate 5 (Arr [])).
  set (msg := set_content (currentMessage a) (trim (content (currentMessage a)))).
  exists (read h' msg).
  assert (Hv : v_content (read h' msg) = trim (text_of es)).
  { unfold read, msg. cbn [v_content set_content content]. rewrite Hc. reflexivity. }
  split; [exact Hv|].
  split; [rewrite Hv; apply trim_spec|].
  assert (Hcalls : match v_tool_calls (read h' msg) with
                   | JArr (_ :: _) => true
                   | _ => false
                   end = existsb is_tool_call es).
  { unfold read, msg. cbn [v_tool_calls set_content tool_calls reify].
    unfold h'. rewrite (lookup_app_l_Some _ _ _ _ Hitems).
    rewrite existsb_filter, <- Hn. destruct items; reflexivity. }
  rewrite Hcalls, Hv. unfold is_blank.
  destruct (negb (str_eqb (trim (text_of es)) []) || existsb is_tool_call es).
  - cbn [Router.db Router.with_listener Router.send]. reflexivity.
  - cbn [Router.db Router.with_listener Router.send]. rewrite app_nil_r. reflexivity.
Qed.

Lemma exchange_stored_iff_witness :
  (exists h a,
     after edit_only = Some (h, a)
     /\ Router.db (Router.on_notification (js "s1")
                     ("exit", ProcessSpawner.SessionEnd (Some 0%Z) None (js "normal")
                                (js "s1") (js "t"))
                     (Router.with_listener empty_world (js "s1") (h, a)))
        = [])
  /\ (exists h a v,
        after demo_events = Some (h, a)
        /\ v_content v = js "Hello world"
        /\ Router.db (Router.on_notification (js "s1")
                        ("exit", ProcessSpawner.SessionEnd (Some 0%Z) None (js "normal")
                                   (js "s1") (js "t"))
                        (Router.with_listener empty_world (js "s1") (h, a)))
           = [Router.InsertAssistant (js "s1") v]).
Proof.
  split.
  - destruct (after edit_only) as [[h a]|] eqn:E; [|vm_compute in E; discriminate E].
    exists h, a. split; [reflexivity|].
    destruct (exchange_stored_iff (js "s1") edit_only h a
                (Router.with_listener empty_world (js "s1") (h, a))
                (Some 0%Z) None (js "normal") (js "s1") (js "t") E
                (lookup_insert_eq _ _ _)) as (v & _ & _ & Hdb).
    rewrite Hdb. reflexivity.
  - destruct (after demo_events) as [[h a]|] eqn:E; [|vm_compute in E; discriminate E].
    destruct (exchange_stored_iff (js "s1") demo_events h a
                (Router.with_listener empty_world (js "s1") (h, a))
                (Some 0%Z) None (js "normal") (js "s1") (js "t") E
                (lookup_insert_eq _ _ _)) as (v & Hv & _ & Hdb).
    exists h, a, v. split; [reflexivity|]. split.
    + rewrite Hv. vm_compute. reflexivity.
    + rewrite Hdb. reflexivity.
Defined.

End Storing.

(** ** More on the Process Supervisor *)

Section SupervisorMore.
Import ProcessSpawner.

Lemma on_stdout_state now text sp :
  let sp' := fst (on_stdout now text sp) in
  outputBuffer sp' = OutputParser.remaining (parser sp')
  /\ Forall (fun c => c <> 0x0A) (outputBuffer sp')
  /\ process sp' = process sp /\ isRunning sp' = isRunning sp
  /\ sessionId sp' = sessionId sp /\ model sp' = model sp
  /\ workingDirectory sp' = workingDirectory sp.
Proof.
  unfold on_stdout, _processBuffer.
  cbn [parser outputBuffer sessionId set_buffers].
  pose proof (parse_remaining_no_newline (parser sp) (outputBuffer sp ++ text)) as Hnl.
  destruct (OutputParser.parse (parser sp) (outputBuffer sp ++ text)) as [events p'].
  cbn [fst snd set_buffers outputBuffer parser process isRunning sessionId model
       workingDirectory OutputParser.getRemaining] in *.
  repeat split. exact Hnl.
Qed.

Lemma on_stdout_only_outputs now text sp :
  Forall (fun en => exists e ts, en = ("output", Output e (sessionId sp) ts))
         (snd (on_stdout now text sp)).
Proof.
  unfold on_stdout, _processBuffer. cbn [parser outputBuffer sessionId set_buffers].
  destruct (OutputParser.parse (parser sp) (outputBuffer sp ++ text)) as [events p'].
  cbn [snd]. generalize now. induction events as [|e es IH]; intros now'; [constructor|].
  cbn [imap]. constructor; [eauto|]. apply (IH (fun i => now' (S i))).
Qed.

(** X13. Standard output only ever leads to output notifications stamped with
    the session of the supervisor; after a chunk the supervisor's buffer
    and the parser hold the same unfinished line, without a newline; the
    child, the running flag and the session are left as they are. *)
Theorem stdout_chunks_state (now : nat -> jsstring) (c : jsstring) (cs : list jsstring)
  (sp : ProcessSpawner.t) :
  let sp' := fst (feed now (c :: cs) sp) in
  outputBuffer sp' = OutputParser.remaining (parser sp')
  /\ count_nl (outputBuffer sp') = 0%nat
  /\ process sp' = process sp /\ isRunning sp' = isRunning sp
  /\ sessionId sp' = sessionId sp
  /\ Forall (fun en => exists e ts, en = ("output", Output e (sessionId sp) ts))
            (snd (feed now (c :: cs) sp)).
Proof.
  revert c sp. induction cs as [|c' cs IH]; intros c sp.
  - cbn [feed]. pose proof (on_stdout_state now c sp) as (Hb & Hnl & Hp & Hr & Hs & _).
    pose proof (on_stdout_only_outputs now c sp) as Hout.
    destruct (on_stdout now c sp) as [sp1 out]. cbn [fst snd] in *.
    rewrite app_nil_r. repeat split; try assumption.
    unfold count_nl. clear -Hnl. induction Hnl as [|x s Hx _ IHs]; [reflexivity|].
    rewrite filter_cons. destruct (decide (x = 10)); [contradiction | exact IHs].
  - change (feed now (c :: c' :: cs) sp)
      with (let '(sp1, out) := on_stdout now c sp in
            let '(sp2, out') := feed now (c' :: cs) sp1 in (sp2, out ++ out')).
    pose proof (on_stdout_state now c sp) as (_ & _ & Hp & Hr & Hs & _).
    pose proof (on_stdout_only_outputs now c sp) as Hout.
    destruct (on_stdout now c sp) as [sp1 out]. cbn [fst snd] in *.
    specialize (IH c' sp1). cbv zeta in IH.
    destruct (feed now (c' :: cs) sp1) as [sp2 out']. cbn [fst snd] in *.
    destruct IH as (Hb2 & Hn2 & Hp2 & Hr2 & Hs2 & Hout2).
    repeat split; try congruence.
    apply Forall_app. split; [exact Hout|]. rewrite <- Hs. exact Hout2.
Qed.

(** X14. As long as every chunk ends at the end of a line, the supervisor
    emits the events of the Translator on the concatenation of the chunks,
    in order, and holds nothing afterwards. *)
Theorem line_aligned_chunks_as_whole (now : nat -> jsstring) (chunks : list jsstring)
  (sp : ProcessSpawner.t) :
  outputBuffer sp = [] -> OutputParser.remaining (parser sp) = [] ->
  Forall (fun c => endsWith_nl c = true) chunks ->
  output_events (snd (feed now chunks sp))
  = map (fun e => (e, sessionId sp))
      (fst (OutputParser.parse (OutputParser.new (sessionId sp)) (concat chunks)))
  /\ outputBuffer (fst (feed now chunks sp)) = []
  /\ OutputParser.remaining (parser (fst (feed now chunks sp))) = [].
Proof.
  intros Hb Hr Hall. split; [apply feed_line_aligned; assumption|].
  revert sp Hb Hr. induction Hall as [|c cs Hc _ IH]; intros sp Hb Hr; [auto|].
  cbn [feed].
  destruct (on_stdout_line_aligned now c sp Hb Hr Hc) as (Hb' & Hr' & _).
  destruct (on_stdout now c sp) as [sp' out]. cbn [fst snd] in *.
  specialize (IH sp' Hb' Hr').
  destruct (feed now cs sp') as [sp'' out']. exact IH.
Qed.

Lemma line_aligned_chunks_as_whole_witness :
  output_events
    (snd (feed (fun _ => js "t") [js "Hello" ++ [0x0A]; js "+a" ++ [0x0A] ++ js "-b" ++ [0x0A]]
            (running_supervisor (js "s1"))))
  = map (fun e => (e, js "s1"))
      (fst (OutputParser.parse (OutputParser.new (js "s1"))
              (concat [js "Hello" ++ [0x0A]; js "+a" ++ [0x0A] ++ js "-b" ++ [0x0A]]))).
Proof.
  apply (line_aligned_chunks_as_whole (fun _ => js "t")
           [js "Hello" ++ [0x0A]; js "+a" ++ [0x0A] ++ js "-b" ++ [0x0A]]
           (running_supervisor (js "s1"))).
  - reflexivity.
  - reflexivity.
  - repeat constructor.
Defined.

(** X15. Once the child has exited, [write] throws, [abort] and the delayed
    forced kill send nothing, whatever the state was; the handle on the
    child and what the buffers hold are kept, so that [kill] still signals
    the child that is gone. *)
Theorem after_exit (now : nat -> jsstring) (code : option Z) (sig : option jsstring)
  (sp : ProcessSpawner.t) :
  let sp' := fst (on_exit now code sig sp) in
  isActive sp' = false
  /\ (forall input, write input sp' = Throw ProcessNotRunning)
  /\ abort sp' = sp'
  /\ kill_escalate sp' = sp'
  /\ (forall c, process sp = Some c ->
                process (kill sp') = Some (child_kill c SIGTERM))
  /\ outputBuffer sp' = outputBuffer sp /\ parser sp' = parser sp.
Proof.
  cbn [on_exit fst]. unfold isActive, write, abort, kill_escalate, kill.
  cbn [set_running isRunning process outputBuffer parser].
  repeat split.
  - intros input. destruct (process sp); reflexivity.
  - destruct (process sp); reflexivity.
  - destruct (process sp); reflexivity.
  - intros c ->. reflexivity.
Qed.

Lemma after_exit_witness :
  process (kill (fst (on_exit (fun _ => js "t") (Some 0%Z) None (running_supervisor (js "s1")))))
  = Some (Child [js "--dangerously-skip-permissions"] (js "/home/ubuntu/workspace") []
            [SIGTERM]).
Proof.
  destruct (after_exit (fun _ => js "t") (Some 0%Z) None (running_supervisor (js "s1")))
    as (_ & _ & _ & _ & Hk & _).
  exact (Hk _ eq_refl).
Defined.

(** X16. [kill()] sends SIGTERM at once; the timer it arms sends SIGKILL
    five seconds later only if the child has not exited in between. *)
Theorem kill_escalation (now : nat -> jsstring) (code : option Z) (sig : option jsstring)
  (sp : ProcessSpawner.t) (c : child) :
  process sp = Some c -> isRunning sp = true ->
  option_map signals (process (kill_escalate (kill sp)))
  = Some (signals c ++ [SIGTERM; SIGKILL])
  /\ option_map signals (process (kill_escalate (fst (on_exit now code sig (kill sp)))))
     = Some (signals c ++ [SIGTERM]).
Proof.
  intros Hp Hr. unfold kill, kill_escalate. rewrite Hp.
  cbn [set_process process isRunning on_exit fst set_running]. rewrite Hr.
  cbn [set_process process option_map child_kill signals].
  rewrite <- app_assoc. split; reflexivity.
Qed.

Lemma kill_escalation_witness :
  option_map signals (process (kill_escalate (kill (running_supervisor (js "s1")))))
  = Some [SIGTERM; SIGKILL].
Proof.
  exact (proj1 (kill_escalation (fun _ => js "t") None None (running_supervisor (js "s1"))
                  _ eq_refl eq_refl)).
Defined.

End SupervisorMore.

(** ** More on the Session Registry *)

Section RegistryMore.
Import SessionManager.
#[local] Set Warnings "-clear-no-such-hyp".

Lemma sessions_other_register a row tm m u :
  u <> a_userId a -> sessions_of (startSession_register a row tm m).1.1 u = sessions_of m u.
Proof.
  intros Hne. unfold startSession_register, sessions_of. cbn [fst userSessions].
  destruct (userSessions m !! a_userId a) as [S0|] eqn:E.
  - rewrite E. rewrite lookup_insert_ne by congruence. reflexivity.
  - rewrite lookup_insert_eq. rewrite !lookup_insert_ne by congruence. reflexivity.
Qed.

Lemma users_other_finish p m u :
  u <> userId (e_session p) ->
  userSessions (endSession_finish p m) !! u = userSessions m !! u.
Proof.
  intros Hne. unfold endSession_finish.
  destruct (userSessions m !! userId (e_session p)) as [S0|]; [|reflexivity].
  destruct (Nat.eqb _ 0); cbn [userSessions].
  - rewrite lookup_delete_ne by congruence. reflexivity.
  - rewrite lookup_insert_ne by congruence. reflexivity.
Qed.

Lemma active_after_finish p m :
  activeSessions (endSession_finish p m) = delete (e_sessionId p) (activeSessions m).
Proof.
  unfold endSession_finish.
  destruct (userSessions m !! userId (e_session p)) as [S0|]; [|reflexivity].
  destruct (Nat.eqb _ 0); reflexivity.
Qed.

Lemma count_register_le a row tm m u :
  (getActiveSessionCount (startSession_register a row tm m).1.1 u
   <= getActiveSessionCount m u + (if decide (u = a_userId a) then 1 else 0))%nat.
Proof.
  rewrite !count_sessions_of. destruct (decide (u = a_userId a)) as [->|Hne].
  - rewrite sessions_after_register, size_union_alt.
    assert (size ({[id row]} ∖ sessions_of m (a_userId a) : gset (list N)) <= 1)%nat.
    { rewrite <- (size_singleton (id row : list N) (C := gset (list N))).
      apply subseteq_size. set_solver. }
    lia.
  - rewrite sessions_other_register by exact Hne. lia.
Qed.

Lemma count_finish_le p m u :
  (getActiveSessionCount (endSession_finish p m) u <= getActiveSessionCount m u)%nat.
Proof.
  rewrite !count_sessions_of. destruct (decide (u = userId (e_session p))) as [->|Hne].
  - rewrite sessions_after_finish. apply subseteq_size. set_solver.
  - unfold sessions_of. rewrite users_other_finish by exact Hne. lia.
Qed.

Lemma users_after_begin so s reason m :
  userSessions (endSession_begin so s reason m).1.1 = userSessions m.
Proof. unfold endSession_begin. destruct (activeSessions m !! s); reflexivity. Qed.

Lemma run_call_within mx so c l :
  (forall u, (Z.of_nat (getActiveSessionCount (mgr l) u) <= mx)%Z) ->
  forall u, (Z.of_nat (getActiveSessionCount (mgr (run_call (Some mx) so c l)) u) <= mx)%Z.
Proof.
  intros Hin. destruct c as [a reply | s reason reply]; cbn [run_call step].
  - unfold startSession_check, canCreateSession.
    destruct (Z.ltb_spec (Z.of_nat (getActiveSessionCount (mgr l) (a_userId a))) mx) as [Hlt|Hge].
    + cbn [step mgr calls]. rewrite lookup_app_r, Nat.sub_diag by lia. cbn [lookup list_lookup].
      destruct reply as [|session tm|]; cbn [mgr]; try exact Hin.
      intros u. pose proof (count_register_le a session tm (mgr l) u) as Hle.
      specialize (Hin u). destruct (decide (u = a_userId a)) as [->|]; lia.
    + cbn [step mgr calls]. rewrite lookup_app_r, Nat.sub_diag by lia. cbn [lookup list_lookup].
      destruct reply; exact Hin.
  - pose proof (users_after_begin so s reason (mgr l)) as Hu.
    destruct (endSession_begin so s reason (mgr l)) as [[m' [pe|]] eff]; cbn [fst] in Hu.
    + cbn [step mgr calls]. rewrite lookup_app_r, Nat.sub_diag by lia. cbn [lookup list_lookup].
      assert (Hin' : forall u, (Z.of_nat (getActiveSessionCount m' u) <= mx)%Z).
      { intros u. unfold getActiveSessionCount. rewrite Hu. apply Hin. }
      destruct reply; cbn [mgr]; try exact Hin'.
      intros u. pose proof (count_finish_le pe m' u). specialize (Hin' u). lia.
    + cbn [step mgr calls]. rewrite lookup_app_r, Nat.sub_diag by lia. cbn [lookup list_lookup].
      assert (Hin' : forall u, (Z.of_nat (getActiveSessionCount m' u) <= mx)%Z).
      { intros u. unfold getActiveSessionCount. rewrite Hu. apply Hin. }
      destruct reply; exact Hin'.
Qed.

(** X17. When the calls of the registry are made one after the other, each
    resumed before the next is made, no owner ever has more sessions
    than the maximum, whatever the calls and the database's replies. *)
Theorem sequential_calls_respect_maximum
  (mx : Z) (socket_open : nat -> bool) (cs : list call) (u : jsstring) :
  (0 <= mx)%Z ->
  (Z.of_nat (getActiveSessionCount
               (mgr (run_calls (Some mx) socket_open cs (Loop SessionManager.new [] []))) u)
   <= mx)%Z.
Proof.
  intros Hmx. revert u.
  assert (H0 : forall u, (Z.of_nat (getActiveSessionCount (mgr (Loop SessionManager.new [] [])) u)
                          <= mx)%Z).
  { intros u. cbn. exact Hmx. }
  revert H0. generalize (Loop SessionManager.new [] []).
  induction cs as [|c cs IH]; intros l Hl; [exact Hl|].
  cbn [run_calls foldl]. apply IH. apply run_call_within. exact Hl.
Qed.

Lemma sequential_calls_respect_maximum_witness :
  (Z.of_nat (getActiveSessionCount
               (mgr (run_calls (Some 1%Z) (fun _ => true)
                       [Start owner_args (Created (row "s0") 1);
                        Start owner_args (Created (row "s1") 2);
                        End_ (js "s0") (js "abort") Updated;
                        Start owner_args (Created (row "s2") 3)]
                       (Loop SessionManager.new [] []))) (js "u1"))
   <= 1)%Z.
Proof.
  apply (sequential_calls_respect_maximum 1 (fun _ => true)). lia.
Defined.

(** X18. Whatever the reason, the status [endSession] writes is one the
    schema admits and one for which [updateSessionStatus] sets [ended_at];
    it is 'completed' for every reason but 'error' and 'abort'. *)
Theorem end_status_admitted
  (socket_open : nat -> bool) (s reason : jsstring) (m m' : SessionManager.t)
  (p : pending_end) (eff : list effect) :
  endSession_begin socket_open s reason m = (m', Some p, eff) ->
  e_status p ∈ Db.session_statuses
  /\ Db.sets_ended_at (e_status p) = true
  /\ UpdateSessionStatus s (e_status p) reason ∈ eff
  /\ (reason <> js "error" -> reason <> js "abort" -> e_status p = js "completed").
Proof.
  unfold endSession_begin. destruct (activeSessions m !! s) as [session|]; [|discriminate].
  intros [= <- <- <-]. cbn [e_status].
  split; [|split; [|split]].
  - destruct (str_eqb reason (js "error")); [set_solver|].
    destruct (str_eqb reason (js "abort")); set_solver.
  - destruct (str_eqb reason (js "error")); [reflexivity|].
    destruct (str_eqb reason (js "abort")); reflexivity.
  - destruct (socket_open (socket session)); cbn [app];
      repeat first [apply list_elem_of_here | apply list_elem_of_further].
  - intros H1 H2.
    destruct (str_eqb reason (js "error")) eqn:E1; [apply str_eqb_eq in E1; contradiction|].
    destruct (str_eqb reason (js "abort")) eqn:E2; [apply str_eqb_eq in E2; contradiction|].
    reflexivity.
Qed.

Lemma end_status_admitted_witness :
  exists m' p eff,
    endSession_begin (fun _ => true) (js "s1") (js "timeout") one_session = (m', Some p, eff)
    /\ e_status p = js "completed"
    /\ Db.sets_ended_at (e_status p) = true.
Proof.
  destruct (endSession_begin (fun _ => true) (js "s1") (js "timeout") one_session)
    as [[m' [p|]] eff] eqn:E; [|vm_compute in E; discriminate E].
  exists m', p, eff. split; [reflexivity|].
  destruct (end_status_admitted _ _ _ _ _ _ _ E) as (_ & H2 & _ & H4).
  split; [|exact H2].
  apply H4; intros H; vm_compute in H; discriminate H.
Defined.

Lemma consistent_new : consistent SessionManager.new.
Proof.
  split.
  - intros u s. unfold sessions_of. cbn. rewrite lookup_empty. cbn. split.
    + intros H. set_solver.
    + intros (i & H & _). rewrite lookup_empty in H. discriminate.
  - intros u ss H. cbn in H. rewrite lookup_empty in H. discriminate.
Qed.

Lemma consistent_register a row tm m :
  consistent m -> activeSessions m !! id row = None ->
  consistent (startSession_register a row tm m).1.1.
Proof.
  intros [Hc Hne] Hfresh. split.
  - intros u s.
    assert (Hact : activeSessions (startSession_register a row tm m).1.1
                   = <[id row := Info (ProcessSpawner.new (id row) (a_model a)
                                          (a_workingDirectory a))
                                       (a_socket a) (a_userId a) tm (a_projectRef a)
                                       (a_model a)]> (activeSessions m)) by reflexivity.
    rewrite Hact. destruct (decide (u = a_userId a)) as [->|Hu].
    + rewrite sessions_after_register. rewrite elem_of_union, elem_of_singleton, Hc.
      destruct (decide (s = id row)) as [->|Hs].
      * rewrite lookup_insert_eq. split; [eauto|auto].
      * rewrite lookup_insert_ne by congruence. split; [intros [H|H]; [exact H | contradiction] | auto].
    + rewrite sessions_other_register by exact Hu. rewrite Hc.
      destruct (decide (s = id row)) as [->|Hs].
      * rewrite lookup_insert_eq, Hfresh. split.
        -- intros (i & H & _). discriminate.
        -- intros (i & [= <-] & H). cbn in H. congruence.
      * rewrite lookup_insert_ne by congruence. reflexivity.
  - intros u ss. unfold startSession_register. cbn [fst userSessions].
    destruct (userSessions m !! a_userId a) as [S0|] eqn:E.
    + rewrite E. destruct (decide (u = a_userId a)) as [->|Hu].
      * rewrite lookup_insert_eq. intros [= <-]. set_solver.
      * rewrite lookup_insert_ne by congruence. apply Hne.
    + rewrite lookup_insert_eq. destruct (decide (u = a_userId a)) as [->|Hu].
      * rewrite lookup_insert_eq. intros [= <-]. set_solver.
      * rewrite !lookup_insert_ne by congruence. apply Hne.
Qed.

Lemma consistent_update m s i i' :
  consistent m -> activeSessions m !! s = Some i -> userId i' = userId i ->
  consistent (Manager (<[s := i']> (activeSessions m)) (userSessions m)).
Proof.
  intros [Hc Hne] Hs Hu. split; [|exact Hne].
  intros u s'. unfold sessions_of. cbn [userSessions activeSessions].
  specialize (Hc u s'). unfold sessions_of in Hc. rewrite Hc.
  destruct (decide (s' = s)) as [->|Hd].
  - rewrite lookup_insert_eq, Hs. split; intros (j & [= <-] & H); eexists; split; eauto; congruence.
  - rewrite lookup_insert_ne by congruence. reflexivity.
Qed.

Lemma consistent_finish p m :
  consistent m ->
  (forall i, activeSessions m !! e_sessionId p = Some i -> userId i = userId (e_session p)) ->
  consistent (endSession_finish p m).
Proof.
  intros [Hc Hne] Hp. split.
  - intros u s. rewrite active_after_finish.
    destruct (decide (u = userId (e_session p))) as [->|Hu].
    + rewrite sessions_after_finish, elem_of_difference, elem_of_singleton, Hc.
      destruct (decide (s = e_sessionId p)) as [->|Hs].
      * rewrite lookup_delete_eq. split; [intros [_ H]; contradiction | intros (i & H & _); discriminate].
      * rewrite lookup_delete_ne by congruence. split; [intros [H _]; exact H | auto].
    + unfold sessions_of. rewrite users_other_finish by exact Hu.
      specialize (Hc u s). unfold sessions_of in Hc. rewrite Hc.
      destruct (decide (s = e_sessionId p)) as [->|Hs].
      * rewrite lookup_delete_eq. split; [|intros (i & H & _); discriminate].
        intros (i & Hi & Hui). specialize (Hp i Hi). congruence.
      * rewrite lookup_delete_ne by congruence. reflexivity.
  - intros u ss. destruct (decide (u = userId (e_session p))) as [->|Hu].
    + unfold endSession_finish.
      destruct (userSessions m !! userId (e_session p)) as [S0|] eqn:E.
      * destruct (Nat.eqb_spec (size (S0 ∖ {[e_sessionId p]})) 0) as [Hz|Hnz]; cbn [userSessions].
        -- rewrite lookup_delete_eq. discriminate.
        -- rewrite lookup_insert_eq. intros [= <-] He. apply Hnz. rewrite He. apply size_empty.
      * cbn [userSessions]. rewrite E. discriminate.
    + rewrite users_other_finish by exact Hu. apply Hne.
Qed.

Lemma begin_cases so s reason m :
  (activeSessions m !! s = None /\ endSession_begin so s reason m = (m, None, []))
  \/ (exists i eff st,
        activeSessions m !! s = Some i
        /\ endSession_begin so s reason m
           = (Manager (<[s := set_process i (ProcessSpawner.kill (process i))]>
                         (activeSessions m)) (userSessions m),
              Some (PendingEnd s i reason st), eff)).
Proof.
  unfold endSession_begin. destruct (activeSessions m !! s) as [i|]; [right | left; auto].
  eexists _, _, _. split; reflexivity.
Qed.

Lemma pending_ok_same_owner m m' c :
  (forall s i', activeSessions m' !! s = Some i' ->
                exists i, activeSessions m !! s = Some i /\ userId i = userId i') ->
  pending_ok m c -> pending_ok m' c.
Proof.
  intros Hsub. destruct c as [[a|p]|]; cbn; auto.
  intros Hp i' Hi'. destruct (Hsub _ _ Hi') as (i & Hi & <-). apply Hp, Hi.
Qed.

Lemma step_ok max so p l :
  loop_ok l ->
  match p with
  | Resume _ (Created session _) => id_unused l (id session) = true
  | _ => True
  end ->
  loop_ok (step max so p l).
Proof.
  intros [Hc Hp] Hfresh. destruct p as [a | s reason | k reply]; cbn [step].
  - destruct (startSession_check max (mgr l) a); split; cbn [mgr calls]; try exact Hc;
      (apply Forall_app; split; [exact Hp | repeat constructor]).
  - destruct (begin_cases so s reason (mgr l)) as [[Hn ->] | (i & eff & st & Hi & ->)].
    + split; cbn [mgr calls]; [exact Hc|].
      apply Forall_app; split; [exact Hp | repeat constructor].
    + split; cbn [mgr calls].
      * eapply consistent_update; [exact Hc | exact Hi | reflexivity].
      * apply Forall_app; split.
        -- eapply Forall_impl; [exact Hp|]. intros c. apply pending_ok_same_owner.
           intros s' i'. cbn [activeSessions]. destruct (decide (s' = s)) as [->|Hd].
           ++ rewrite lookup_insert_eq. intros [= <-]. eauto.
           ++ rewrite lookup_insert_ne by congruence. eauto.
        -- repeat constructor. cbn. rewrite lookup_insert_eq. intros i' [= <-]. reflexivity.
  - destruct (calls l !! k) as [[[a|pe]|]|] eqn:Ek; try (split; assumption).
    + destruct reply as [|session tm|]; try (split; assumption).
      * split; cbn [mgr calls]; [exact Hc|]. apply Forall_insert; [exact Hp | exact I].
      * unfold id_unused in Hfresh.
        destruct (activeSessions (mgr l) !! id session) eqn:Ea; [discriminate|].
        split; cbn [mgr calls].
        -- apply consistent_register; assumption.
        -- apply Forall_insert; [|exact I].
           rewrite forallb_forall in Hfresh.
           apply Forall_forall. intros c Hin.
           pose proof (proj1 (Forall_forall _ _) Hp c Hin) as Hpc.
           destruct c as [[a'|p']|]; cbn; auto.
           intros i'.
           assert (Hne : e_sessionId p' <> id session).
           { intros E. apply list_elem_of_In in Hin. specialize (Hfresh _ Hin).
             cbn in Hfresh. rewrite E, str_eqb_refl in Hfresh. discriminate. }
           change (activeSessions (startSession_register a session tm (mgr l)).1.1)
             with (<[id session := Info (ProcessSpawner.new (id session) (a_model a)
                                           (a_workingDirectory a))
                                        (a_socket a) (a_userId a) tm (a_projectRef a)
                                        (a_model a)]> (activeSessions (mgr l))).
           rewrite lookup_insert_ne by congruence. apply Hpc.
    + destruct reply as [|session tm|]; try (split; assumption).
      * split; cbn [mgr calls]; [exact Hc|]. apply Forall_insert; [exact Hp | exact I].
      * pose proof (proj1 (Forall_lookup _ _) Hp k _ Ek) as Hpe. cbn in Hpe.
        split; cbn [mgr calls].
        -- apply consistent_finish; assumption.
        -- apply Forall_insert; [|exact I].
           eapply Forall_impl; [exact Hp|]. intros c. apply pending_ok_same_owner.
           intros s' i'. rewrite active_after_finish.
           destruct (decide (s' = e_sessionId pe)) as [->|Hd].
           ++ rewrite lookup_delete_eq. discriminate.
           ++ rewrite lookup_delete_ne by congruence. eauto.
Qed.

Lemma run_ok max so ps l :
  loop_ok l -> fresh_ids max so ps l = true -> loop_ok (run max so ps l).
Proof.
  revert l. induction ps as [|p ps IH]; intros l Hl Hf; [exact Hl|].
  cbn [fresh_ids] in Hf. apply andb_true_iff in Hf as [Hp Hf].
  unfold run. cbn [foldl]. apply IH; [|exact Hf].
  apply step_ok; [exact Hl|]. destruct p as [| |k [|session tm|]]; auto.
Qed.

(** X19. However the calls of [startSession] and [endSession] overlap, the
    two maps of the registry agree as long as the database hands out new
    ids: a session is counted for an owner exactly when it is registered
    with that owner. *)
Theorem registry_maps_agree
  (max : option Z) (socket_open : nat -> bool) (ps : list piece) (u s : jsstring) :
  fresh_ids max socket_open ps (Loop SessionManager.new [] []) = true ->
  let m := mgr (run max socket_open ps (Loop SessionManager.new [] [])) in
  s ∈ sessions_of m u <-> exists i, activeSessions m !! s = Some i /\ userId i = u.
Proof.
  intros Hf m.
  assert (H0 : loop_ok (Loop SessionManager.new [] [])).
  { split; [apply consistent_new | constructor]. }
  destruct (run_ok max socket_open ps _ H0 Hf) as [[Hc _] _]. apply Hc.
Qed.

Lemma registry_maps_agree_witness :
  js "s2" ∈ sessions_of (mgr (run (Some 1%Z) (fun _ => true) overlapping_starts
                                 (Loop SessionManager.new [] []))) (js "u1")
  <-> exists i, activeSessions (mgr (run (Some 1%Z) (fun _ => true) overlapping_starts
                                       (Loop SessionManager.new [] []))) !! js "s2" = Some i
                /\ userId i = js "u1".
Proof.
  apply (registry_maps_agree (Some 1%Z) (fun _ => true) overlapping_starts).
  vm_compute. reflexivity.
Defined.

End RegistryMore.

Section Sweeps.
Import SessionManager SessionSweep.
#[local] Set Warnings "-clear-no-such-hyp".

Lemma begin_effects so s reason m :
  (activeSessions m !! s = None /\ endSession_begin so s reason m = (m, None, []))
  \/ (exists i eff st,
        activeSessions m !! s = Some i
        /\ endSession_begin so s reason m
           = (Manager (<[s := set_process i (ProcessSpawner.kill (process i))]>
                         (activeSessions m)) (userSessions m),
              Some (PendingEnd s i reason st), eff)
        /\ KillProcess s ∈ eff
        /\ (forall x, KillProcess x ∈ eff -> x = s)).
Proof.
  unfold endSession_begin. destruct (activeSessions m !! s) as [i|]; [right | left; auto].
  eexists _, _, _. split; [reflexivity|]. split; [reflexivity|]. split.
  - apply list_elem_of_further, list_elem_of_here.
  - intros x. destruct (so (socket i)); cbn [app]; rewrite !elem_of_cons, elem_of_nil;
      intros H; repeat (destruct H as [H|H]; try discriminate H; try contradiction);
      injection H as ->; reflexivity.
Qed.

Lemma endSessions_ok so reason db_ok ids m :
  (forall s, s ∈ ids -> db_ok s = true) ->
  (endSessions so reason db_ok ids m).2 = None
  /\ (forall x, activeSessions (endSessions so reason db_ok ids m).1.1 !! x
                = if decide (x ∈ ids) then None else activeSessions m !! x)
  /\ (forall x, x ∈ ids -> is_Some (activeSessions m !! x) ->
                KillProcess x ∈ (endSessions so reason db_ok ids m).1.2)
  /\ (forall x, KillProcess x ∈ (endSessions so reason db_ok ids m).1.2 -> x ∈ ids).
Proof.
  revert m. induction ids as [|s ids IH]; intros m Hdb.
  - cbn. split; [reflexivity|]. split; [|split].
    + intros x. destruct (decide (x ∈ [])) as [H|_]; [apply elem_of_nil in H; contradiction|].
      reflexivity.
    + intros x H. apply elem_of_nil in H. contradiction.
    + intros x H. apply elem_of_nil in H. contradiction.
  - assert (Hdb' : forall x, x ∈ ids -> db_ok x = true).
    { intros x Hx. apply Hdb. apply list_elem_of_further, Hx. }
    cbn [endSessions].
    destruct (begin_effects so s reason m) as [[Hn ->] | (i & eff & st & Hi & -> & Hk & Honly)].
    + destruct (IH m Hdb') as (Hr & Ha & Hk1 & Hk2).
      destruct (endSessions so reason db_ok ids m) as [[m2 eff'] r]. cbn [fst snd app] in *.
      split; [exact Hr|]. split; [|split].
      * intros x. rewrite Ha. destruct (decide (x ∈ ids)) as [Hx|Hx].
        -- rewrite decide_True by (apply list_elem_of_further, Hx). reflexivity.
        -- destruct (decide (x ∈ s :: ids)) as [Hx'|_]; [|reflexivity].
           apply elem_of_cons in Hx' as [->|Hx']; [exact Hn | contradiction].
      * intros x Hx Hs. apply elem_of_cons in Hx as [->|Hx].
        -- rewrite Hn in Hs. destruct Hs as [? Hs]. discriminate Hs.
        -- apply Hk1; assumption.
      * intros x Hx. apply list_elem_of_further, Hk2, Hx.
    + rewrite (Hdb s) by apply list_elem_of_here.
      set (m1 := Manager _ _).
      set (p := PendingEnd s i reason st).
      destruct (IH (endSession_finish p m1) Hdb') as (Hr & Ha & Hk1 & Hk2).
      destruct (endSessions so reason db_ok ids (endSession_finish p m1)) as [[m2 eff'] r].
      cbn [fst snd] in *.
      assert (Hact : forall x, activeSessions (endSession_finish p m1) !! x
                               = if decide (x = s) then None else activeSessions m !! x).
      { intros x. rewrite active_after_finish. cbn [e_sessionId p m1 activeSessions].
        destruct (decide (x = s)) as [->|Hx].
        - apply lookup_delete_eq.
        - rewrite lookup_delete_ne, lookup_insert_ne by congruence. reflexivity. }
      split; [exact Hr|]. split; [|split].
      * intros x. rewrite Ha, Hact.
        destruct (decide (x ∈ ids)) as [Hx|Hx].
        -- rewrite decide_True by (apply list_elem_of_further, Hx). reflexivity.
        -- destruct (decide (x = s)) as [->|Hxs].
           ++ rewrite decide_True by apply list_elem_of_here. reflexivity.
           ++ rewrite decide_False; [reflexivity|].
              intros Hx'. apply elem_of_cons in Hx' as [?|?]; contradiction.
      * intros x Hx Hs. apply elem_of_app.
        destruct (decide (x = s)) as [->|Hxs]; [left; exact Hk|].
        right. apply elem_of_cons in Hx as [?|Hx]; [contradiction|].
        apply Hk1; [exact Hx|]. rewrite Hact, decide_False by exact Hxs. exact Hs.
      * intros x Hx. apply elem_of_app in Hx as [Hx|Hx].
        -- rewrite (Honly x Hx). apply list_elem_of_here.
        -- apply list_elem_of_further, Hk2, Hx.
Qed.

Lemma endSessions_consistent so reason db_ok ids m :
  consistent m -> consistent (endSessions so reason db_ok ids m).1.1.
Proof.
  revert m. induction ids as [|s ids IH]; intros m Hc; [exact Hc|].
  cbn [endSessions].
  destruct (begin_effects so s reason m) as [[Hn ->] | (i & eff & st & Hi & -> & _)].
  - specialize (IH m Hc).
    destruct (endSessions so reason db_ok ids m) as [[m2 eff'] r]. exact IH.
  - pose proof (consistent_update m s i (set_process i (ProcessSpawner.kill (process i)))
                  Hc Hi eq_refl) as Hc1.
    destruct (db_ok s); [|exact Hc1].
    set (m1 := Manager _ _) in *. set (p := PendingEnd s i reason st).
    assert (Hc2 : consistent (endSession_finish p m1)).
    { apply consistent_finish; [exact Hc1|]. cbn [e_sessionId p m1 activeSessions e_session].
      rewrite lookup_insert_eq. intros i' [= <-]. reflexivity. }
    specialize (IH _ Hc2).
    destruct (endSessions so reason db_ok ids (endSession_finish p m1)) as [[m2 eff'] r].
    exact IH.
Qed.

Lemma consistent_no_sessions m :
  consistent m -> (forall s, activeSessions m !! s = None) ->
  activeSessions m = ∅ /\ userSessions m = ∅.
Proof.
  intros [Hc Hne] Hnone. split; [apply map_empty; exact Hnone|].
  apply map_empty. intros u. destruct (userSessions m !! u) as [ss|] eqn:E; [|reflexivity].
  exfalso. apply (Hne u ss E). apply set_eq. intros s. split; [|set_solver].
  intros Hs. assert (Hin : s ∈ sessions_of m u) by (unfold sessions_of; rewrite E; exact Hs).
  apply Hc in Hin as (i & Hi & _). rewrite Hnone in Hi. discriminate.
Qed.

(** X20. On shutdown, when every status update succeeds, [cleanup] sends the
    kill to the process of every registered session and leaves both maps
    of the registry empty. *)
Theorem cleanup_ends_everything
  (order : list jsstring) (socket_open : nat -> bool) (db_ok : jsstring -> bool)
  (m : SessionManager.t) :
  consistent m ->
  dom (activeSessions m) ⊆ list_to_set order ->
  (forall s, db_ok s = true) ->
  (cleanup order socket_open db_ok m).2 = None
  /\ activeSessions (cleanup order socket_open db_ok m).1.1 = ∅
  /\ userSessions (cleanup order socket_open db_ok m).1.1 = ∅
  /\ (forall s, is_Some (activeSessions m !! s) ->
                KillProcess s ∈ (cleanup order socket_open db_ok m).1.2).
Proof.
  intros Hc Hcover Hdb. unfold cleanup.
  destruct (endSessions_ok socket_open (js "shutdown") db_ok order m (fun s _ => Hdb s))
    as (Hr & Ha & Hk & _).
  pose proof (endSessions_consistent socket_open (js "shutdown") db_ok order m Hc) as Hc'.
  assert (Hin : forall s, is_Some (activeSessions m !! s) -> s ∈ order).
  { intros s Hs. apply elem_of_dom in Hs. apply Hcover in Hs.
    apply elem_of_list_to_set in Hs. exact Hs. }
  assert (Hnone : forall s, activeSessions (endSessions socket_open (js "shutdown") db_ok
                                              order m).1.1 !! s = None).
  { intros s. rewrite Ha. destruct (decide (s ∈ order)) as [_|Hs]; [reflexivity|].
    destruct (activeSessions m !! s) eqn:E; [|reflexivity].
    exfalso. apply Hs, Hin. rewrite E. eauto. }
  destruct (consistent_no_sessions _ Hc' Hnone) as [H1 H2].
  split; [exact Hr|]. split; [exact H1|]. split; [exact H2|].
  intros s Hs. apply Hk; [apply Hin, Hs | exact Hs].
Qed.

Lemma dom_register a row tm m :
  dom (activeSessions (startSession_register a row tm m).1.1)
  = {[id row]} ∪ dom (activeSessions m).
Proof.
  unfold startSession_register. cbn [fst activeSessions]. apply dom_insert_L.
Qed.

Lemma two_sessions_consistent : consistent two_sessions.
Proof.
  unfold two_sessions. apply consistent_register.
  - apply consistent_register; [apply consistent_new | apply lookup_empty].
  - vm_compute. reflexivity.
Qed.

Lemma two_sessions_covered :
  dom (activeSessions two_sessions) ⊆ list_to_set [js "s0"; js "s1"].
Proof.
  unfold two_sessions. rewrite !dom_register. cbn [list_to_set id row].
  change (activeSessions SessionManager.new) with (∅ : gmap (list N) info).
  rewrite dom_empty_L. set_solver.
Qed.

Lemma cleanup_ends_everything_witness :
  activeSessions (cleanup [js "s0"; js "s1"] (fun _ => true) (fun _ => true) two_sessions).1.1
  = ∅
  /\ userSessions (cleanup [js "s0"; js "s1"] (fun _ => true) (fun _ => true) two_sessions).1.1
     = ∅.
Proof.
  destruct (cleanup_ends_everything [js "s0"; js "s1"] (fun _ => true) (fun _ => true)
              two_sessions two_sessions_consistent two_sessions_covered (fun _ => eq_refl))
    as (_ & H1 & H2 & _).
  split; assumption.
Defined.

Lemma endSessions_app so reason db_ok ids1 ids2 m :
  endSessions so reason db_ok (ids1 ++ ids2) m
  = match (endSessions so reason db_ok ids1 m).2 with
    | None =>
        ((endSessions so reason db_ok ids2 (endSessions so reason db_ok ids1 m).1.1).1.1,
         (endSessions so reason db_ok ids1 m).1.2
         ++ (endSessions so reason db_ok ids2 (endSessions so reason db_ok ids1 m).1.1).1.2,
         (endSessions so reason db_ok ids2 (endSessions so reason db_ok ids1 m).1.1).2)
    | Some e => endSessions so reason db_ok ids1 m
    end.
Proof.
  revert m. induction ids1 as [|s ids1 IH]; intros m.
  - cbn. destruct (endSessions so reason db_ok ids2 m) as [[? ?] ?]. reflexivity.
  - cbn [app endSessions].
    destruct (endSession_begin so s reason m) as [[m1 [p|]] eff].
    + destruct (db_ok s); [|reflexivity]. rewrite IH.
      destruct (endSessions so reason db_ok ids1 (endSession_finish p m1)) as [[m2 eff'] [e|]];
        cbn [fst snd]; [reflexivity|].
      rewrite app_assoc. reflexivity.
    + rewrite IH.
      destruct (endSessions so reason db_ok ids1 m1) as [[m2 eff'] [e|]];
        cbn [fst snd]; [reflexivity|].
      rewrite app_assoc. reflexivity.
Qed.

(** X21. When the status update of one session is rejected, [cleanup] stops
    there: that session stays registered, and the sessions that come after
    it are neither sent the kill nor removed. *)
Theorem cleanup_stops_at_rejected_update
  (pre post : list jsstring) (s : jsstring) (i : info)
  (socket_open : nat -> bool) (db_ok : jsstring -> bool) (m : SessionManager.t) :
  (forall x, x ∈ pre -> db_ok x = true) -> db_ok s = false ->
  activeSessions m !! s = Some i -> s ∉ pre ->
  let r := cleanup (pre ++ s :: post) socket_open db_ok m in
  r.2 = Some DbError
  /\ is_Some (activeSessions r.1.1 !! s)
  /\ (forall x, x ∉ pre -> x <> s ->
                activeSessions r.1.1 !! x = activeSessions m !! x
                /\ KillProcess x ∉ r.1.2).
Proof.
  intros Hpre Hs Hi Hnot. unfold cleanup. rewrite endSessions_app.
  destruct (endSessions_ok socket_open (js "shutdown") db_ok pre m Hpre) as (Hr & Ha & _ & Hk).
  rewrite Hr.
  set (r1 := endSessions socket_open (js "shutdown") db_ok pre m) in *.
  assert (Hi1 : activeSessions r1.1.1 !! s = Some i).
  { rewrite Ha, decide_False by exact Hnot. exact Hi. }
  cbn [endSessions].
  destruct (begin_effects socket_open s (js "shutdown") r1.1.1)
    as [[Hn _] | (i' & eff & st & Hi' & -> & _ & Honly)]; [congruence|].
  rewrite Hs. cbn [fst snd activeSessions]. cbv zeta.
  split; [reflexivity|]. split; [rewrite lookup_insert_eq; eauto|].
  intros x Hx Hxs. split.
  - rewrite lookup_insert_ne by congruence. rewrite Ha, decide_False by exact Hx. reflexivity.
  - intros Hin. apply elem_of_app in Hin as [Hin|Hin].
    + apply Hx, Hk, Hin.
    + apply Hxs, Honly, Hin.
Qed.

Lemma cleanup_stops_at_rejected_update_witness :
  (cleanup [js "s0"; js "s1"] (fun _ => true) (fun s => negb (str_eqb s (js "s0")))
     two_sessions).2 = Some DbError
  /\ is_Some (activeSessions
                (cleanup [js "s0"; js "s1"] (fun _ => true)
                   (fun s => negb (str_eqb s (js "s0"))) two_sessions).1.1 !! js "s1").
Proof.
  destruct (cleanup_stops_at_rejected_update [] [js "s1"] (js "s0")
              (Info (ProcessSpawner.new (js "s0") None (js "/w")) 0 (js "u1") 1 None None)
              (fun _ => true) (fun s => negb (str_eqb s (js "s0"))) two_sessions)
    as (H1 & _ & H3).
  - intros x Hx. apply elem_of_nil in Hx. contradiction.
  - reflexivity.
  - vm_compute. reflexivity.
  - intros Hx. apply elem_of_nil in Hx. contradiction.
  - split; [exact H1|].
    destruct (H3 (js "s1")) as [Hs _].
    + intros Hx. apply elem_of_nil in Hx. contradiction.
    + intros Hx. vm_compute in Hx. discriminate Hx.
    + cbn [app] in Hs. rewrite Hs. vm_compute. eauto.
Defined.

(** X22. When a connection closes and every status update succeeds, the
    sessions registered on its socket are ended and removed; the sessions
    on other sockets are left exactly as they are. *)
Theorem disconnect_ends_sessions_of_socket
  (order : list jsstring) (socket_open : nat -> bool) (db_ok : jsstring -> bool)
  (sock : nat) (m : SessionManager.t) :
  dom (activeSessions m) ⊆ list_to_set order ->
  (forall s, db_ok s = true) ->
  let r := handleSocketDisconnect order socket_open db_ok sock m in
  r.2 = None
  /\ (forall s i, activeSessions m !! s = Some i ->
        if Nat.eqb (socket i) sock
        then activeSessions r.1.1 !! s = None /\ KillProcess s ∈ r.1.2
        else activeSessions r.1.1 !! s = Some i /\ KillProcess s ∉ r.1.2).
Proof.
  intros Hcover Hdb. unfold handleSocketDisconnect.
  destruct (endSessions_ok socket_open (js "disconnect") db_ok (sessionsToEnd order sock m) m
              (fun s _ => Hdb s)) as (Hr & Ha & Hk1 & Hk2).
  cbv zeta. split; [exact Hr|].
  intros s i Hi.
  assert (Hin : s ∈ order).
  { assert (Hs : is_Some (activeSessions m !! s)) by (rewrite Hi; eauto).
    apply elem_of_dom in Hs. apply Hcover in Hs. apply elem_of_list_to_set in Hs. exact Hs. }
  assert (Hmem : s ∈ sessionsToEnd order sock m <-> Nat.eqb (socket i) sock = true).
  { unfold sessionsToEnd. rewrite !list_elem_of_In, filter_In, <- list_elem_of_In, Hi.
    split; [intros [_ H]; exact H | auto]. }
  destruct (Nat.eqb (socket i) sock) eqn:E.
  - split.
    + rewrite Ha, decide_True by (apply Hmem; reflexivity). reflexivity.
    + apply Hk1; [apply Hmem; reflexivity | rewrite Hi; eauto].
  - assert (Hno : s ∉ sessionsToEnd order sock m) by (intros H; apply Hmem in H; discriminate).
    split.
    + rewrite Ha, decide_False by exact Hno. exact Hi.
    + intros H. apply Hno, Hk2, H.
Qed.

Lemma disconnect_ends_sessions_of_socket_witness :
  activeSessions (handleSocketDisconnect [js "s0"; js "s1"] (fun _ => false) (fun _ => true)
                    1 two_sessions).1.1 !! js "s1" = None
  /\ is_Some (activeSessions
                (handleSocketDisconnect [js "s0"; js "s1"] (fun _ => false) (fun _ => true)
                   1 two_sessions).1.1 !! js "s0").
Proof.
  destruct (disconnect_ends_sessions_of_socket [js "s0"; js "s1"] (fun _ => false)
              (fun _ => true) 1 two_sessions two_sessions_covered (fun _ => eq_refl))
    as (_ & H).
  split.
  - exact (proj1 (H (js "s1")
                    (Info (ProcessSpawner.new (js "s1") None (js "/w")) 1 (js "u2") 2 None None)
                    eq_refl)).
  - rewrite (proj1 (H (js "s0")
                      (Info (ProcessSpawner.new (js "s0") None (js "/w")) 0 (js "u1") 1 None
                         None)
                      eq_refl)). eauto.
Defined.

End Sweeps.

(** ** More on the Connection Router *)

Section RouterMore.
Import Router.

Lemma checked_visible c :
  is_blank c = false -> checked_content (PStr c) = Ok (Some c).
Proof.
  intros Hb. unfold checked_content. cbn [truthy]. unfold is_blank in Hb.
  destruct (str_eqb c []) eqn:E.
  - apply str_eqb_eq in E. subst c. discriminate Hb.
  - cbn [negb]. rewrite Hb. reflexivity.
Qed.

Lemma handleUserMessage_visible e message socket userId st w c :
  i_content message = PStr c -> is_blank c = false ->
  handleUserMessage e message socket userId st w
  = match bound_session w message with
    | None =>
        match open_session e message socket userId st
                (or_else (string_of (i_project_ref message)) (project_ref e)) w with
        | Reported w' => Ok w'
        | Settled sid w' => deliver e sid c w'
        end
    | Some sid0 =>
        let '(m', eff) := SessionManager.resetTimeout sid0 (new_timer e) (manager w) in
        deliver e sid0 c
          (World m' (sent w) (db w) (currentSessionId w) (messageAggregator w)
                 (listeners w) (effects w ++ eff))
    end.
Proof.
  intros Hc Hb. unfold handleUserMessage. rewrite Hc, (checked_visible c Hb). reflexivity.
Qed.

(** X23. A message routed to a registered session is written to that session's
    process whoever sends it: neither the sender nor the owner of the
    session is looked at. *)
Theorem message_reaches_bound_session
  (e : env) (message : intent) (socket : nat) (userId : jsstring) (st : settings)
  (w : world) (c sid : jsstring) (session : SessionManager.info)
  (ch : ProcessSpawner.child) :
  i_content message = PStr c -> is_blank c = false ->
  bound_session w message = Some sid ->
  SessionManager.activeSessions (manager w) !! sid = Some session ->
  ProcessSpawner.process (SessionManager.process session) = Some ch ->
  ProcessSpawner.isRunning (SessionManager.process session) = true ->
  insert_ok e = true ->
  exists w',
    handleUserMessage e message socket userId st w = Ok w'
    /\ sent w' = sent w ++ [WMessageReceived sid (now e 1%nat)]
    /\ db w' = db w ++ [InsertUser sid c]
    /\ child_of w' sid
       = Some (ProcessSpawner.child_write ch (if endsWith_nl c then c else c ++ [0x0A])).
Proof.
  intros Hc Hb Hbound Hs Hp Hr Hins.
  rewrite (handleUserMessage_visible _ _ _ _ _ _ c Hc Hb), Hbound.
  unfold SessionManager.resetTimeout. rewrite Hs.
  unfold deliver. rewrite Hins. unfold write_to, send.
  cbn [manager SessionManager.activeSessions]. rewrite lookup_insert_eq.
  unfold ProcessSpawner.write. cbn [SessionManager.set_timer SessionManager.process].
  rewrite Hp, Hr. eexists. split; [reflexivity|].
  cbn [sent db]. split; [reflexivity|]. split; [reflexivity|].
  unfold child_of. cbn [manager SessionManager.activeSessions].
  rewrite lookup_insert_eq. reflexivity.
Qed.

Lemma message_reaches_bound_session_witness :
  exists w',
    handleUserMessage demo_env (naming "hi" "s1") 7 (js "u2") demo_settings other_connection
    = Ok w'
    /\ child_of w' (js "s1")
       = Some (ProcessSpawner.Child [js "--dangerously-skip-permissions"]
                 (js "/home/ubuntu/workspace") [js "hi" ++ [0x0A]] []).
Proof.
  destruct (message_reaches_bound_session demo_env (naming "hi" "s1") 7 (js "u2")
              demo_settings other_connection (js "hi") (js "s1")
              (SessionManager.Info (running_supervisor (js "s1")) 0 (js "u1") 1 None None)
              (ProcessSpawner.Child [js "--dangerously-skip-permissions"]
                 (js "/home/ubuntu/workspace") [] [])
              eq_refl eq_refl eq_refl eq_refl eq_refl eq_refl eq_refl)
    as (w' & Hh & _ & _ & Hc).
  exists w'. split; [exact Hh | exact Hc].
Defined.

(** X24. At the maximum, a message that is routed to no registered session
    gets the one error notification of the capacity error; nothing is
    stored, registered or bound. *)
Theorem message_at_capacity
  (e : env) (message : intent) (socket : nat) (userId : jsstring) (st : settings)
  (w : world) (c : jsstring) :
  i_content message = PStr c -> is_blank c = false ->
  bound_session w message = None ->
  SessionManager.canCreateSession (max_sessions e) (manager w) userId = false ->
  handleUserMessage e message socket userId st w
  = Ok (send w (WError (MessageOf (MaxSessionsReached (max_sessions e))) None)).
Proof.
  intros Hc Hb Hbound Hcap.
  rewrite (handleUserMessage_visible _ _ _ _ _ _ c Hc Hb), Hbound.
  unfold open_session, SessionManager.startSession, SessionManager.startSession_check.
  cbn [SessionManager.a_userId]. rewrite Hcap. reflexivity.
Qed.

Lemma message_at_capacity_witness :
  handleUserMessage (Env (Some 1%Z) (Some (js "k")) None (fun _ => js "t")
                       (Some (row "s2")) 2 true)
    (intent_with (PStr (js "hi"))) 0 (js "u1") demo_settings other_connection
  = Ok (send other_connection (WError (MessageOf (MaxSessionsReached (Some 1%Z))) None)).
Proof.
  apply (message_at_capacity (Env (Some 1%Z) (Some (js "k")) None (fun _ => js "t")
                                (Some (row "s2")) 2 true)
           (intent_with (PStr (js "hi"))) 0 (js "u1") demo_settings other_connection (js "hi"));
    reflexivity.
Defined.

Lemma open_session_no_credential
  (e : env) (message : intent) (socket : nat) (userId : jsstring) (st : settings)
  (projectRef : option jsstring) (w : world) (session : SessionManager.session_row) :
  SessionManager.canCreateSession (max_sessions e) (manager w) userId = true ->
  created e = Some session ->
  ProcessSpawner.credential_absent (api_key e) = true ->
  exists w1 i,
    open_session e message socket userId st projectRef w
    = Settled (SessionManager.id session) w1
    /\ sent w1 = sent w ++ [WSessionStarted (SessionManager.id session)
                              (SessionManager.row_model session)
                              (SessionManager.row_working_directory session) (now e 0%nat)]
    /\ db w1 = db w
    /\ currentSessionId w1 = Some (SessionManager.id session)
    /\ SessionManager.activeSessions (manager w1) !! SessionManager.id session = Some i
    /\ ProcessSpawner.process (SessionManager.process i) = None.
Proof.
  intros Hcap Hrow Hkey.
  unfold open_session, SessionManager.startSession, SessionManager.startSession_check.
  cbn [SessionManager.a_userId]. rewrite Hcap, Hrow.
  unfold SessionManager.startSession_register.
  cbn [SessionManager.a_userId SessionManager.a_model SessionManager.a_workingDirectory
       SessionManager.a_socket SessionManager.a_projectRef].
  unfold ProcessSpawner.start, ProcessSpawner.new. cbn [ProcessSpawner.isRunning].
  rewrite Hkey. eexists _, _. split; [reflexivity|].
  split; [reflexivity|]. split; [reflexivity|]. split; [reflexivity|].
  split.
  - cbn [manager send SessionManager.activeSessions].
    rewrite lookup_alter_eq, lookup_insert_eq. reflexivity.
  - reflexivity.
Qed.

Lemma deliver_without_process (e : env) (sid c : jsstring) (w : world)
  (i : SessionManager.info) :
  insert_ok e = true ->
  SessionManager.activeSessions (manager w) !! sid = Some i ->
  ProcessSpawner.process (SessionManager.process i) = None ->
  deliver e sid c w
  = Ok (send (send (World (manager w) (sent w) (db w ++ [InsertUser sid c])
                      (currentSessionId w) (messageAggregator w) (listeners w) (effects w))
                (WMessageReceived sid (now e 1%nat)))
          (WError (FailedToSend ProcessNotRunning) (Some sid))).
Proof.
  intros Hins Hi Hp. unfold deliver. rewrite Hins. unfold write_to.
  cbn [send manager]. rewrite Hi. unfold ProcessSpawner.write. rewrite Hp. reflexivity.
Qed.

(** X25. With the credential absent, the first message of a connection still
    registers and binds a session; the configuration error of [start()] is
    emitted before anything listens and is never sent; the sender gets the
    session_started and message_received notifications and then the error
    of the failed write, and the session stays registered without a
    process. *)
Theorem message_without_credential
  (e : env) (message : intent) (socket : nat) (userId : jsstring) (st : settings)
  (w : world) (c : jsstring) (session : SessionManager.session_row) :
  i_content message = PStr c -> is_blank c = false ->
  bound_session w message = None ->
  SessionManager.canCreateSession (max_sessions e) (manager w) userId = true ->
  created e = Some session ->
  ProcessSpawner.credential_absent (api_key e) = true ->
  insert_ok e = true ->
  exists w',
    handleUserMessage e message socket userId st w = Ok w'
    /\ sent w'
       = sent w ++ [WSessionStarted (SessionManager.id session)
                      (SessionManager.row_model session)
                      (SessionManager.row_working_directory session) (now e 0%nat);
                    WMessageReceived (SessionManager.id session) (now e 1%nat);
                    WError (FailedToSend ProcessNotRunning) (Some (SessionManager.id session))]
    /\ db w' = db w ++ [InsertUser (SessionManager.id session) c]
    /\ currentSessionId w' = Some (SessionManager.id session)
    /\ SessionManager.hasSession (manager w') (SessionManager.id session) = true
    /\ child_of w' (SessionManager.id session) = None.
Proof.
  intros Hc Hb Hbound Hcap Hrow Hkey Hins.
  rewrite (handleUserMessage_visible _ _ _ _ _ _ c Hc Hb), Hbound.
  destruct (open_session_no_credential e message socket userId st
              (or_else (string_of (i_project_ref message)) (project_ref e)) w session
              Hcap Hrow Hkey) as (w1 & i & -> & Hsent & Hdb & Hcur & Hi & Hp).
  rewrite (deliver_without_process e _ c w1 i Hins Hi Hp).
  eexists. split; [reflexivity|]. unfold send.
  cbn [sent db currentSessionId manager].
  split; [rewrite Hsent, <- !app_assoc; reflexivity|].
  split; [rewrite Hdb; reflexivity|]. split; [exact Hcur|].
  split.
  - unfold SessionManager.hasSession. apply bool_decide_eq_true_2. rewrite Hi. eauto.
  - unfold child_of. cbn [manager]. rewrite Hi. exact Hp.
Qed.

Lemma message_without_credential_witness :
  exists w',
    handleUserMessage (Env (Some 3%Z) None None (fun _ => js "t") (Some (row "s1")) 1 true)
      (intent_with (PStr (js "hi"))) 0 (js "u1") demo_settings empty_world = Ok w'
    /\ sent w' = [WSessionStarted (js "s1") None (js "/w") (js "t");
                  WMessageReceived (js "s1") (js "t");
                  WError (FailedToSend ProcessNotRunning) (Some (js "s1"))]
    /\ SessionManager.hasSession (manager w') (js "s1") = true.
Proof.
  destruct (message_without_credential
              (Env (Some 3%Z) None None (fun _ => js "t") (Some (row "s1")) 1 true)
              (intent_with (PStr (js "hi"))) 0 (js "u1") demo_settings empty_world (js "hi")
              (row "s1") eq_refl eq_refl eq_refl eq_refl eq_refl eq_refl eq_refl)
    as (w' & Hh & Hs & _ & _ & Hr & _).
  exists w'. split; [exact Hh|]. split; [exact Hs | exact Hr].
Defined.

End RouterMore.

(** ** The connection handlers *)

Section ConnectionHandlers.
Import Router Connection.

(** X26. An abort intent that names a session reaches that session's process
    with SIGINT whether or not the session is the one bound to the
    connection, and whoever owns it; nothing is sent back. *)
Theorem abort_reaches_named_session
  (message : intent) (w : Router.world) (sid : jsstring)
  (session : SessionManager.info) (ch : ProcessSpawner.child) :
  i_session_id message = PStr sid -> sid <> [] ->
  SessionManager.activeSessions (manager w) !! sid = Some session ->
  ProcessSpawner.process (SessionManager.process session) = Some ch ->
  ProcessSpawner.isRunning (SessionManager.process session) = true ->
  child_of (handleAbort message w) sid
  = Some (ProcessSpawner.child_kill ch ProcessSpawner.SIGINT)
  /\ sent (handleAbort message w) = sent w
  /\ currentSessionId (handleAbort message w) = currentSessionId w
  /\ (forall sid', sid' <> sid -> child_of (handleAbort message w) sid' = child_of w sid').
Proof.
  intros Hid Hne Hs Hp Hr. unfold handleAbort, abort_target. rewrite Hid.
  destruct (str_eqb sid []) eqn:E; [apply str_eqb_eq in E; contradiction|].
  rewrite Hs. unfold child_of. cbn [manager SessionManager.activeSessions sent currentSessionId].
  split; [|split; [reflexivity | split; [reflexivity|]]].
  - rewrite lookup_insert_eq. cbn [mbind option_bind SessionManager.set_process
      SessionManager.process]. unfold ProcessSpawner.abort. rewrite Hp, Hr. reflexivity.
  - intros sid' Hd. rewrite lookup_insert_ne by congruence. reflexivity.
Qed.

Lemma abort_reaches_named_session_witness :
  child_of (handleAbort (naming "" "s1") other_connection) (js "s1")
  = Some (ProcessSpawner.Child [js "--dangerously-skip-permissions"]
            (js "/home/ubuntu/workspace") [] [ProcessSpawner.SIGINT]).
Proof.
  refine (proj1 (abort_reaches_named_session (naming "" "s1") other_connection (js "s1")
                   (SessionManager.Info (running_supervisor (js "s1")) 0 (js "u1") 1 None None)
                   (ProcessSpawner.Child [js "--dangerously-skip-permissions"]
                      (js "/home/ubuntu/workspace") [] [])
                   eq_refl _ eq_refl eq_refl eq_refl)).
  discriminate.
Defined.

Lemma endSession_removes so sid reason m m' r eff :
  SessionManager.endSession so sid reason true m = Ok (m', r, eff) ->
  SessionManager.activeSessions m' !! sid = None.
Proof.
  unfold SessionManager.endSession, SessionManager.endSession_begin.
  destruct (SessionManager.activeSessions m !! sid) as [i|] eqn:E.
  - intros [= <- _ _]. rewrite active_after_finish. cbn [SessionManager.e_sessionId].
    apply lookup_delete_eq.
  - intros [= <- _ _]. exact E.
Qed.

Lemma endSession_effects so sid reason m m' r eff :
  SessionManager.endSession so sid reason true m = Ok (m', r, eff) ->
  eff = (SessionManager.endSession_begin so sid reason m).2.
Proof.
  unfold SessionManager.endSession.
  destruct (SessionManager.endSession_begin so sid reason m) as [[m1 [p|]] e];
    intros [= _ _ <-]; reflexivity.
Qed.

(** X27. A new_session intent, when the status update succeeds: the bound
    session, if it is registered, is ended by [endSession] (its timer
    cleared, its process killed, session_end sent to its socket when that
    socket is open, its status updated to completed) and removed from the
    registry; the connection is left without a bound session and without
    an aggregator; the switch itself replies session_cleared; a message
    that names the old session afterwards is routed to no registered
    session. *)
Theorem new_session_clears
  (e : env) (socket : nat) (userId : jsstring) (st : settings)
  (socket_open : nat -> bool) (ts : jsstring) (message : intent) (c : Connection.t) :
  exists c',
    on_message e socket userId st socket_open true ts
      (Parsed (PStr (js "new_session")) message) c = Ok c'
    /\ replies c' = replies c ++ [SessionCleared ts]
    /\ effects (world c')
       = effects (world c)
         ++ match or_else (currentSessionId (world c)) None with
            | Some sid =>
                match SessionManager.activeSessions (manager (world c)) !! sid with
                | Some session =>
                    [SessionManager.ClearTimeout (SessionManager.timer session);
                     SessionManager.KillProcess sid]
                    ++ (if socket_open (SessionManager.socket session)
                        then [SessionManager.SocketSendSessionEnd
                                (SessionManager.socket session) sid (js "new_session")]
                        else [])
                    ++ [SessionManager.UpdateSessionStatus sid (js "completed")
                          (js "new_session")]
                | None => []
                end
            | None => []
            end
    /\ currentSessionId (world c') = None
    /\ messageAggregator (world c') = None
    /\ (forall sid, or_else (currentSessionId (world c)) None = Some sid ->
          SessionManager.hasSession (manager (world c')) sid = false
          /\ forall later, string_of (i_session_id later) = Some sid ->
                           bound_session (world c') later = None).
Proof.
  unfold on_message.
  change (str_eqb (js "new_session") (js "message")) with false.
  change (str_eqb (js "new_session") (js "abort")) with false.
  change (str_eqb (js "new_session") (js "ping")) with false.
  change (str_eqb (js "new_session") (js "end_session")) with false.
  change (str_eqb (js "new_session") (js "new_session")) with true.
  cbv iota.
  destruct (or_else (currentSessionId (world c)) None) as [sid|] eqn:Ecur.
  - unfold end_bound.
    destruct (SessionManager.endSession socket_open sid (js "new_session") true
                (manager (world c))) as [[[m' r] eff]|err] eqn:Eend.
    + assert (Hgone : SessionManager.hasSession m' sid = false).
      { unfold SessionManager.hasSession. apply bool_decide_eq_false_2.
        rewrite (endSession_removes _ _ _ _ _ _ _ Eend). intros [? ?]. discriminate. }
      assert (Heff : eff
                     = match SessionManager.activeSessions (manager (world c)) !! sid with
                       | Some session =>
                           [SessionManager.ClearTimeout (SessionManager.timer session);
                            SessionManager.KillProcess sid]
                           ++ (if socket_open (SessionManager.socket session)
                               then [SessionManager.SocketSendSessionEnd
                                       (SessionManager.socket session) sid
                                       (js "new_session")]
                               else [])
                           ++ [SessionManager.UpdateSessionStatus sid (js "completed")
                                 (js "new_session")]
                       | None => []
                       end).
      { rewrite (endSession_effects _ _ _ _ _ _ _ Eend).
        unfold SessionManager.endSession_begin.
        destruct (SessionManager.activeSessions (manager (world c)) !! sid); reflexivity. }
      eexists. split; [reflexivity|].
      cbn [replies reply_with set_world world rebind effects currentSessionId
           messageAggregator manager].
      split; [reflexivity|]. split; [rewrite Heff; reflexivity|]. split; [reflexivity|].
      split; [reflexivity|].
      intros sid0 [= <-]. split; [exact Hgone|].
      intros later Hl. unfold bound_session.
      cbn [world set_world reply_with rebind currentSessionId manager or_else].
      rewrite Hl. cbv beta iota. rewrite Hgone. reflexivity.
    + exfalso. unfold SessionManager.endSession in Eend.
      destruct (SessionManager.endSession_begin socket_open sid (js "new_session")
                  (manager (world c))) as [[m1 [p|]] eff]; discriminate.
  - eexists. split; [reflexivity|].
    cbn [replies reply_with set_world world rebind effects currentSessionId
         messageAggregator].
    split; [reflexivity|]. split; [rewrite app_nil_r; reflexivity|].
    split; [reflexivity|]. split; [reflexivity|]. discriminate.
Qed.

Lemma new_session_clears_witness :
  exists c',
    on_message demo_env 0 (js "u1") demo_settings (fun _ => true) true (js "t")
      (Parsed (PStr (js "new_session")) (intent_with PUndef)) (Conn own_connection [])
    = Ok c'
    /\ replies c' = [SessionCleared (js "t")]
    /\ effects (world c')
       = [SessionManager.ClearTimeout 1; SessionManager.KillProcess (js "s1");
          SessionManager.SocketSendSessionEnd 0 (js "s1") (js "new_session");
          SessionManager.UpdateSessionStatus (js "s1") (js "completed") (js "new_session")]
    /\ SessionManager.hasSession (manager (world c')) (js "s1") = false.
Proof.
  destruct (new_session_clears demo_env 0 (js "u1") demo_settings (fun _ => true) (js "t")
              (intent_with PUndef) (Conn own_connection []))
    as (c' & Hm & Hr & He & _ & _ & Hg).
  exists c'. split; [exact Hm|]. split; [exact Hr|]. split; [exact He|].
  exact (proj1 (Hg (js "s1") eq_refl)).
Defined.

(** X28. An end_session intent on a connection without a bound session does
    nothing and sends nothing, whatever session the intent names; with a
    bound session and a successful status update, the session is removed
    from the registry, the connection unbound, and nothing is replied. *)
Theorem end_session_only_bound
  (e : env) (socket : nat) (userId : jsstring) (st : settings)
  (socket_open : nat -> bool) (ts : jsstring) (message : intent) (c : Connection.t) :
  match or_else (currentSessionId (world c)) None with
  | None =>
      on_message e socket userId st socket_open true ts
        (Parsed (PStr (js "end_session")) message) c = Ok c
  | Some sid =>
      exists c',
        on_message e socket userId st socket_open true ts
          (Parsed (PStr (js "end_session")) message) c = Ok c'
        /\ replies c' = replies c
        /\ sent (world c') = sent (world c)
        /\ currentSessionId (world c') = None
        /\ SessionManager.hasSession (manager (world c')) sid = false
  end.
Proof.
  unfold on_message.
  change (str_eqb (js "end_session") (js "message")) with false.
  change (str_eqb (js "end_session") (js "abort")) with false.
  change (str_eqb (js "end_session") (js "ping")) with false.
  change (str_eqb (js "end_session") (js "end_session")) with true.
  cbv iota.
  destruct (or_else (currentSessionId (world c)) None) as [sid|] eqn:Ecur; [|reflexivity].
  unfold end_bound.
  destruct (SessionManager.endSession socket_open sid (js "user_ended") true
              (manager (world c))) as [[[m' r] eff]|err] eqn:Eend.
  - eexists. split; [reflexivity|].
    cbn [replies set_world world rebind sent currentSessionId manager].
    repeat split.
    unfold SessionManager.hasSession. apply bool_decide_eq_false_2.
    rewrite (endSession_removes _ _ _ _ _ _ _ Eend). intros [? ?]. discriminate.
  - exfalso. unfold SessionManager.endSession in Eend.
    destruct (SessionManager.endSession_begin socket_open sid (js "user_ended")
                (manager (world c))) as [[m1 [p|]] eff]; discriminate.
Qed.

Lemma beats_from (h : heart) (bs : list beat) :
  closed (foldl on_beat h bs)
  = closed h || missed_pong ((if isAlive h then [] else [Tick]) ++ bs).
Proof.
  revert h. induction bs as [|b bs IH]; intros h.
  - cbn [foldl]. destruct (isAlive h); cbn; rewrite orb_false_r; reflexivity.
  - cbn [foldl]. rewrite IH. destruct b; cbn [on_beat].
    + destruct (isAlive h) eqn:Ea; cbn [isAlive closed app].
      * reflexivity.
      * cbn [missed_pong]. rewrite orb_true_r. reflexivity.
    + cbn [isAlive closed app]. destruct (isAlive h); reflexivity.
Qed.

(** X29. The heartbeat closes the connection exactly when two ticks pass with
    no pong between them: a peer that answers every ping is never closed,
    a silent one is closed at the second tick. *)
Theorem heartbeat_closes_on_missed_pong (bs : list beat) :
  closed (beats bs) = missed_pong bs.
Proof. unfold beats. rewrite beats_from. reflexivity. Qed.

End ConnectionHandlers.

(** ** The logger *)

Section LoggerLevels.
Import Logger.

(** X30. Whatever LOG_LEVEL is set to, [logger.debug] prints nothing: DEBUG is
    level 0, which the default replaces by INFO; [logger.error] always
    prints, and [logger.info] prints unless the level is WARN or ERROR. *)
Theorem debug_never_printed (name : option jsstring) :
  prints name DEBUG = false
  /\ prints name ERROR = true
  /\ currentLevel (Some (js "DEBUG")) = LOG_LEVELS INFO
  /\ prints name INFO
     = negb (bool_decide (name = Some (js "WARN") \/ name = Some (js "ERROR"))).
Proof.
  unfold prints, currentLevel, level_named.
  destruct name as [s|]; [|repeat split].
  destruct (str_eqb s (js "DEBUG")) eqn:E1;
    [apply str_eqb_eq in E1; subst s; repeat split|].
  destruct (str_eqb s (js "INFO")) eqn:E2;
    [apply str_eqb_eq in E2; subst s; repeat split|].
  destruct (str_eqb s (js "WARN")) eqn:E3;
    [apply str_eqb_eq in E3; subst s; repeat split|].
  destruct (str_eqb s (js "ERROR")) eqn:E4;
    [apply str_eqb_eq in E4; subst s; repeat split|].
  repeat split. rewrite bool_decide_eq_false_2; [reflexivity|].
  intros [[= ->] | [= ->]]; [rewrite str_eqb_refl in E3 | rewrite str_eqb_refl in E4];
    discriminate.
Qed.

End LoggerLevels.

